(** * Headless CMS backend: a shallow embedding of the request handlers

    The development follows the backend sources: the validation helpers
    ([utils/validation.ts]), the Zod schemas of the shared schema package,
    the token helpers ([utils/auth.ts]), the SQLite tables of
    [db/schema.ts] and the controllers (auth, user, post, category).

    Conventions.
    - A JavaScript string is a [string]; one [ascii] stands for one code
      unit (code units above 255 are outside the model).
    - A JavaScript number that the handlers use as a count, an id, a page
      or a timestamp is a [Z]; a number that is not an integer is
      [NotInt] or [NaN] (see [jsnum]).
    - Each handler runs to completion on the database before the next one
      starts (the [await] points of a handler are not interleaved with
      other requests). *)

From Stdlib Require Import String Ascii List ZArith Lia Bool Arith.
From Stdlib Require Import QArith Qround.
From Stdlib Require Import Permutation Sorted.
Import ListNotations.

Local Open Scope string_scope.
Local Open Scope Z_scope.

Set Implicit Arguments.
Set Warnings "-register-all".

(* ------------------------------------------------------------------ *)
(** ** Characters and strings *)

Module Chars.

Definition code (c : ascii) : N := N_of_ascii c.

Definition between (lo hi : N) (c : ascii) : bool :=
  (N.leb lo (code c) && N.leb (code c) hi)%bool.

(** [a-z] *)
Definition is_lower (c : ascii) : bool := between 97 122 c.
(** [A-Z] *)
Definition is_upper (c : ascii) : bool := between 65 90 c.
(** [0-9] *)
Definition is_digit (c : ascii) : bool := between 48 57 c.
(** [-] *)
Definition is_hyphen (c : ascii) : bool := N.eqb (code c) 45.

(** The character class [[a-z0-9-]] of the slug pattern. *)
Definition is_slug_char (c : ascii) : bool :=
  (is_lower c || is_digit c || is_hyphen c)%bool.

(** The class [\s] of a JavaScript regular expression, restricted to the
    code units of the model: TAB, LF, VT, FF, CR, SPACE and NBSP. *)
Definition is_space (c : ascii) : bool :=
  (between 9 13 c || N.eqb (code c) 32 || N.eqb (code c) 160)%bool.

(** ASCII case folding, as SQLite's built-in LIKE does it. *)
Definition fold_case (c : ascii) : ascii :=
  if is_upper c then ascii_of_N (code c + 32) else c.

Definition eqb_nocase (c d : ascii) : bool :=
  Ascii.eqb (fold_case c) (fold_case d).

End Chars.

Fixpoint forall_chars (f : ascii -> bool) (s : string) : bool :=
  match s with
  | EmptyString => true
  | String c s' => (f c && forall_chars f s')%bool
  end.

Fixpoint exists_char (f : ascii -> bool) (s : string) : bool :=
  match s with
  | EmptyString => false
  | String c s' => (f c || exists_char f s')%bool
  end.

Definition is_empty (s : string) : bool :=
  match s with EmptyString => true | _ => false end.

(* ------------------------------------------------------------------ *)
(** ** utils/validation.ts *)

(** [/^[a-z0-9-]+$/.test(slug)]: one or more characters of the class,
    anchored at both ends of the input (no [m] flag). *)
Definition validateSlug (slug : string) : bool :=
  (negb (is_empty slug) && forall_chars Chars.is_slug_char slug)%bool.

Definition validateUsername (username : string) : bool :=
  (Nat.leb 3 (String.length username) && Nat.leb (String.length username) 50)%bool.

Definition validatePassword (password : string) : bool :=
  Nat.leb 6 (String.length password).

(* ------------------------------------------------------------------ *)
(** ** JavaScript values *)

(** A JavaScript number: an integer, a number that is not an integer
    (a fraction or an infinity), or NaN. *)
Inductive jsnum : Type :=
| Int (z : Z)
| NotInt
| NaN.

Inductive value : Type :=
| VUndef
| VNull
| VBool (b : bool)
| VNum (n : jsnum)
| VStr (s : string)
| VDate (t : Z)
| VArr (items : list value)
| VObj (fields : list (string * value)).

Definition fields_t : Type := list (string * value).

(** [o[k]]: the value of the first entry with key [k], [undefined] when
    there is none. *)
Fixpoint get (k : string) (fields : fields_t) : value :=
  match fields with
  | [] => VUndef
  | (k', v) :: rest => if String.eqb k k' then v else get k rest
  end.

Definition has_key (k : string) (fields : fields_t) : bool :=
  existsb (fun kv => String.eqb k (fst kv)) fields.

(** [o[k] = v] on an object literal under construction. *)
Fixpoint set (k : string) (v : value) (fields : fields_t) : fields_t :=
  match fields with
  | [] => [(k, v)]
  | (k', v') :: rest =>
      if String.eqb k k' then (k, v) :: rest else (k', v') :: set k v rest
  end.

(** [const { k: _, ...rest } = o]. *)
Definition omit (k : string) (fields : fields_t) : fields_t :=
  filter (fun kv => negb (String.eqb k (fst kv))) fields.

(** [v.k] for a value that is an object. *)
Definition prop (k : string) (v : value) : value :=
  match v with
  | VObj fields => get k fields
  | _ => VUndef
  end.

(** ToBoolean. *)
Definition truthy (v : value) : bool :=
  match v with
  | VUndef | VNull => false
  | VBool b => b
  | VNum (Int z) => negb (z =? 0)
  | VNum NotInt => true
  | VNum NaN => false
  | VStr s => negb (is_empty s)
  | VDate _ | VArr _ | VObj _ => true
  end.

Definition opt_str (o : option string) : value :=
  match o with Some s => VStr s | None => VNull end.

(* ------------------------------------------------------------------ *)
(** ** Zod schemas *)

Inductive issue_code : Type :=
| invalid_type
| too_small
| too_big
| invalid_format
| invalid_value
| not_integer.

Record issue : Type := { issue_path : string; issue_kind : issue_code }.

Inductive str_check : Type :=
| SMin (n : nat)
| SMax (n : nat)
| SEmail
| SUrl
| SRegex (re : string -> bool).

Inductive num_check : Type :=
| NInteger
| NMin (lo : Z)
| NMax (hi : Z)
| NPositive.

Inductive schema : Type :=
| z_string (checks : list str_check)
| z_enum (members : list string)
| z_coerce_number (checks : list num_check)
| z_default (inner : schema) (dflt : value)
| z_optional (inner : schema)
| z_nullable (inner : schema)
| z_object (shape : list (string * schema)).

Inductive parsed : Type :=
| Valid (v : value)
| Invalid (issues : list issue).

(** [schema.partial()] *)
Definition partial (s : schema) : schema :=
  match s with
  | z_object shape => z_object (map (fun ks => (fst ks, z_optional (snd ks))) shape)
  | _ => s
  end.

Definition is_default (s : schema) : bool :=
  match s with z_default _ _ => true | _ => false end.

Definition num_check_issue (c : num_check) (z : Z) : option issue_code :=
  match c with
  | NInteger => None
  | NMin lo => if lo <=? z then None else Some too_small
  | NMax hi => if z <=? hi then None else Some too_big
  | NPositive => if 0 <? z then None else Some too_small
  end.

Fixpoint collect {A B : Type} (f : A -> option B) (l : list A) : list B :=
  match l with
  | [] => []
  | a :: l' => match f a with Some b => b :: collect f l' | None => collect f l' end
  end.

Definition finish (path : string) (v : value) (codes : list issue_code) : parsed :=
  match codes with
  | [] => Valid v
  | _ => Invalid (map (fun c => {| issue_path := path; issue_kind := c |}) codes)
  end.

(** The parts of the platform that the sources use and do not define:
    format checks of Zod, ToNumber on strings, bcrypt, jsonwebtoken and
    the settings of the SQLite connection. *)
Inductive jwt_failure : Type :=
| JsonWebTokenError
| TokenExpiredError
| NotBeforeError.

Inductive jwt_result : Type :=
| JwtDecoded (payload : value)
| JwtThrows (e : jwt_failure).

Record Platform : Type := {
  (** [z.string().email()] and [z.string().url()] *)
  zod_email : string -> bool;
  zod_url : string -> bool;
  (** Zod 4 applies the default of a field wrapped by [.optional()] or
      [.partial()] when the key is absent; Zod 3 leaves the key out. *)
  zod4 : bool;
  (** [Number(v)] for a value that is not already a number, and
      [parseInt(s)] *)
  js_Number : value -> jsnum;
  js_parseInt : string -> jsnum;
  (** [bcrypt.hash(password, rounds)] with the salt it drew, and
      [bcrypt.compare] *)
  bcrypt_hash : string -> nat -> string -> string;
  bcrypt_compare : string -> string -> bool;
  (** [jwt.sign(payload, secret, { expiresIn })] at a clock reading and
      [jwt.verify(token, secret)] at a clock reading *)
  jwt_sign : value -> string -> string -> Z -> string;
  jwt_verify : string -> string -> Z -> jwt_result;
  (** the number of seconds that an [expiresIn] text such as ["7d"] denotes *)
  jwt_lifetime : string -> Z;
  (** [PRAGMA foreign_keys] of the connection *)
  foreign_keys : bool
}.

(** The fields of an object schema, parsed in the order of the shape.
    A key whose parsed value is [undefined] is left out of the result. *)
Section Walk.

Variable parse_field : string -> schema -> value -> parsed.
Variable fields : fields_t.

Fixpoint walk (shape : list (string * schema)) : list issue * fields_t :=
  match shape with
  | [] => ([], [])
  | ks :: rest =>
      let (issues, out) := walk rest in
      match parse_field (fst ks) (snd ks) (get (fst ks) fields) with
      | Valid VUndef => (issues, out)
      | Valid x => (issues, (fst ks, x) :: out)
      | Invalid i => ((i ++ issues)%list, out)
      end
  end.

End Walk.

Section Zod.

Context (P : Platform).

Definition str_check_issue (c : str_check) (s : string) : option issue_code :=
  match c with
  | SMin n => if Nat.leb n (String.length s) then None else Some too_small
  | SMax n => if Nat.leb (String.length s) n then None else Some too_big
  | SEmail => if zod_email P s then None else Some invalid_format
  | SUrl => if zod_url P s then None else Some invalid_format
  | SRegex re => if re s then None else Some invalid_format
  end.

(** [z.coerce.number()] feeds [Number(input)] to the number schema. *)
Definition coerce_number (v : value) : jsnum :=
  match v with
  | VNum n => n
  | _ => js_Number P v
  end.

(** [schema.safeParse(v)] at a field path. The issue list of a number
    that is not an integer records the integer check alone. *)
Fixpoint parse_at (path : string) (s : schema) (v : value) : parsed :=
  match s with
  | z_string checks =>
      match v with
      | VStr x => finish path v (collect (fun c => str_check_issue c x) checks)
      | _ => finish path v [invalid_type]
      end
  | z_enum members =>
      match v with
      | VStr x => if existsb (String.eqb x) members then Valid v
                  else finish path v [invalid_value]
      | _ => finish path v [invalid_value]
      end
  | z_coerce_number checks =>
      match coerce_number v with
      | Int z => finish path (VNum (Int z)) (collect (fun c => num_check_issue c z) checks)
      | NotInt => finish path v [not_integer]
      | NaN => finish path v [invalid_type]
      end
  | z_default inner dflt =>
      match v with
      | VUndef => parse_at path inner dflt
      | _ => parse_at path inner v
      end
  | z_optional inner =>
      match v with
      | VUndef => if (zod4 P && is_default inner)%bool
                  then parse_at path inner v else Valid VUndef
      | _ => parse_at path inner v
      end
  | z_nullable inner =>
      match v with
      | VNull => Valid VNull
      | _ => parse_at path inner v
      end
  | z_object shape =>
      match v with
      | VObj fields =>
          match walk parse_at fields shape with
          | ([], out) => Valid (VObj out)
          | (issues, _) => Invalid issues
          end
      | _ => finish path v [invalid_type]
      end
  end.

Definition safeParse (s : schema) (v : value) : parsed := parse_at "" s v.

End Zod.

(* ------------------------------------------------------------------ *)
(** ** The schemas of the shared schema package and of the controllers *)

Definition userRoleSchema : schema := z_enum ["admin"; "editor"].
Definition postStatusSchema : schema := z_enum ["draft"; "published"].
Definition postContentTypeSchema : schema := z_enum ["markdown"; "html"].

Definition insertUserSchema : schema :=
  z_object
    [ ("username", z_string [SMin 3; SMax 50]);
      ("email", z_string [SEmail]);
      ("password", z_string [SMin 6]);
      ("role", z_default userRoleSchema (VStr "editor")) ].

Definition insertCategorySchema : schema :=
  z_object
    [ ("name", z_string [SMin 1; SMax 100]);
      ("slug", z_string [SRegex validateSlug]);
      ("description", z_optional (z_nullable (z_string [SMax 500]))) ].

Definition insertPostSchema : schema :=
  z_object
    [ ("title", z_string [SMin 1; SMax 200]);
      ("slug", z_string [SRegex validateSlug]);
      ("content", z_string [SMin 1]);
      ("contentType", z_default postContentTypeSchema (VStr "markdown"));
      ("excerpt", z_optional (z_string [SMax 500]));
      ("status", z_default postStatusSchema (VStr "draft"));
      ("featuredImage", z_optional (z_string [SUrl])) ].

(** authController.ts *)
Definition loginSchema : schema :=
  z_object
    [ ("username", z_string [SMin 1]);
      ("password", z_string [SMin 1]) ].

(** userController.ts *)
Definition changePasswordSchema : schema :=
  z_object
    [ ("currentPassword", z_string [SMin 1]);
      ("newPassword", z_string [SMin 6]) ].

(** postController.ts *)
Definition postUpdateSchema : schema := partial insertPostSchema.

Definition postsQuerySchema : schema :=
  z_object
    [ ("page", z_default (z_coerce_number [NInteger; NMin 1]) (VNum (Int 1)));
      ("limit", z_default (z_coerce_number [NInteger; NMin 1; NMax 100]) (VNum (Int 10)));
      ("status", z_optional (z_enum ["draft"; "published"]));
      ("category", z_optional (z_coerce_number [NInteger; NPositive]));
      ("author", z_optional (z_coerce_number [NInteger; NPositive]));
      ("search", z_optional (z_string []));
      ("sortBy", z_default (z_enum ["created_at"; "updated_at"; "title"]) (VStr "created_at"));
      ("sortOrder", z_default (z_enum ["asc"; "desc"]) (VStr "desc")) ].

(** categoryController.ts *)
Definition categoryUpdateSchema : schema := partial insertCategorySchema.

(* ------------------------------------------------------------------ *)
(** ** db/schema.ts: the tables *)

Record user : Type := {
  user_id : Z;
  user_username : string;
  user_email : string;
  user_password : string;
  user_role : string;
  user_createdAt : Z;
  user_updatedAt : Z
}.

Record category : Type := {
  category_id : Z;
  category_name : string;
  category_slug : string;
  category_description : option string;
  category_createdAt : Z;
  category_updatedAt : Z
}.

Record post : Type := {
  post_id : Z;
  post_title : string;
  post_slug : string;
  post_content : string;
  post_contentType : string;
  post_excerpt : option string;
  post_status : string;
  post_featuredImage : option string;
  post_authorId : Z;
  post_createdAt : Z;
  post_updatedAt : Z
}.

Record postCategory : Type := {
  pc_postId : Z;
  pc_categoryId : Z
}.

(** The database file: the four tables in rowid order and the
    AUTOINCREMENT counters of [sqlite_sequence]. *)
Record db : Type := {
  users : list user;
  categories : list category;
  posts : list post;
  postCategories : list postCategory;
  seq_users : Z;
  seq_categories : Z;
  seq_posts : Z
}.

Definition empty_db : db :=
  {| users := []; categories := []; posts := []; postCategories := [];
     seq_users := 0; seq_categories := 0; seq_posts := 0 |}.

(** The row objects that [select()] and [returning()] hand to the
    controllers, columns in table order. *)
Definition user_row (u : user) : fields_t :=
  [ ("id", VNum (Int (user_id u)));
    ("username", VStr (user_username u));
    ("email", VStr (user_email u));
    ("password", VStr (user_password u));
    ("role", VStr (user_role u));
    ("createdAt", VDate (user_createdAt u));
    ("updatedAt", VDate (user_updatedAt u)) ].

Definition category_row (c : category) : fields_t :=
  [ ("id", VNum (Int (category_id c)));
    ("name", VStr (category_name c));
    ("slug", VStr (category_slug c));
    ("description", opt_str (category_description c));
    ("createdAt", VDate (category_createdAt c));
    ("updatedAt", VDate (category_updatedAt c)) ].

(** [eq(column, n)] for a bound parameter [n]: NaN is bound as NULL and
    equals no row. *)
Definition eq_num (column : Z) (n : jsnum) : bool :=
  match n with
  | Int z => column =? z
  | _ => false
  end.

Definition find_user_by_id (d : db) (id : Z) : option user :=
  find (fun u => user_id u =? id) (users d).

Definition find_user_by_username (d : db) (name : string) : option user :=
  find (fun u => String.eqb (user_username u) name) (users d).

Definition find_post_by_id (d : db) (n : jsnum) : option post :=
  find (fun p => eq_num (post_id p) n) (posts d).

Definition find_post_by_slug (d : db) (slug : string) : option post :=
  find (fun p => String.eqb (post_slug p) slug) (posts d).

Definition find_category_by_id (d : db) (n : jsnum) : option category :=
  find (fun c => eq_num (category_id c) n) (categories d).

Definition find_category_by_slug (d : db) (slug : string) : option category :=
  find (fun c => String.eqb (category_slug c) slug) (categories d).

(** AUTOINCREMENT: one more than the largest rowid the table ever had. *)
Definition next_id (seq : Z) (ids : list Z) : Z :=
  Z.max seq (fold_right Z.max 0 ids) + 1.

(* ------------------------------------------------------------------ *)
(** ** Responses, exceptions and the handler monad *)

Inductive sqlite_error : Type :=
| UniqueConstraintFailed (columns : string)
| ForeignKeyConstraintFailed
| NotNullConstraintFailed (column : string)
| DatatypeMismatch.

Inductive exn : Type :=
| SyntaxError
| TypeError
| ZodError (issues : list issue)
| SQLiteError (e : sqlite_error)
| Error (msg : string).

Inductive error_text : Type :=
| IssueMessage (i : issue)
| ExnMessage (e : exn)
| Text (s : string).

Record pagination : Type := {
  page : Z;
  limit : Z;
  total : Z;
  totalPages : Z
}.

(** [new Response(JSON.stringify(body), { status })] with the body kept as
    the object that was serialised. *)
Record response : Type := {
  status : Z;
  success : bool;
  message : option string;
  data : value;
  paging : option pagination;
  errors : option (list error_text)
}.

Definition createAPIResponse (st : Z) (ok : bool) (msg : string)
  (dat : value) (errs : option (list error_text)) : response :=
  {| status := st; success := ok; message := Some msg; data := dat;
     paging := None; errors := errs |}.

Definition createPaginatedResponse (items : list value) (pg : pagination) : response :=
  {| status := 200; success := true; message := None; data := VArr items;
     paging := Some pg; errors := None |}.

Definition failure (st : Z) (msg : string) : response :=
  createAPIResponse st false msg VUndef None.

(** What running a piece of a handler produces: a value to go on with, a
    [return] of the response, or a thrown exception. The database is
    threaded through; what was written before a [throw] stays written. *)
Inductive outcome (A : Type) : Type :=
| Ok (a : A)
| Return (r : response)
| Throw (e : exn).

Arguments Ok {A} a.
Arguments Return {A} r.
Arguments Throw {A} e.

Definition M (A : Type) : Type := db -> outcome A * db.

Definition ret {A : Type} (a : A) : M A := fun d => (Ok a, d).

Definition bind {A B : Type} (m : M A) (f : A -> M B) : M B :=
  fun d =>
    match m d with
    | (Ok a, d') => f a d'
    | (Return r, d') => (Return r, d')
    | (Throw e, d') => (Throw e, d')
    end.

Definition respond {A : Type} (r : response) : M A := fun d => (Return r, d).
Definition throw {A : Type} (e : exn) : M A := fun d => (Throw e, d).
Definition query {A : Type} (f : db -> A) : M A := fun d => (Ok (f d), d).
Definition when (b : bool) (m : M unit) : M unit := if b then m else ret tt.

Declare Scope handler_scope.
Delimit Scope handler_scope with handler.
Notation "x <- m ;; k" := (bind m (fun x => k))
  (at level 61, m at next level, right associativity) : handler_scope.
Notation "m ;;; k" := (bind m (fun _ => k))
  (at level 61, right associativity) : handler_scope.

(** [try { body } catch (error) { handler }] around a whole controller. *)
Definition try_catch (body : M response) (handler : exn -> response)
  : db -> response * db :=
  fun d =>
    match body d with
    | (Ok r, d') => (r, d')
    | (Return r, d') => (r, d')
    | (Throw e, d') => (handler e, d')
    end.

(** [isZodError(error)] *)
Definition isZodError (e : exn) : option (list issue) :=
  match e with
  | ZodError issues => Some issues
  | _ => None
  end.

(** [schema.parse(body)] *)
Definition parse (P : Platform) (s : schema) (v : value) : M value :=
  match safeParse P s v with
  | Valid x => ret x
  | Invalid issues => throw (ZodError issues)
  end.

(** [await request.json()] for a body that may fail to parse. *)
Definition request_json (body : option value) : M value :=
  match body with
  | Some v => ret v
  | None => throw SyntaxError
  end.

Definition validation_error (issues : list issue) : response :=
  createAPIResponse 400 false "Validation error" VUndef
    (Some (map IssueMessage issues)).

(* ------------------------------------------------------------------ *)
(** ** utils/auth.ts *)

Record Env : Type := {
  env_JWT_SECRET : option string;
  env_JWT_EXPIRES_IN : option string
}.

(** [process.env.NAME || fallback] *)
Definition env_or (v : option string) (fallback : string) : string :=
  match v with
  | Some s => if is_empty s then fallback else s
  | None => fallback
  end.

Definition JWT_SECRET (E : Env) : string := env_or (env_JWT_SECRET E) "your-secret-key".
Definition JWT_EXPIRES_IN (E : Env) : string := env_or (env_JWT_EXPIRES_IN E) "7d".

Record JWTPayload : Type := {
  userId : Z;
  username : string;
  email : string;
  role : string
}.

Definition payload_object (p : JWTPayload) : value :=
  VObj [ ("userId", VNum (Int (userId p)));
         ("username", VStr (username p));
         ("email", VStr (email p));
         ("role", VStr (role p)) ].

Record AuthUser : Type := {
  auth_id : Z;
  auth_username : string;
  auth_email : string;
  auth_role : string
}.

Section Auth.

Context (P : Platform) (E : Env).

(** [bcrypt.hash(password, 10)] with the salt drawn for this call. *)
Definition hashPassword (salt password : string) : string :=
  bcrypt_hash P password 10%nat salt.

Definition verifyPassword (password hashedPassword : string) : bool :=
  bcrypt_compare P password hashedPassword.

Definition generateToken (now : Z) (payload : JWTPayload) : string :=
  jwt_sign P (payload_object payload) (JWT_SECRET E) (JWT_EXPIRES_IN E) now.

(** [try { return jwt.verify(token, JWT_SECRET) } catch { return null }] *)
Definition verifyToken (now : Z) (token : string) : option value :=
  match jwt_verify P token (JWT_SECRET E) now with
  | JwtDecoded payload => Some payload
  | JwtThrows _ => None
  end.

Definition extractTokenFromHeader (authHeader : option string) : option string :=
  match authHeader with
  | None => None
  | Some h =>
      if (is_empty h || negb (String.prefix "Bearer " h))%bool then None
      else Some (String.substring 7 (String.length h - 7) h)
  end.

End Auth.

(* ------------------------------------------------------------------ *)
(** ** SQL operators used by the queries *)

(** SQLite's [LIKE] with the default settings: [%] matches any run of
    characters, [_] matches one character, any other character matches
    itself up to ASCII case; there is no escape character. *)
Fixpoint like_match (pattern : string) : string -> bool :=
  match pattern with
  | EmptyString => is_empty
  | String c pattern' =>
      if Ascii.eqb c "%"%char then
        fix star (s : string) : bool :=
          (like_match pattern' s ||
           match s with
           | EmptyString => false
           | String _ s' => star s'
           end)%bool
      else if Ascii.eqb c "_"%char then
        fun s => match s with
                 | EmptyString => false
                 | String _ s' => like_match pattern' s'
                 end
      else
        fun s => match s with
                 | EmptyString => false
                 | String d s' => (Chars.eqb_nocase c d && like_match pattern' s')%bool
                 end
  end.

(** [like(column, pattern)] *)
Definition like (column pattern : string) : bool := like_match pattern column.

(** [search.split(/\s+/)]: the pieces between maximal runs of white
    space, with an empty piece before a leading run and after a trailing
    one. [cur] is the piece being read, reversed; [in_gap] tells that the
    previous character was white space. *)
Fixpoint split_ws_from (cur : string) (in_gap : bool) (s : string) : list string :=
  match s with
  | EmptyString => [cur]
  | String c s' =>
      if Chars.is_space c then
        if in_gap then split_ws_from cur true s'
        else cur :: split_ws_from EmptyString true s'
      else split_ws_from (cur ++ String c EmptyString) false s'
  end.

Definition split_ws (s : string) : list string := split_ws_from EmptyString false s.

(** [search.split(/\s+/).filter(k => k.length > 0)] *)
Definition keywords_of (search : string) : list string :=
  filter (fun k => Nat.ltb 0 (String.length k)) (split_ws search).

(* ------------------------------------------------------------------ *)
(** ** The SQL statements that the controllers issue *)

Definition with_users (d : db) (rows : list user) (seq : Z) : db :=
  {| users := rows; categories := categories d; posts := posts d;
     postCategories := postCategories d;
     seq_users := seq; seq_categories := seq_categories d; seq_posts := seq_posts d |}.

Definition with_categories (d : db) (rows : list category) (seq : Z) : db :=
  {| users := users d; categories := rows; posts := posts d;
     postCategories := postCategories d;
     seq_users := seq_users d; seq_categories := seq; seq_posts := seq_posts d |}.

Definition with_posts (d : db) (rows : list post) (seq : Z) : db :=
  {| users := users d; categories := categories d; posts := rows;
     postCategories := postCategories d;
     seq_users := seq_users d; seq_categories := seq_categories d; seq_posts := seq |}.

Definition with_postCategories (d : db) (rows : list postCategory) : db :=
  {| users := users d; categories := categories d; posts := posts d;
     postCategories := rows;
     seq_users := seq_users d; seq_categories := seq_categories d; seq_posts := seq_posts d |}.

Definition pc_eqb (a b : postCategory) : bool :=
  ((pc_postId a =? pc_postId b) && (pc_categoryId a =? pc_categoryId b))%bool.

(** Values bound to columns. *)
Definition not_null_text (column : string) (v : value) : M string :=
  match v with
  | VStr s => ret s
  | _ => throw (SQLiteError (NotNullConstraintFailed column))
  end.

Definition text_with_default (column dflt : string) (v : value) : M string :=
  match v with
  | VStr s => ret s
  | VUndef => ret dflt
  | _ => throw (SQLiteError (NotNullConstraintFailed column))
  end.

Definition nullable_text (v : value) : option string :=
  match v with
  | VStr s => Some s
  | _ => None
  end.

(** [.set({ ... })]: a key that is absent or [undefined] leaves its
    column alone. *)
Definition set_text (v : value) (old : string) : option string :=
  match v with
  | VUndef => Some old
  | VStr s => Some s
  | _ => None
  end.

Definition set_nullable_text (v : value) (old : option string) : option (option string) :=
  match v with
  | VUndef => Some old
  | VNull => Some None
  | VStr s => Some (Some s)
  | _ => None
  end.

Definition set_integer (v : value) (old : Z) : option Z :=
  match v with
  | VUndef => Some old
  | VNum (Int z) => Some z
  | _ => None
  end.

Definition set_timestamp (v : value) (old : Z) : option Z :=
  match v with
  | VUndef => Some old
  | VDate t => Some t
  | _ => None
  end.

Definition obind {A B : Type} (o : option A) (f : A -> option B) : option B :=
  match o with
  | Some a => f a
  | None => None
  end.

(** [db.update(posts).set(changes)] on one row: every column of the
    table that [changes] names is written. *)
Definition set_post (changes : fields_t) (p : post) : option post :=
  obind (set_integer (get "id" changes) (post_id p)) (fun id =>
  obind (set_text (get "title" changes) (post_title p)) (fun title =>
  obind (set_text (get "slug" changes) (post_slug p)) (fun slug =>
  obind (set_text (get "content" changes) (post_content p)) (fun content =>
  obind (set_text (get "contentType" changes) (post_contentType p)) (fun contentType =>
  obind (set_nullable_text (get "excerpt" changes) (post_excerpt p)) (fun excerpt =>
  obind (set_text (get "status" changes) (post_status p)) (fun st =>
  obind (set_nullable_text (get "featuredImage" changes) (post_featuredImage p)) (fun image =>
  obind (set_integer (get "authorId" changes) (post_authorId p)) (fun authorId =>
  obind (set_timestamp (get "createdAt" changes) (post_createdAt p)) (fun createdAt =>
  obind (set_timestamp (get "updatedAt" changes) (post_updatedAt p)) (fun updatedAt =>
  Some {| post_id := id; post_title := title; post_slug := slug;
          post_content := content; post_contentType := contentType;
          post_excerpt := excerpt; post_status := st;
          post_featuredImage := image; post_authorId := authorId;
          post_createdAt := createdAt; post_updatedAt := updatedAt |}))))))))))).

Definition set_category (changes : fields_t) (c : category) : option category :=
  obind (set_integer (get "id" changes) (category_id c)) (fun id =>
  obind (set_text (get "name" changes) (category_name c)) (fun name =>
  obind (set_text (get "slug" changes) (category_slug c)) (fun slug =>
  obind (set_nullable_text (get "description" changes) (category_description c)) (fun description =>
  obind (set_timestamp (get "createdAt" changes) (category_createdAt c)) (fun createdAt =>
  obind (set_timestamp (get "updatedAt" changes) (category_updatedAt c)) (fun updatedAt =>
  Some {| category_id := id; category_name := name; category_slug := slug;
          category_description := description;
          category_createdAt := createdAt; category_updatedAt := updatedAt |})))))).

(** A statement changes all the rows it names or none. *)
Fixpoint map_rows {A : Type} (f : A -> option A) (rows : list A) : option (list A) :=
  match rows with
  | [] => Some []
  | r :: rest =>
      match f r, map_rows f rest with
      | Some r', Some rest' => Some (r' :: rest')
      | _, _ => None
      end
  end.

Section Statements.

Context (P : Platform).

Definition user_exists (d : db) (id : Z) : bool :=
  existsb (fun u => user_id u =? id) (users d).

Definition post_exists (d : db) (id : Z) : bool :=
  existsb (fun p => post_id p =? id) (posts d).

Definition category_exists (d : db) (id : Z) : bool :=
  existsb (fun c => category_id c =? id) (categories d).

(** [db.insert(users).values({...}).returning()] *)
Definition insert_user (name mail pw : string) (rl : value) (now : Z) : M user :=
  (r <- text_with_default "users.role" "editor" rl ;;
   fun d =>
     if existsb (fun u => String.eqb (user_username u) name) (users d) then
       (Throw (SQLiteError (UniqueConstraintFailed "users.username")), d)
     else if existsb (fun u => String.eqb (user_email u) mail) (users d) then
       (Throw (SQLiteError (UniqueConstraintFailed "users.email")), d)
     else
       let id := next_id (seq_users d) (map user_id (users d)) in
       let u := {| user_id := id; user_username := name; user_email := mail;
                   user_password := pw; user_role := r;
                   user_createdAt := now; user_updatedAt := now |} in
       (Ok u, with_users d (users d ++ [u]) id))%handler.

(** [db.update(users).set({ password, updatedAt }).where(eq(users.id, id))] *)
Definition update_user_password (id : Z) (pw : string) (now : Z) : M unit :=
  fun d =>
    (Ok tt,
     with_users d
       (map (fun u =>
               if user_id u =? id then
                 {| user_id := user_id u; user_username := user_username u;
                    user_email := user_email u; user_password := pw;
                    user_role := user_role u;
                    user_createdAt := user_createdAt u; user_updatedAt := now |}
               else u) (users d))
       (seq_users d)).

(** [db.insert(categories).values({ name, slug, description }).returning()] *)
Definition insert_category (name slug description : value) (now : Z) : M category :=
  (n <- not_null_text "categories.name" name ;;
   s <- not_null_text "categories.slug" slug ;;
   fun d =>
     if existsb (fun c => String.eqb (category_name c) n) (categories d) then
       (Throw (SQLiteError (UniqueConstraintFailed "categories.name")), d)
     else if existsb (fun c => String.eqb (category_slug c) s) (categories d) then
       (Throw (SQLiteError (UniqueConstraintFailed "categories.slug")), d)
     else
       let id := next_id (seq_categories d) (map category_id (categories d)) in
       let c := {| category_id := id; category_name := n; category_slug := s;
                   category_description := nullable_text description;
                   category_createdAt := now; category_updatedAt := now |} in
       (Ok c, with_categories d (categories d ++ [c]) id))%handler.

(** [db.update(categories).set(changes).where(eq(categories.id, n)).returning()] *)
Definition update_category (changes : fields_t) (n : jsnum) : M (list category) :=
  fun d =>
    let hit c := eq_num (category_id c) n in
    match map_rows (fun c => if hit c then set_category changes c else Some c)
                   (categories d) with
    | None => (Throw (SQLiteError DatatypeMismatch), d)
    | Some rows =>
        let clash c' :=
          existsb (fun q => negb (category_id q =? category_id c') &&
                            (String.eqb (category_name q) (category_name c') ||
                             String.eqb (category_slug q) (category_slug c')))%bool
                  rows in
        if existsb (fun c' => hit c' && clash c')%bool rows then
          (Throw (SQLiteError (UniqueConstraintFailed "categories")), d)
        else (Ok (filter hit rows), with_categories d rows (seq_categories d))
    end.

(** [db.delete(categories).where(eq(categories.id, n))] *)
Definition delete_category (n : jsnum) : M unit :=
  fun d =>
    let hit c := eq_num (category_id c) n in
    if (foreign_keys P &&
        existsb (fun pc => eq_num (pc_categoryId pc) n) (postCategories d) &&
        existsb hit (categories d))%bool then
      (Throw (SQLiteError ForeignKeyConstraintFailed), d)
    else
      (Ok tt, with_categories d (filter (fun c => negb (hit c)) (categories d))
                                (seq_categories d)).

(** [db.insert(posts).values({...}).returning()] *)
Definition insert_post (values : fields_t) (now : Z) : M post :=
  (title <- not_null_text "posts.title" (get "title" values) ;;
   slug <- not_null_text "posts.slug" (get "slug" values) ;;
   content <- not_null_text "posts.content" (get "content" values) ;;
   contentType <- text_with_default "posts.content_type" "markdown" (get "contentType" values) ;;
   st <- text_with_default "posts.status" "draft" (get "status" values) ;;
   fun d =>
     match get "authorId" values with
     | VNum (Int author) =>
         if existsb (fun p => String.eqb (post_slug p) slug) (posts d) then
           (Throw (SQLiteError (UniqueConstraintFailed "posts.slug")), d)
         else if (foreign_keys P && negb (user_exists d author))%bool then
           (Throw (SQLiteError ForeignKeyConstraintFailed), d)
         else
           let id := next_id (seq_posts d) (map post_id (posts d)) in
           let p := {| post_id := id; post_title := title; post_slug := slug;
                       post_content := content; post_contentType := contentType;
                       post_excerpt := nullable_text (get "excerpt" values);
                       post_status := st;
                       post_featuredImage := nullable_text (get "featuredImage" values);
                       post_authorId := author;
                       post_createdAt := now; post_updatedAt := now |} in
           (Ok p, with_posts d (posts d ++ [p]) id)
     | _ => (Throw (SQLiteError (NotNullConstraintFailed "posts.author_id")), d)
     end)%handler.

(** [db.update(posts).set(changes).where(eq(posts.id, n)).returning()] *)
Definition update_post (changes : fields_t) (n : jsnum) : M unit :=
  fun d =>
    let hit p := eq_num (post_id p) n in
    match map_rows (fun p => if hit p then set_post changes p else Some p) (posts d) with
    | None => (Throw (SQLiteError DatatypeMismatch), d)
    | Some rows =>
        let clash p' :=
          existsb (fun q => negb (post_id q =? post_id p') &&
                            String.eqb (post_slug q) (post_slug p'))%bool rows in
        if existsb (fun p => hit p &&
                      match set_post changes p with
                      | Some p' => clash p'
                      | None => false
                      end)%bool (posts d) then
          (Throw (SQLiteError (UniqueConstraintFailed "posts.slug")), d)
        else if (foreign_keys P &&
                 existsb (fun p => hit p &&
                            match set_post changes p with
                            | Some p' => negb (user_exists d (post_authorId p'))
                            | None => false
                            end) (posts d))%bool then
          (Throw (SQLiteError ForeignKeyConstraintFailed), d)
        else (Ok tt, with_posts d rows (seq_posts d))
    end.

(** [db.delete(posts).where(eq(posts.id, n))] *)
Definition delete_post (n : jsnum) : M unit :=
  fun d =>
    let hit p := eq_num (post_id p) n in
    if (foreign_keys P &&
        existsb (fun pc => eq_num (pc_postId pc) n) (postCategories d) &&
        existsb hit (posts d))%bool then
      (Throw (SQLiteError ForeignKeyConstraintFailed), d)
    else
      (Ok tt, with_posts d (filter (fun p => negb (hit p)) (posts d)) (seq_posts d)).

(** [db.delete(postCategories).where(eq(postCategories.postId, n))] *)
Definition delete_postCategories_of (n : jsnum) : M unit :=
  fun d =>
    (Ok tt,
     with_postCategories d
       (filter (fun pc => negb (eq_num (pc_postId pc) n)) (postCategories d))).

(** One row of a multi-row insert against the rows already there and
    the rows of the statement before it. *)
Fixpoint pk_clash (present rows : list postCategory) : bool :=
  match rows with
  | [] => false
  | r :: rest => (existsb (pc_eqb r) present || pk_clash (r :: present) rest)%bool
  end.

(** [db.insert(postCategories).values(rows)]: one statement. *)
Definition insert_postCategories (rows : list postCategory) : M unit :=
  fun d =>
    if pk_clash (postCategories d) rows then
      (Throw (SQLiteError (UniqueConstraintFailed "post_categories")), d)
    else if (foreign_keys P &&
             negb (forallb (fun r => post_exists d (pc_postId r) &&
                                     category_exists d (pc_categoryId r)) rows))%bool then
      (Throw (SQLiteError ForeignKeyConstraintFailed), d)
    else (Ok tt, with_postCategories d (postCategories d ++ rows)).

End Statements.

(* ------------------------------------------------------------------ *)
(** ** Requests *)

(** What a controller reads from the request and from its surroundings:
    the identity that [authMiddleware] stored, the [:id] route parameter,
    the body ([None] when it is not JSON), the URL search parameters in
    order, the clock and the salt that bcrypt draws. *)
Record request : Type := {
  req_user : option AuthUser;
  req_id : option string;
  req_body : option value;
  req_query : list (string * string);
  req_now : Z;
  req_salt : string
}.

(** [!id] for the route parameter. *)
Definition id_missing (id : option string) : bool :=
  match id with
  | Some s => is_empty s
  | None => true
  end.

Definition id_text (id : option string) : string :=
  match id with
  | Some s => s
  | None => EmptyString
  end.

Definition expect_string (v : value) : M string :=
  match v with
  | VStr s => ret s
  | _ => throw TypeError
  end.

(** [validateSlug(data.slug)] for a field that the schema has accepted. *)
Definition validateSlug_of (v : value) : bool :=
  match v with
  | VStr s => validateSlug s
  | _ => false
  end.

(** [a !== b] between a parsed field and a column. *)
Definition differs_from (v : value) (column : string) : bool :=
  match v with
  | VStr s => negb (String.eqb s column)
  | _ => true
  end.

(** [categoryIds.length > 0] *)
Definition length_positive (v : value) : bool :=
  match v with
  | VArr items => negb (Nat.eqb (List.length items) 0)
  | VStr s => negb (is_empty s)
  | _ => false
  end.

(** [inArray(categories.id, categoryIds)] *)
Definition in_array (column : Z) (items : list value) : bool :=
  existsb (fun x => match x with VNum n => eq_num column n | _ => false end) items.

(** [categoryIds.map(categoryId => ({ postId, categoryId }))] as rows of
    the association table. *)
Fixpoint rows_for (postId : Z) (items : list value) : option (list postCategory) :=
  match items with
  | [] => Some []
  | VNum (Int c) :: rest =>
      obind (rows_for postId rest) (fun rows =>
      Some ({| pc_postId := postId; pc_categoryId := c |} :: rows))
  | _ :: _ => None
  end.

Definition association_rows (postId : jsnum) (items : list value) : option (list postCategory) :=
  match postId with
  | Int z => rows_for z items
  | _ => None
  end.

(** try / catch inside a controller. *)
Definition catching {A : Type} (body : M A) (handler : exn -> M A) : M A :=
  fun d =>
    match body d with
    | (Throw e, d') => handler e d'
    | other => other
    end.

Definition is_unique_failure (e : exn) : bool :=
  match e with
  | SQLiteError (UniqueConstraintFailed _) => true
  | _ => false
  end.

(** The catch blocks. *)
Definition catch_logged (e : exn) : response :=
  match isZodError e with
  | Some issues => validation_error issues
  | None => failure 500 "Internal server error"
  end.

Definition catch_reported (e : exn) : response :=
  match isZodError e with
  | Some issues => validation_error issues
  | None => createAPIResponse 500 false "Internal server error" VUndef
              (Some [ExnMessage e])
  end.

Definition catch_plain_logged (e : exn) : response :=
  failure 500 "Internal server error".

Definition catch_plain_reported (e : exn) : response :=
  createAPIResponse 500 false "Internal server error" VUndef (Some [ExnMessage e]).

(* ------------------------------------------------------------------ *)
(** ** controllers/authController.ts and controllers/userController.ts *)

Section AccountControllers.

Context (P : Platform) (E : Env).

Local Open Scope handler_scope.

Definition register (req : request) : db -> response * db :=
  try_catch
    (body <- request_json (req_body req) ;;
     validated <- parse P insertUserSchema body ;;
     pw <- expect_string (prop "password" validated) ;;
     name <- expect_string (prop "username" validated) ;;
     mail <- expect_string (prop "email" validated) ;;
     let hashedPassword := hashPassword P (req_salt req) pw in
     catching
       (u <- insert_user name mail hashedPassword
               (if truthy (prop "role" validated) then prop "role" validated
                else VStr "editor")
               (req_now req) ;;
        let userWithoutPassword := omit "password" (user_row u) in
        ret (createAPIResponse 201 true "User registered successfully"
               (VObj userWithoutPassword) None))
       (fun e =>
          if is_unique_failure e then
            ret (createAPIResponse 409 false "Username or email already exists"
                   VUndef (Some [ExnMessage e]))
          else throw e))
    catch_logged.

Definition login (req : request) : db -> response * db :=
  try_catch
    (body <- request_json (req_body req) ;;
     creds <- parse P loginSchema body ;;
     name <- expect_string (prop "username" creds) ;;
     pw <- expect_string (prop "password" creds) ;;
     found <- query (fun d => find_user_by_username d name) ;;
     match found with
     | None => respond (failure 401 "Invalid username or password")
     | Some u =>
         if negb (verifyPassword P pw (user_password u)) then
           respond (failure 401 "Invalid username or password")
         else
           let payload := {| userId := user_id u; username := user_username u;
                             email := user_email u; role := user_role u |} in
           let token := generateToken P E (req_now req) payload in
           let userWithoutPassword := omit "password" (user_row u) in
           ret (createAPIResponse 200 true "Login successful"
                  (VObj [ ("user", VObj userWithoutPassword);
                          ("token", VStr token) ]) None)
     end)
    catch_logged.

Definition changePassword (req : request) : db -> response * db :=
  try_catch
    (match req_user req with
     | None => respond (failure 401 "Authentication required")
     | Some caller =>
         body <- request_json (req_body req) ;;
         parsed <- parse P changePasswordSchema body ;;
         currentPassword <- expect_string (prop "currentPassword" parsed) ;;
         newPassword <- expect_string (prop "newPassword" parsed) ;;
         found <- query (fun d => find_user_by_id d (auth_id caller)) ;;
         match found with
         | None => respond (failure 401 "Current password is incorrect")
         | Some u =>
             if negb (verifyPassword P currentPassword (user_password u)) then
               respond (failure 401 "Current password is incorrect")
             else
               let hashedNewPassword := hashPassword P (req_salt req) newPassword in
               update_user_password (auth_id caller) hashedNewPassword (req_now req) ;;;
               ret (createAPIResponse 200 true "Password changed successfully" VUndef None)
         end
     end)
    catch_reported.

Definition getProfile (req : request) : db -> response * db :=
  try_catch
    (match req_user req with
     | None => respond (failure 401 "Authentication required")
     | Some caller =>
         found <- query (fun d => find_user_by_id d (auth_id caller)) ;;
         match found with
         | None => respond (failure 404 "User not found")
         | Some u =>
             ret (createAPIResponse 200 true "Profile retrieved successfully"
                    (VObj [ ("id", VNum (Int (user_id u)));
                            ("username", VStr (user_username u));
                            ("email", VStr (user_email u));
                            ("role", VStr (user_role u));
                            ("createdAt", VDate (user_createdAt u));
                            ("updatedAt", VDate (user_updatedAt u)) ]) None)
         end
     end)
    catch_plain_reported.

End AccountControllers.

(* ------------------------------------------------------------------ *)
(** ** controllers/postController.ts *)

(** The [author] object of a select with [leftJoin(users, ...)]. *)
Definition author_of (d : db) (authorId : Z) (with_email : bool) : value :=
  match find_user_by_id d authorId with
  | Some u =>
      VObj ([ ("id", VNum (Int (user_id u)));
              ("username", VStr (user_username u)) ]
            ++ if with_email then [ ("email", VStr (user_email u)) ] else [])
  | None => VNull
  end.

(** The post as [createPost], [getPost] and [updatePost] select it. *)
Definition post_detail (d : db) (p : post) : fields_t :=
  [ ("id", VNum (Int (post_id p)));
    ("title", VStr (post_title p));
    ("slug", VStr (post_slug p));
    ("content", VStr (post_content p));
    ("contentType", VStr (post_contentType p));
    ("excerpt", opt_str (post_excerpt p));
    ("status", VStr (post_status p));
    ("featuredImage", opt_str (post_featuredImage p));
    ("author", author_of d (post_authorId p) true);
    ("createdAt", VDate (post_createdAt p));
    ("updatedAt", VDate (post_updatedAt p)) ].

(** The post as [getPosts] selects it. *)
Definition post_summary (d : db) (p : post) : value :=
  VObj [ ("id", VNum (Int (post_id p)));
         ("title", VStr (post_title p));
         ("slug", VStr (post_slug p));
         ("excerpt", opt_str (post_excerpt p));
         ("status", VStr (post_status p));
         ("featuredImage", opt_str (post_featuredImage p));
         ("author", author_of d (post_authorId p) false);
         ("createdAt", VDate (post_createdAt p));
         ("updatedAt", VDate (post_updatedAt p)) ].

(** The categories of a post, from [postCategories] left-joined with
    [categories]. *)
Definition categories_of_post (d : db) (n : jsnum) : list value :=
  map (fun pc =>
         match find_category_by_id d (Int (pc_categoryId pc)) with
         | Some c => VObj [ ("id", VNum (Int (category_id c)));
                            ("name", VStr (category_name c));
                            ("slug", VStr (category_slug c)) ]
         | None => VObj [ ("id", VNull); ("name", VNull); ("slug", VNull) ]
         end)
      (filter (fun pc => eq_num (pc_postId pc) n) (postCategories d)).

(** [{ ...postWithAuthor, categories: postCategoriesList }] *)
Definition postWithCategories (d : db) (n : jsnum) : value :=
  let postWithAuthor :=
    match find_post_by_id d n with
    | Some p => post_detail d p
    | None => []
    end in
  VObj (set "categories" (VArr (categories_of_post d n)) postWithAuthor).

(** Stable insertion sort, standing for [ORDER BY]. *)
Fixpoint insert_sorted {A : Type} (leb : A -> A -> bool) (x : A) (l : list A) : list A :=
  match l with
  | [] => [x]
  | y :: l' => if leb x y then x :: l else y :: insert_sorted leb x l'
  end.

Fixpoint order_by {A : Type} (leb : A -> A -> bool) (l : list A) : list A :=
  match l with
  | [] => []
  | x :: l' => insert_sorted leb x (order_by leb l')
  end.

(** [Math.ceil(a / b)] on exact quotients. *)
Definition ceil_div (a b : Z) : Z := Qceiling (inject_Z a / inject_Z b).

Definition int_of (v : value) : Z :=
  match v with
  | VNum (Int z) => z
  | _ => 0
  end.

Definition string_of (v : value) : string :=
  match v with
  | VStr s => s
  | _ => EmptyString
  end.

(** [Object.fromEntries(url.searchParams)]: a later entry with the same
    name replaces the earlier one. *)
Definition fromEntries (entries : list (string * string)) : fields_t :=
  fold_left (fun o kv => set (fst kv) (VStr (snd kv)) o) entries [].

(** [and(...conditions)] and the [where] clause, [None] standing for
    [undefined] (no clause). *)
Definition and_all (conditions : list (post -> bool)) : post -> bool :=
  fun p => forallb (fun c => c p) conditions.

Definition and_where (w : option (post -> bool)) (c : post -> bool) : option (post -> bool) :=
  match w with
  | Some f => Some (fun p => (f p && c p)%bool)
  | None => Some c
  end.

Definition rows_where (w : option (post -> bool)) (rows : list post) : list post :=
  match w with
  | Some f => filter f rows
  | None => rows
  end.

(** [or(like(posts.title, `%${keyword}%`), like(posts.content, `%${keyword}%`))] *)
Definition keyword_condition (keyword : string) (p : post) : bool :=
  (like (post_title p) ("%" ++ keyword ++ "%") ||
   like (post_content p) ("%" ++ keyword ++ "%"))%bool.

(** The condition that [getPosts] pushes for [query.search], if any. *)
Definition search_condition (search : value) : option (post -> bool) :=
  if truthy search then
    let keywords := keywords_of (string_of search) in
    if Nat.ltb 0 (List.length keywords) then
      Some (fun p => existsb (fun k => keyword_condition k p) keywords)
    else None
  else None.

Definition option_list {A : Type} (o : option A) : list A :=
  match o with
  | Some a => [a]
  | None => []
  end.

(** The [where] clause that [getPosts] builds from the parsed query. *)
Definition posts_where (d : db) (q : value) : option (post -> bool) :=
  let conditions :=
    ((if truthy (prop "status" q)
      then [fun p => String.eqb (post_status p) (string_of (prop "status" q))]
      else []) ++
     (if truthy (prop "author" q)
      then [fun p => post_authorId p =? int_of (prop "author" q)]
      else []) ++
     option_list (search_condition (prop "search" q)))%list in
  let whereClause :=
    if Nat.ltb 0 (List.length conditions) then Some (and_all conditions) else None in
  if truthy (prop "category" q) then
    let categoryPosts :=
      filter (fun pc => pc_categoryId pc =? int_of (prop "category" q)) (postCategories d) in
    let postIds := map pc_postId categoryPosts in
    if Nat.ltb 0 (List.length postIds) then
      and_where whereClause (fun p => existsb (Z.eqb (post_id p)) postIds)
    else
      and_where whereClause (fun p => post_id p =? -1)
  else whereClause.

(** [asc(column)] for the column that [sortBy] names; [desc] swaps the
    arguments. Text compares by code unit, as the BINARY collation does. *)
Definition column_leb (sortBy : string) (a b : post) : bool :=
  if String.eqb sortBy "created_at" then post_createdAt a <=? post_createdAt b
  else if String.eqb sortBy "updated_at" then post_updatedAt a <=? post_updatedAt b
  else String.leb (post_title a) (post_title b).

Definition order_leb (sortBy sortOrder : string) (a b : post) : bool :=
  if String.eqb sortOrder "desc" then column_leb sortBy b a else column_leb sortBy a b.

Section PostControllers.

Context (P : Platform).

Local Open Scope handler_scope.

(** [params.page ? Number(params.page) : undefined] *)
Definition number_or_undefined (v : value) : value :=
  if truthy v then VNum (js_Number P v) else VUndef.

(** The object that [getPosts] hands to [postsQuerySchema.parse]. *)
Definition posts_query_input (entries : list (string * string)) : value :=
  let params := fromEntries entries in
  VObj (set "author" (number_or_undefined (get "author" params))
       (set "category" (number_or_undefined (get "category" params))
       (set "limit" (number_or_undefined (get "limit" params))
       (set "page" (number_or_undefined (get "page" params)) params)))).

Definition getPosts (req : request) : db -> response * db :=
  try_catch
    (q <- parse P postsQuerySchema (posts_query_input (req_query req)) ;;
     let pg := int_of (prop "page" q) in
     let lim := int_of (prop "limit" q) in
     let offset := (pg - 1) * lim in
     d <- query (fun d => d) ;;
     let whereClause := posts_where d q in
     let orderBy := order_leb (string_of (prop "sortBy" q)) (string_of (prop "sortOrder" q)) in
     let postsList :=
       firstn (Z.to_nat lim)
         (skipn (Z.to_nat offset) (order_by orderBy (rows_where whereClause (posts d)))) in
     let totalCount := Z.of_nat (List.length (rows_where whereClause (posts d))) in
     let pages := ceil_div totalCount lim in
     ret (createPaginatedResponse (map (post_summary d) postsList)
            {| page := pg; limit := lim; total := totalCount; totalPages := pages |}))
    catch_reported.

Definition getPost (req : request) : db -> response * db :=
  try_catch
    (if id_missing (req_id req) then respond (failure 400 "Post ID is required")
     else
       let n := js_parseInt P (id_text (req_id req)) in
       found <- query (fun d => find_post_by_id d n) ;;
       match found with
       | None => respond (failure 404 "Post not found")
       | Some p =>
           view <- query (fun d =>
                    VObj (set "categories" (VArr (categories_of_post d (Int (post_id p))))
                            (post_detail d p))) ;;
           ret (createAPIResponse 200 true "Post retrieved successfully" view None)
       end)
    catch_reported.

Definition createPost (req : request) : db -> response * db :=
  try_catch
    (match req_user req with
     | None => respond (failure 401 "Authentication required")
     | Some caller =>
         body <- request_json (req_body req) ;;
         data <- parse P insertPostSchema body ;;
         when (negb (validateSlug_of (prop "slug" data)))
           (respond (createAPIResponse 400 false "Invalid slug format" VUndef
              (Some [Text "Slug must contain only lowercase letters, numbers, and hyphens"]))) ;;;
         existingPost <- query (fun d => find_post_by_slug d (string_of (prop "slug" data))) ;;
         when (match existingPost with Some _ => true | None => false end)
           (respond (failure 409 "Post slug already exists")) ;;;
         let categoryIds :=
           if truthy (prop "categoryIds" body) then prop "categoryIds" body else VArr [] in
         items <- (if length_positive categoryIds then
                     match categoryIds with
                     | VArr items =>
                         validCategories <- query (fun d =>
                           filter (fun c => in_array (category_id c) items) (categories d)) ;;
                         if negb (Nat.eqb (List.length validCategories) (List.length items))
                         then respond (failure 404 "One or more categories not found")
                         else ret items
                     | _ => throw TypeError
                     end
                   else ret []) ;;
         p <- insert_post P
                [ ("title", prop "title" data);
                  ("slug", prop "slug" data);
                  ("content", prop "content" data);
                  ("contentType", prop "contentType" data);
                  ("excerpt", prop "excerpt" data);
                  ("status", prop "status" data);
                  ("featuredImage", prop "featuredImage" data);
                  ("authorId", VNum (Int (auth_id caller))) ]
                (req_now req) ;;
         when (length_positive categoryIds)
           (match association_rows (Int (post_id p)) items with
            | Some rows => insert_postCategories P rows
            | None => throw (SQLiteError DatatypeMismatch)
            end) ;;;
         view <- query (fun d => postWithCategories d (Int (post_id p))) ;;
         ret (createAPIResponse 201 true "Post created successfully" view None)
     end)
    catch_reported.

Definition updatePost (req : request) : db -> response * db :=
  try_catch
    (match req_user req with
     | None => respond (failure 401 "Authentication required")
     | Some caller =>
         if id_missing (req_id req) then respond (failure 400 "Post ID is required")
         else
           let n := js_parseInt P (id_text (req_id req)) in
           body <- request_json (req_body req) ;;
           data <- parse P postUpdateSchema body ;;
           when (truthy (prop "slug" data) && negb (validateSlug_of (prop "slug" data)))
             (respond (createAPIResponse 400 false "Invalid slug format" VUndef
                (Some [Text "Slug must contain only lowercase letters, numbers, and hyphens"]))) ;;;
           existingPost <- query (fun d => find_post_by_id d n) ;;
           match existingPost with
           | None => respond (failure 404 "Post not found")
           | Some existing =>
               if (negb (post_authorId existing =? auth_id caller) &&
                   negb (String.eqb (auth_role caller) "admin"))%bool
               then respond (failure 403 "You can only edit your own posts")
               else
                 when (truthy (prop "slug" data) &&
                       differs_from (prop "slug" data) (post_slug existing))
                   (existingWithSlug <- query (fun d =>
                      find_post_by_slug d (string_of (prop "slug" data))) ;;
                    when (match existingWithSlug with Some _ => true | None => false end)
                      (respond (failure 409 "Post slug already exists"))) ;;;
                 update_post P
                   (set "updatedAt" (VDate (req_now req))
                      (match data with VObj fields => fields | _ => [] end)) n ;;;
                 let categoryIds := prop "categoryIds" body in
                 when (truthy categoryIds)
                   (delete_postCategories_of n ;;;
                    when (length_positive categoryIds)
                      (match categoryIds with
                       | VArr items =>
                           match association_rows n items with
                           | Some rows => insert_postCategories P rows
                           | None => throw (SQLiteError DatatypeMismatch)
                           end
                       | _ => throw TypeError
                       end)) ;;;
                 view <- query (fun d => postWithCategories d n) ;;
                 ret (createAPIResponse 200 true "Post updated successfully" view None)
           end
     end)
    catch_reported.

Definition deletePost (req : request) : db -> response * db :=
  try_catch
    (match req_user req with
     | None => respond (failure 401 "Authentication required")
     | Some caller =>
         if id_missing (req_id req) then respond (failure 400 "Post ID is required")
         else
           let n := js_parseInt P (id_text (req_id req)) in
           existingPost <- query (fun d => find_post_by_id d n) ;;
           match existingPost with
           | None => respond (failure 404 "Post not found")
           | Some existing =>
               if (negb (post_authorId existing =? auth_id caller) &&
                   negb (String.eqb (auth_role caller) "admin"))%bool
               then respond (failure 403 "You can only delete your own posts")
               else
                 delete_postCategories_of n ;;;
                 delete_post P n ;;;
                 ret (createAPIResponse 200 true "Post deleted successfully" VUndef None)
           end
     end)
    catch_plain_reported.

End PostControllers.

(* ------------------------------------------------------------------ *)
(** ** controllers/categoryController.ts *)

Section CategoryControllers.

Context (P : Platform).

Local Open Scope handler_scope.

Definition is_admin (u : option AuthUser) : bool :=
  match u with
  | Some caller => String.eqb (auth_role caller) "admin"
  | None => false
  end.

Definition createCategory (req : request) : db -> response * db :=
  try_catch
    (if negb (is_admin (req_user req)) then respond (failure 403 "Admin access required")
     else
       body <- request_json (req_body req) ;;
       data <- parse P insertCategorySchema body ;;
       when (negb (validateSlug_of (prop "slug" data)))
         (respond (createAPIResponse 400 false "Invalid slug format" VUndef
            (Some [Text "Slug must contain only lowercase letters, numbers, and hyphens"]))) ;;;
       existingCategory <- query (fun d =>
         find_category_by_slug d (string_of (prop "slug" data))) ;;
       when (match existingCategory with Some _ => true | None => false end)
         (respond (failure 409 "Category slug already exists")) ;;;
       c <- insert_category (prop "name" data) (prop "slug" data)
              (prop "description" data) (req_now req) ;;
       ret (createAPIResponse 201 true "Category created successfully"
              (VObj (category_row c)) None))
    catch_logged.

Definition updateCategory (req : request) : db -> response * db :=
  try_catch
    (if negb (is_admin (req_user req)) then respond (failure 403 "Admin access required")
     else if id_missing (req_id req) then respond (failure 400 "Category ID is required")
     else
       let n := js_parseInt P (id_text (req_id req)) in
       body <- request_json (req_body req) ;;
       data <- parse P categoryUpdateSchema body ;;
       when (truthy (prop "slug" data) && negb (validateSlug_of (prop "slug" data)))
         (respond (createAPIResponse 400 false "Invalid slug format" VUndef
            (Some [Text "Slug must contain only lowercase letters, numbers, and hyphens"]))) ;;;
       existingCategory <- query (fun d => find_category_by_id d n) ;;
       match existingCategory with
       | None => respond (failure 404 "Category not found")
       | Some existing =>
           when (truthy (prop "slug" data) &&
                 differs_from (prop "slug" data) (category_slug existing))
             (existingWithSlug <- query (fun d =>
                find_category_by_slug d (string_of (prop "slug" data))) ;;
              when (match existingWithSlug with Some _ => true | None => false end)
                (respond (failure 409 "Category slug already exists"))) ;;;
           updated <- update_category
                        (set "updatedAt" (VDate (req_now req))
                           (match data with VObj fields => fields | _ => [] end)) n ;;
           ret (createAPIResponse 200 true "Category updated successfully"
                  (match updated with
                   | c :: _ => VObj (category_row c)
                   | [] => VUndef
                   end) None)
       end)
    catch_logged.

Definition deleteCategory (req : request) : db -> response * db :=
  try_catch
    (if negb (is_admin (req_user req)) then respond (failure 403 "Admin access required")
     else if id_missing (req_id req) then respond (failure 400 "Category ID is required")
     else
       let n := js_parseInt P (id_text (req_id req)) in
       existingCategory <- query (fun d => find_category_by_id d n) ;;
       match existingCategory with
       | None => respond (failure 404 "Category not found")
       | Some existing =>
           count <- query (fun d =>
             Z.of_nat (List.length
               (filter (fun pc => eq_num (pc_categoryId pc) n) (postCategories d)))) ;;
           if 0 <? count then
             respond (failure 400 "Cannot delete category with associated posts")
           else
             delete_category P n ;;;
             ret (createAPIResponse 200 true "Category deleted successfully" VUndef None)
       end)
    catch_plain_logged.

End CategoryControllers.

(* ------------------------------------------------------------------ *)
(** ** routes/index.ts: the operations of the API that reach a controller *)

Inductive operation : Type :=
| POST_auth_register
| POST_auth_login
| GET_profile
| POST_profile_change_password
| GET_posts
| GET_posts_id
| POST_posts
| PATCH_posts_id
| DELETE_posts_id
| POST_categories
| PATCH_categories_id
| DELETE_categories_id.

Definition controller (P : Platform) (E : Env) (op : operation)
  : request -> db -> response * db :=
  match op with
  | POST_auth_register => register P
  | POST_auth_login => login P E
  | GET_profile => getProfile
  | POST_profile_change_password => changePassword P
  | GET_posts => getPosts P
  | GET_posts_id => getPost P
  | POST_posts => createPost P
  | PATCH_posts_id => updatePost P
  | DELETE_posts_id => deletePost P
  | POST_categories => createCategory P
  | PATCH_categories_id => updateCategory P
  | DELETE_categories_id => deleteCategory P
  end.

(** Every row of the association table names a post that exists. *)
Definition associations_have_posts (d : db) : Prop :=
  forall pc, In pc (postCategories d) -> exists p, In p (posts d) /\ post_id p = pc_postId pc.

(** The caller may change the post: its author or an admin. *)
Definition owner_or_admin (caller : AuthUser) (p : post) : bool :=
  (Z.eqb (post_authorId p) (auth_id caller) || String.eqb (auth_role caller) "admin")%bool.

(* ------------------------------------------------------------------ *)
(** ** The token library as the token helpers rely on it *)

(** What [jwt.verify] decodes from a token that [jwt.sign] issued at
    [iat] with a lifetime: the payload with the two time claims added. *)
Definition decoded_payload (payload : value) (iat lifetime : Z) : value :=
  match payload with
  | VObj fields =>
      VObj (fields ++ [ ("iat", VNum (Int iat)); ("exp", VNum (Int (iat + lifetime))) ])
  | other => other
  end.

(** The identity claims of a decoded payload, as [authMiddleware] reads
    them. *)
Definition claims_of (decoded : value) : option JWTPayload :=
  match prop "userId" decoded, prop "username" decoded,
        prop "email" decoded, prop "role" decoded with
  | VNum (Int id), VStr name, VStr mail, VStr rl =>
      Some {| userId := id; username := name; email := mail; role := rl |}
  | _, _, _, _ => None
  end.

(** The behaviour of jsonwebtoken that the round trip rests on: a token
    verifies under the secret it was signed with until it expires, and is
    refused as expired from then on. *)
Record jwt_contract (P : Platform) : Prop := {
  verify_signed :
    forall (p : JWTPayload) (secret expiresIn : string) (iat now : Z),
      iat <= now < iat + jwt_lifetime P expiresIn ->
      jwt_verify P (jwt_sign P (payload_object p) secret expiresIn iat) secret now
      = JwtDecoded (decoded_payload (payload_object p) iat (jwt_lifetime P expiresIn));
  verify_expired :
    forall (p : JWTPayload) (secret expiresIn : string) (iat now : Z),
      iat + jwt_lifetime P expiresIn <= now ->
      jwt_verify P (jwt_sign P (payload_object p) secret expiresIn iat) secret now
      = JwtThrows TokenExpiredError
}.

(* ------------------------------------------------------------------ *)
(** ** A small platform on which the handlers run *)

Module Demo.

Fixpoint digits (acc : Z) (s : string) : option Z :=
  match s with
  | EmptyString => Some acc
  | String c s' =>
      if Chars.is_digit c
      then digits (10 * acc + Z.of_N (Chars.code c - 48)) s'
      else None
  end.

Definition parseInt (s : string) : jsnum :=
  match s with
  | EmptyString => NaN
  | _ => match digits 0 s with Some z => Int z | None => NaN end
  end.

Definition Number (v : value) : jsnum :=
  match v with
  | VStr s => match digits 0 s with Some z => Int z | None => NaN end
  | VNum n => n
  | _ => NaN
  end.

Definition has_at (s : string) : bool :=
  exists_char (fun c => Ascii.eqb c "@"%char) s.

Definition hash (password : string) (rounds : nat) (salt : string) : string :=
  salt ++ "$" ++ password.

Fixpoint ends_with (suffix s : string) : bool :=
  (String.eqb suffix s ||
   match s with
   | EmptyString => false
   | String _ s' => ends_with suffix s'
   end)%bool.

Definition compare (password hashed : string) : bool :=
  ends_with ("$" ++ password) hashed.

(** A token format that is easy to read back: every text is written
    with a mark before each character and a stop after the last, every
    number in binary digits behind its sign. *)
Fixpoint write_text (s rest : string) : string :=
  match s with
  | EmptyString => String "."%char rest
  | String c s' => String ":"%char (String c (write_text s' rest))
  end.

Fixpoint read_text (t : string) : option (string * string) :=
  match t with
  | String "."%char rest => Some (EmptyString, rest)
  | String ":"%char (String c t') =>
      match read_text t' with
      | Some (s, rest) => Some (String c s, rest)
      | None => None
      end
  | _ => None
  end.

Fixpoint write_pos (p : positive) (rest : string) : string :=
  match p with
  | xI q => String "1"%char (write_pos q rest)
  | xO q => String "0"%char (write_pos q rest)
  | xH => String "!"%char rest
  end.

Fixpoint read_pos (t : string) : option (positive * string) :=
  match t with
  | String "!"%char rest => Some (xH, rest)
  | String "1"%char t' =>
      match read_pos t' with Some (q, rest) => Some (xI q, rest) | None => None end
  | String "0"%char t' =>
      match read_pos t' with Some (q, rest) => Some (xO q, rest) | None => None end
  | _ => None
  end.

Definition write_int (z : Z) (rest : string) : string :=
  match z with
  | Z0 => String "z"%char rest
  | Zpos p => String "+"%char (write_pos p rest)
  | Zneg p => String "-"%char (write_pos p rest)
  end.

Definition read_int (t : string) : option (Z * string) :=
  match t with
  | String "z"%char rest => Some (0, rest)
  | String "+"%char t' =>
      match read_pos t' with Some (p, rest) => Some (Zpos p, rest) | None => None end
  | String "-"%char t' =>
      match read_pos t' with Some (p, rest) => Some (Zneg p, rest) | None => None end
  | _ => None
  end.

Definition lifetime (expiresIn : string) : Z :=
  if String.eqb expiresIn "7d" then 604800 else 3600.

Definition sign (payload : value) (secret expiresIn : string) (iat : Z) : string :=
  match claims_of payload with
  | Some p =>
      write_text secret
        (write_int (userId p)
           (write_text (username p)
              (write_text (email p)
                 (write_text (role p)
                    (write_int iat
                       (write_int (iat + lifetime expiresIn) EmptyString))))))
  | None => EmptyString
  end.

Definition verify (token secret : string) (now : Z) : jwt_result :=
  match read_text token with
  | Some (key, t1) =>
      match read_int t1 with
      | Some (id, t2) =>
      match read_text t2 with
      | Some (name, t3) =>
      match read_text t3 with
      | Some (mail, t4) =>
      match read_text t4 with
      | Some (rl, t5) =>
      match read_int t5 with
      | Some (iat, t6) =>
      match read_int t6 with
      | Some (exp, EmptyString) =>
          if negb (String.eqb key secret) then JwtThrows JsonWebTokenError
          else if exp <=? now then JwtThrows TokenExpiredError
          else JwtDecoded
                 (VObj [ ("userId", VNum (Int id)); ("username", VStr name);
                         ("email", VStr mail); ("role", VStr rl);
                         ("iat", VNum (Int iat)); ("exp", VNum (Int exp)) ])
      | _ => JwtThrows JsonWebTokenError
      end
      | None => JwtThrows JsonWebTokenError
      end
      | None => JwtThrows JsonWebTokenError
      end
      | None => JwtThrows JsonWebTokenError
      end
      | None => JwtThrows JsonWebTokenError
      end
      | None => JwtThrows JsonWebTokenError
      end
  | None => JwtThrows JsonWebTokenError
  end.

Definition platform (v4 fk : bool) : Platform :=
  {| zod_email := has_at;
     zod_url := String.prefix "http";
     zod4 := v4;
     js_Number := Number;
     js_parseInt := parseInt;
     bcrypt_hash := hash;
     bcrypt_compare := compare;
     jwt_sign := sign;
     jwt_verify := verify;
     jwt_lifetime := lifetime;
     foreign_keys := fk |}.

Definition env : Env := {| env_JWT_SECRET := None; env_JWT_EXPIRES_IN := None |}.

Definition alice : AuthUser :=
  {| auth_id := 1; auth_username := "alice"; auth_email := "alice@example.com";
     auth_role := "editor" |}.

Definition bob : AuthUser :=
  {| auth_id := 2; auth_username := "bob"; auth_email := "bob@example.com";
     auth_role := "editor" |}.

Definition root : AuthUser :=
  {| auth_id := 3; auth_username := "root"; auth_email := "root@example.com";
     auth_role := "admin" |}.

Definition anonymous (now : Z) : request :=
  {| req_user := None; req_id := None; req_body := None; req_query := [];
     req_now := now; req_salt := "salt" |}.

Definition with_body (r : request) (b : value) : request :=
  {| req_user := req_user r; req_id := req_id r; req_body := Some b;
     req_query := req_query r; req_now := req_now r; req_salt := req_salt r |}.

Definition as_user (r : request) (u : AuthUser) : request :=
  {| req_user := Some u; req_id := req_id r; req_body := req_body r;
     req_query := req_query r; req_now := req_now r; req_salt := req_salt r |}.

Definition at_id (r : request) (id : string) : request :=
  {| req_user := req_user r; req_id := Some id; req_body := req_body r;
     req_query := req_query r; req_now := req_now r; req_salt := req_salt r |}.

Definition with_query (r : request) (q : list (string * string)) : request :=
  {| req_user := req_user r; req_id := req_id r; req_body := req_body r;
     req_query := q; req_now := req_now r; req_salt := req_salt r |}.

Definition registration (name mail rl : string) : value :=
  VObj [ ("username", VStr name); ("email", VStr mail);
         ("password", VStr "pw123456"); ("role", VStr rl) ].

Definition draft (title slug content : string) : value :=
  VObj [ ("title", VStr title); ("slug", VStr slug); ("content", VStr content) ].

(** Run a list of operations from a database, keeping the responses. *)
Fixpoint run (P : Platform) (steps : list (operation * request)) (d : db)
  : list response * db :=
  match steps with
  | [] => ([], d)
  | (op, r) :: rest =>
      let (resp, d') := controller P env op r d in
      let (resps, d'') := run P rest d' in
      (resp :: resps, d'')
  end.

(** Three users, two categories and three posts of alice, the first of
    them in the first category, as the API creates them. *)
Definition seeding : list (operation * request) :=
  [ (POST_auth_register, with_body (anonymous 100) (registration "alice" "alice@example.com" "editor"));
    (POST_auth_register, with_body (anonymous 101) (registration "bob" "bob@example.com" "editor"));
    (POST_auth_register, with_body (anonymous 102) (registration "root" "root@example.com" "admin"));
    (POST_categories, with_body (as_user (anonymous 103) root)
       (VObj [ ("name", VStr "News"); ("slug", VStr "news") ]));
    (POST_categories, with_body (as_user (anonymous 104) root)
       (VObj [ ("name", VStr "Misc"); ("slug", VStr "misc") ]));
    (POST_posts, with_body (as_user (anonymous 110) alice)
       (VObj [ ("title", VStr "First Post"); ("slug", VStr "first-post");
               ("content", VStr "Content 1"); ("status", VStr "published");
               ("categoryIds", VArr [VNum (Int 1)]) ]));
    (POST_posts, with_body (as_user (anonymous 111) alice)
       (draft "Second Post" "second-post" "Content 2"));
    (POST_posts, with_body (as_user (anonymous 112) alice)
       (VObj [ ("title", VStr "Third Post"); ("slug", VStr "third-post");
               ("content", VStr "Content 3 with keyword");
               ("status", VStr "published") ])) ].

Definition seeded : db :=
  Eval vm_compute in snd (run (platform false false) seeding empty_db).

End Demo.

(* ------------------------------------------------------------------ *)
(** ** Vocabulary of the statements *)

(** A parsed text field: absent or a string. *)
Definition text_or_absent (v : value) : Prop := v = VUndef \/ exists s, v = VStr s.

Definition new_text (v : value) (old : string) : string :=
  match v with VStr s => s | _ => old end.

Definition new_nullable_text (v : value) (old : option string) : option string :=
  match v with VStr s => Some s | _ => old end.

Definition fields_of (data : value) : fields_t :=
  match data with VObj fields => fields | _ => [] end.

(** The row that an accepted update body makes of a post at a clock
    reading. *)
Definition updated_post (data : value) (now : Z) (q : post) : post :=
  {| post_id := post_id q;
     post_title := new_text (prop "title" data) (post_title q);
     post_slug := new_text (prop "slug" data) (post_slug q);
     post_content := new_text (prop "content" data) (post_content q);
     post_contentType := new_text (prop "contentType" data) (post_contentType q);
     post_excerpt := new_nullable_text (prop "excerpt" data) (post_excerpt q);
     post_status := new_text (prop "status" data) (post_status q);
     post_featuredImage := new_nullable_text (prop "featuredImage" data) (post_featuredImage q);
     post_authorId := post_authorId q;
     post_createdAt := post_createdAt q;
     post_updatedAt := now |}.

Definition rewritten_posts (data : value) (now pid : Z) (rows : list post) : list post :=
  map (fun q => if post_id q =? pid then updated_post data now q else q) rows.

(** What the UNIQUE index on [posts.slug] and the foreign key of
    [posts.author_id] keep true of a database. *)
Definition unique_slugs (d : db) : Prop :=
  forall a b, In a (posts d) -> In b (posts d) ->
              post_slug a = post_slug b -> post_id a = post_id b.

Definition authors_exist (d : db) : Prop :=
  forall q, In q (posts d) -> user_exists d (post_authorId q) = true.

(** How a handler may leave the posts and their associations: as they
    were; with one more post and perhaps rows that name it; with the rows
    of one post replaced. *)
Definition untouched (d d' : db) : Prop :=
  posts d' = posts d /\ postCategories d' = postCategories d.

Definition created (d d' : db) : Prop :=
  (posts d' = posts d /\ postCategories d' = postCategories d) \/
  exists p, posts d' = (posts d ++ [p])%list /\
    (postCategories d' = postCategories d \/
     exists rows, postCategories d' = (postCategories d ++ rows)%list /\
                  forall r, In r rows -> pc_postId r = post_id p).

Definition reassociated (pid : Z) (d d' : db) : Prop :=
  exists rows,
    postCategories d' =
      (filter (fun pc => negb (pc_postId pc =? pid)) (postCategories d) ++ rows)%list /\
    forall r, In r rows -> pc_postId r = pid.


(** Exact occurrence of [k] in [s]. *)
Fixpoint is_substring (k s : string) : bool :=
  (String.prefix k s ||
   match s with
   | EmptyString => false
   | String _ s' => is_substring k s'
   end)%bool.

(** Equal up to ASCII case. *)
Fixpoint same_nocase (a b : string) : bool :=
  match a, b with
  | EmptyString, EmptyString => true
  | String c a', String d b' => (Chars.eqb_nocase c d && same_nocase a' b')%bool
  | _, _ => false
  end.


(** Whether the search of a listing request lets a post through. *)
Definition passes_search (search : string) (p : post) : bool :=
  match search_condition (VStr search) with
  | Some condition => condition p
  | None => true
  end.


(** A post to try searches on. *)
Definition sample_post : post :=
  {| post_id := 1; post_title := "Hello"; post_slug := "hello"; post_content := "World";
     post_contentType := "markdown"; post_excerpt := None; post_status := "draft";
     post_featuredImage := None; post_authorId := 1; post_createdAt := 0;
     post_updatedAt := 0 |}.

(* ------------------------------------------------------------------ *)
(** ** utils/validation.ts: the patterns of [validateEmail] and [sanitizeHtml] *)

(** The constructs that the two patterns use: a character, a character
    class, one pattern after another, a greedy [*] and a negative
    lookahead [(?!...)]. *)
Inductive regex : Type :=
| Empty
| Lit (c : ascii)
| Class (f : ascii -> bool)
| Then (r1 r2 : regex)
| Many (r : regex)
| NotAhead (r : regex).

(** [r+] *)
Definition Several (r : regex) : regex := Then r (Many r).

(** A literal text followed by a pattern. *)
Fixpoint text (s : string) (r : regex) : regex :=
  match s with
  | EmptyString => r
  | String c s' => Then (Lit c) (text s' r)
  end.

Section Matching.

(** The [i] flag. *)
Variable ignore_case : bool.

Definition same_char (c d : ascii) : bool :=
  if ignore_case then Chars.eqb_nocase c d else Ascii.eqb c d.

(** The backtracking matcher of the language: [matching r s k] tries the
    ways in which [r] matches at the start of [s], in the order of the
    language (a [*] first with one more round, then without), and hands
    the rest of the input to the continuation [k]; the first way that [k]
    accepts is the match. A round of [*] that consumes nothing is refused. *)
Fixpoint matching (r : regex) (A : Type) (s : string) (k : string -> option A)
  {struct r} : option A :=
  match r with
  | Empty => k s
  | Lit c =>
      match s with
      | String d s' => if same_char c d then k s' else None
      | EmptyString => None
      end
  | Class f =>
      match s with
      | String d s' => if f d then k s' else None
      | EmptyString => None
      end
  | Then r1 r2 => matching r1 s (fun s' => matching r2 s' k)
  | Many r' =>
      (fix rounds (fuel : nat) (s : string) : option A :=
         match fuel with
         | O => k s
         | S fuel' =>
             match matching r' s
                     (fun s' => if Nat.ltb (String.length s') (String.length s)
                                then rounds fuel' s' else None) with
             | Some a => Some a
             | None => k s
             end
         end) (String.length s) s
  | NotAhead r' =>
      match matching r' s (fun _ => Some tt) with
      | Some _ => None
      | None => k s
      end
  end.

(** [/^r$/.test(s)] *)
Definition test_whole (r : regex) (s : string) : bool :=
  match matching r s (fun rest => if is_empty rest then Some tt else None) with
  | Some _ => true
  | None => false
  end.

(** The length of the match of [r] at the start of [s], if there is one. *)
Definition match_here (r : regex) (s : string) : option nat :=
  match matching r s (fun rest => Some rest) with
  | Some rest => Some (String.length s - String.length rest)%nat
  | None => None
  end.

(** [s.replace(/r/g, "")]: the matches are looked for from left to
    right, each search starting where the previous match ended; [skip]
    counts the characters of the current match that are still to drop. *)
Fixpoint remove_all (r : regex) (skip : nat) (s : string) : string :=
  match s with
  | EmptyString => EmptyString
  | String c s' =>
      match skip with
      | S n => remove_all r n s'
      | O =>
          match match_here r s with
          | Some (S n) => remove_all r n s'
          | _ => String c (remove_all r O s')
          end
      end
  end.

End Matching.

(** [[^\s@]] *)
Definition not_space_or_at (c : ascii) : bool :=
  negb (Chars.is_space c || Ascii.eqb c "@"%char).

(** [/^[^\s@]+@[^\s@]+\.[^\s@]+$/] between its anchors *)
Definition emailRegex : regex :=
  Then (Several (Class not_space_or_at))
    (Then (Lit "@")
       (Then (Several (Class not_space_or_at))
          (Then (Lit ".") (Several (Class not_space_or_at))))).

Definition validateEmail (email : string) : bool := test_whole false emailRegex email.

(** [[^<]] *)
Definition not_lt (c : ascii) : bool := negb (Ascii.eqb c "<"%char).

(** The pattern of [sanitizeHtml] for one tag: the text [<tag], a run
    of characters other than [<], any number of rounds of a [<] that does
    not start the closing tag followed by a run of characters other than
    [<], and the closing tag [</tag>]. *)
Definition elementRegex (tag : string) : regex :=
  text ("<" ++ tag)
    (Then (Many (Class not_lt))
       (Then (Many (Then (NotAhead (text ("</" ++ tag ++ ">") Empty))
                      (Then (Lit "<") (Many (Class not_lt)))))
          (text ("</" ++ tag ++ ">") Empty))).

Definition scriptRegex : regex := elementRegex "script".
Definition iframeRegex : regex := elementRegex "iframe".

Definition sanitizeHtml (html : string) : string :=
  remove_all true iframeRegex 0 (remove_all true scriptRegex 0 html).

(* ------------------------------------------------------------------ *)
(** ** middleware/auth.ts *)

(** What a middleware leaves behind: a response that ends the request,
    or the identity that it stored in [request.user]. *)
Inductive auth_outcome : Type :=
| Rejected (r : response)
| Attached (user : value).

Section Middleware.

Context (P : Platform) (E : Env).

Definition authMiddleware (authorization : option string) (now : Z) : auth_outcome :=
  match extractTokenFromHeader authorization with
  | None => Rejected (failure 401 "Access token required")
  | Some token =>
      if is_empty token then Rejected (failure 401 "Access token required")
      else
        match verifyToken P E now token with
        | None => Rejected (failure 401 "Invalid or expired token")
        | Some payload =>
            if negb (truthy payload) then Rejected (failure 401 "Invalid or expired token")
            else Attached (VObj [ ("id", prop "userId" payload);
                                  ("username", prop "username" payload);
                                  ("email", prop "email" payload);
                                  ("role", prop "role" payload) ])
        end
  end.

(** [None]: the request goes on to the next handler. *)
Definition adminMiddleware (req : request) : option response :=
  match req_user req with
  | None => Some (failure 401 "Authentication required")
  | Some caller =>
      if negb (String.eqb (auth_role caller) "admin")
      then Some (failure 403 "Admin access required")
      else None
  end.

End Middleware.

(** The stored identity as the type [AuthUser] that the controllers
    read; [None] when the payload that verified is not a [JWTPayload]. *)
Definition AuthUser_of (u : value) : option AuthUser :=
  match prop "id" u, prop "username" u, prop "email" u, prop "role" u with
  | VNum (Int id), VStr name, VStr mail, VStr rl =>
      Some {| auth_id := id; auth_username := name; auth_email := mail; auth_role := rl |}
  | _, _, _, _ => None
  end.

(* ------------------------------------------------------------------ *)
(** ** controllers/categoryController.ts: the two listings *)

Definition categoriesQuerySchema : schema :=
  z_object
    [ ("page", z_default (z_coerce_number [NInteger; NMin 1]) (VNum (Int 1)));
      ("limit", z_default (z_coerce_number [NInteger; NMin 1; NMax 100]) (VNum (Int 10)));
      ("search", z_optional (z_string []));
      ("sortBy", z_default (z_enum ["created_at"; "name"]) (VStr "name"));
      ("sortOrder", z_default (z_enum ["asc"; "desc"]) (VStr "asc")) ].

(** [url.searchParams.get(name)]: the first value of the name, or null. *)
Fixpoint searchParams_get (name : string) (entries : list (string * string)) : value :=
  match entries with
  | [] => VNull
  | kv :: rest =>
      if String.eqb name (fst kv) then VStr (snd kv) else searchParams_get name rest
  end.

(** [a || b] *)
Definition or_else (a b : value) : value := if truthy a then a else b.

(** The object that [getCategories] hands to [categoriesQuerySchema.parse]. *)
Definition categories_query_input (entries : list (string * string)) : value :=
  VObj [ ("page", or_else (searchParams_get "page" entries) (VStr "1"));
         ("limit", or_else (searchParams_get "limit" entries) (VStr "10"));
         ("search", or_else (searchParams_get "search" entries) VUndef);
         ("sortBy", or_else (searchParams_get "sortBy" entries) (VStr "name"));
         ("sortOrder", or_else (searchParams_get "sortOrder" entries) (VStr "asc")) ].

(** [COUNT(posts.id)] over the rows that the two left joins make of one
    category: one row for each association of the category and each post
    that the association names; an association whose post is missing
    gives a row without a post, which is not counted. *)
Definition postCount (d : db) (c : category) : Z :=
  Z.of_nat (List.length
    (flat_map (fun pc => filter (fun p => pc_postId pc =? post_id p) (posts d))
       (filter (fun pc => category_id c =? pc_categoryId pc) (postCategories d)))).

(** The row of a category in the two listings. [categories.id] is the
    primary key, so each category is a group of its own. *)
Definition category_with_count (d : db) (c : category) : value :=
  VObj (category_row c ++ [ ("postCount", VNum (Int (postCount d c))) ]).

Definition category_column_leb (sortBy : string) (a b : category) : bool :=
  if String.eqb sortBy "created_at" then category_createdAt a <=? category_createdAt b
  else String.leb (category_name a) (category_name b).

Definition category_order_leb (sortBy sortOrder : string) (a b : category) : bool :=
  if String.eqb sortOrder "desc" then category_column_leb sortBy b a
  else category_column_leb sortBy a b.

(** The [where] clause of [getCategories]. *)
Definition categories_where (q : value) (rows : list category) : list category :=
  if truthy (prop "search" q)
  then filter (fun c => like (category_name c) ("%" ++ string_of (prop "search" q) ++ "%")) rows
  else rows.

Section CategoryListings.

Context (P : Platform).

Local Open Scope handler_scope.

Definition getCategories (req : request) : db -> response * db :=
  try_catch
    (q <- parse P categoriesQuerySchema (categories_query_input (req_query req)) ;;
     let pg := int_of (prop "page" q) in
     let lim := int_of (prop "limit" q) in
     let offset := (pg - 1) * lim in
     let orderBy :=
       category_order_leb (string_of (prop "sortBy" q)) (string_of (prop "sortOrder" q)) in
     d <- query (fun d => d) ;;
     let categoriesList :=
       firstn (Z.to_nat lim)
         (skipn (Z.to_nat offset) (order_by orderBy (categories_where q (categories d)))) in
     let totalCount :=
       Z.of_nat (List.length
         (nodup Z.eq_dec (map category_id (categories_where q (categories d))))) in
     let pages := ceil_div totalCount lim in
     ret (createPaginatedResponse (map (category_with_count d) categoriesList)
            {| page := pg; limit := lim; total := totalCount; totalPages := pages |}))
    catch_logged.

Definition getCategory (req : request) : db -> response * db :=
  try_catch
    (if id_missing (req_id req) then respond (failure 400 "Category ID is required")
     else
       let n := js_parseInt P (id_text (req_id req)) in
       found <- query (fun d => find_category_by_id d n) ;;
       match found with
       | None => respond (failure 404 "Category not found")
       | Some c =>
           view <- query (fun d => category_with_count d c) ;;
           ret (createAPIResponse 200 true "Category retrieved successfully" view None)
       end)
    catch_plain_logged.

End CategoryListings.

(* ------------------------------------------------------------------ *)
(** ** routes/index.ts: the route table with its middleware *)

(** The rows of the table: the health check, the rows of [operation],
    the two category listings and the catch-all. *)
Inductive endpoint : Type :=
| GET_health
| Routed (op : operation)
| GET_categories
| GET_categories_id
| Unmatched.

Inductive middleware : Type :=
| Auth
| Admin.

(** The middleware that the table lists before the controller. *)
Definition middlewares (ep : endpoint) : list middleware :=
  match ep with
  | Routed GET_profile
  | Routed POST_profile_change_password
  | Routed POST_posts
  | Routed PATCH_posts_id
  | Routed DELETE_posts_id => [Auth]
  | Routed POST_categories
  | Routed PATCH_categories_id
  | Routed DELETE_categories_id => [Auth; Admin]
  | _ => []
  end.

Definition with_user (req : request) (u : option AuthUser) : request :=
  {| req_user := u; req_id := req_id req; req_body := req_body req;
     req_query := req_query req; req_now := req_now req; req_salt := req_salt req |}.

Section Router.

Context (P : Platform) (E : Env).

(** The last handler of a row. The time stamp of the health check is the
    clock reading, as [JSON.stringify] writes a date. *)
Definition handler (ep : endpoint) : request -> db -> response * db :=
  match ep with
  | GET_health =>
      fun req d =>
        (createAPIResponse 200 true "API is healthy"
           (VObj [ ("timestamp", VDate (req_now req)); ("version", VStr "1.0.0") ]) None, d)
  | Routed op => controller P E op
  | GET_categories => getCategories P
  | GET_categories_id => getCategory P
  | Unmatched => fun _ d => (failure 404 "Route not found", d)
  end.

(** The handlers of a row run in order until one returns a response.
    [None]: a token verified whose payload is not a [JWTPayload]. *)
Fixpoint through (ms : list middleware) (authorization : option string) (req : request)
  : option (request + response) :=
  match ms with
  | [] => Some (inl req)
  | Auth :: rest =>
      match authMiddleware P E authorization (req_now req) with
      | Rejected r => Some (inr r)
      | Attached u =>
          match AuthUser_of u with
          | Some caller => through rest authorization (with_user req (Some caller))
          | None => None
          end
      end
  | Admin :: rest =>
      match adminMiddleware req with
      | Some r => Some (inr r)
      | None => through rest authorization req
      end
  end.

(** [router.fetch(request)] for a request that the row [ep] matches and
    that arrives without a [user]. *)
Definition router_fetch (ep : endpoint) (authorization : option string) (req : request)
  (d : db) : option (response * db) :=
  match through (middlewares ep) authorization (with_user req None) with
  | Some (inl req') => Some (handler ep req' d)
  | Some (inr r) => Some (r, d)
  | None => None
  end.

End Router.

(* ------------------------------------------------------------------ *)
(** ** Vocabulary of the further statements *)

Unset Implicit Arguments.

(** The handlers of the rows that write. *)
Definition writes (ep : endpoint) : bool :=
  match ep with
  | Routed POST_auth_register
  | Routed POST_profile_change_password
  | Routed POST_posts
  | Routed PATCH_posts_id
  | Routed DELETE_posts_id
  | Routed POST_categories
  | Routed PATCH_categories_id
  | Routed DELETE_categories_id => true
  | _ => false
  end.


(** The role that a registration asks for. *)
Definition requested_role (body : value) : string :=
  match prop "role" body with
  | VStr r => r
  | _ => "editor"
  end.

(** The row that a registration adds. *)
Definition registered (P : Platform) (req : request) (d : db) (name mail pw rl : string) : user :=
  {| user_id := next_id (seq_users d) (map user_id (users d));
     user_username := name; user_email := mail;
     user_password := hashPassword P (req_salt req) pw;
     user_role := rl;
     user_createdAt := req_now req; user_updatedAt := req_now req |}.

(** The row of a user after a change of password. *)
Definition with_password (pw : string) (now : Z) (u : user) : user :=
  {| user_id := user_id u; user_username := user_username u; user_email := user_email u;
     user_password := pw; user_role := user_role u;
     user_createdAt := user_createdAt u; user_updatedAt := now |}.

(** A greedy run of a class in front of a continuation: the longest run
    first, then the shorter ones. *)
Fixpoint run_then {A : Type} (f : ascii -> bool) (k : string -> option A) (s : string)
  : option A :=
  match s with
  | EmptyString => k EmptyString
  | String d s' =>
      match (if f d then run_then f k s' else None) with
      | Some a => Some a
      | None => k s
      end
  end.

(** Whether [s] starts with [t], letters compared without case. *)
Fixpoint starts_nocase (t s : string) : bool :=
  match t, s with
  | EmptyString, _ => true
  | String c t', String d s' => (Chars.eqb_nocase c d && starts_nocase t' s')%bool
  | String _ _, EmptyString => false
  end.

Definition opening (tag : string) : string := "<" ++ tag.

Definition closing (tag : string) : string := "</" ++ tag ++ ">".

(** A text field of a body, or the default of the schema. *)
Definition text_or (dflt : string) (v : value) : string :=
  match v with
  | VStr s => s
  | _ => dflt
  end.

(** The rows that [createPost] and [updatePost] make of a category list:
    none unless the list is an array that is not empty. *)
Definition rows_of (pid : Z) (categoryIds : value) (rows : list postCategory) : Prop :=
  match categoryIds with
  | VArr items => rows_for pid items = Some rows
  | _ => rows = []
  end.

(** A list of category ids as the JSON body carries it, and the
    association rows that it stands for. *)
Definition ints (ids : list Z) : list value := map (fun z => VNum (Int z)) ids.

Definition rows_to (pid : Z) (ids : list Z) : list postCategory :=
  map (fun c => {| pc_postId := pid; pc_categoryId := c |}) ids.




(** The row that [createCategory] adds. *)
Definition new_category (d : db) (name slug : string) (description : value) (now : Z)
  : category :=
  {| category_id := next_id (seq_categories d) (map category_id (categories d));
     category_name := name; category_slug := slug;
     category_description := nullable_text description;
     category_createdAt := now; category_updatedAt := now |}.

Definition new_description (v : value) (old : option string) : option string :=
  match v with
  | VStr s => Some s
  | VNull => None
  | _ => old
  end.

(** The row that an accepted update body makes of a category at a clock
    reading. *)
Definition updated_category (data : value) (now : Z) (c : category) : category :=
  {| category_id := category_id c;
     category_name := new_text (prop "name" data) (category_name c);
     category_slug := new_text (prop "slug" data) (category_slug c);
     category_description :=
       new_description (prop "description" data) (category_description c);
     category_createdAt := category_createdAt c;
     category_updatedAt := now |}.

Definition rewritten_categories (data : value) (now cid : Z) (rows : list category)
  : list category :=
  map (fun c => if category_id c =? cid then updated_category data now c else c) rows.

(** A table whose primary key [id] has no value twice, and in which two
    rows that are the [same] in a unique column are one row. *)
Definition unique_by {A : Type} (id : A -> Z) (same : A -> A -> Prop) (rows : list A) : Prop :=
  NoDup (map id rows) /\
  forall a b, In a rows -> In b rows -> same a b -> id a = id b.

Definition same_account (a b : user) : Prop :=
  user_username a = user_username b \/ user_email a = user_email b.

Definition same_label (a b : category) : Prop :=
  category_name a = category_name b \/ category_slug a = category_slug b.

Definition same_slug (a b : post) : Prop := post_slug a = post_slug b.

(** The primary keys and the [unique()] columns of the four tables. *)
Definition store_constraints (d : db) : Prop :=
  unique_by user_id same_account (users d) /\
  unique_by category_id same_label (categories d) /\
  unique_by post_id same_slug (posts d) /\
  NoDup (postCategories d).

(** The databases that requests make of the empty one. *)
Inductive reachable (P : Platform) (E : Env) : db -> Prop :=
| reachable_empty : reachable P E empty_db
| reachable_request (d : db) (ep : endpoint) (req : request) :
    reachable P E d -> reachable P E (snd (handler P E ep req d)).

(** A piece of a handler that keeps a property of the database. *)
Definition keeps {A : Type} (I : db -> Prop) (m : M A) : Prop :=
  forall d, I d -> I (snd (m d)).

(** Requests to try the handlers on: the token that the example
    platform signs for a user, a new post in both categories, and an
    update of the first post with a list of categories. *)
Definition demo_token (u : AuthUser) (now : Z) : string :=
  generateToken (Demo.platform false true) Demo.env now
    {| userId := auth_id u; username := auth_username u; email := auth_email u;
       role := auth_role u |}.

Definition demo_post : value :=
  VObj [ ("title", VStr "Fourth Post"); ("slug", VStr "fourth-post");
         ("content", VStr "Content 4"); ("categoryIds", VArr [VNum (Int 1); VNum (Int 2)]) ].

Definition demo_update (ids : list Z) : value :=
  VObj [ ("title", VStr "First Post, again"); ("categoryIds", VArr (ints ids)) ].

(** The database after a list of requests. *)
Definition after (P : Platform) (E : Env) (steps : list (endpoint * request)) (d : db) : db :=
  fold_left (fun d s => snd (handler P E (fst s) (snd s) d)) steps d.

(* ================================================================== *)
(** * Properties *)

Unset Implicit Arguments.

(* ------------------------------------------------------------------ *)
(** ** Slugs *)

Lemma upper_not_slug_char (c : ascii) :
  Chars.is_upper c = true -> Chars.is_slug_char c = false.
Proof.
  unfold Chars.is_upper, Chars.is_slug_char, Chars.is_lower, Chars.is_digit,
    Chars.is_hyphen, Chars.between.
  intros H. apply andb_true_iff in H as [H1 H2].
  apply N.leb_le in H1, H2.
  repeat rewrite orb_false_iff. repeat split.
  - apply andb_false_iff. left. apply N.leb_gt. lia.
  - apply andb_false_iff. right. apply N.leb_gt. lia.
  - apply N.eqb_neq. lia.
Qed.

Lemma space_not_slug_char (c : ascii) :
  Chars.is_space c = true -> Chars.is_slug_char c = false.
Proof.
  unfold Chars.is_space, Chars.is_slug_char, Chars.is_lower, Chars.is_digit,
    Chars.is_hyphen, Chars.between.
  intros H.
  assert (Hc : (9 <= Chars.code c <= 13 \/ Chars.code c = 32 \/ Chars.code c = 160)%N).
  { apply orb_true_iff in H as [H | H].
    - apply orb_true_iff in H as [H | H].
      + apply andb_true_iff in H as [H1 H2]. apply N.leb_le in H1, H2. lia.
      + apply N.eqb_eq in H. lia.
    - apply N.eqb_eq in H. lia. }
  repeat rewrite orb_false_iff. repeat split.
  - apply andb_false_iff.
    destruct (N.leb_spec 97 (Chars.code c)); [right; apply N.leb_gt; lia | now left].
  - apply andb_false_iff.
    destruct (N.leb_spec 48 (Chars.code c)); [right; apply N.leb_gt; lia | now left].
  - apply N.eqb_neq. lia.
Qed.

Lemma forall_chars_exists_char (f : ascii -> bool) (s : string) :
  forall_chars f s = negb (exists_char (fun c => negb (f c)) s).
Proof.
  induction s as [| c s IH]; simpl; [reflexivity |].
  rewrite IH, negb_orb, negb_involutive. reflexivity.
Qed.


Lemma validateSlug_true_iff (s : string) :
  validateSlug s = true <->
  s <> EmptyString /\ forall_chars Chars.is_slug_char s = true.
Proof.
  unfold validateSlug. rewrite andb_true_iff, negb_true_iff.
  split; intros [H1 H2]; split; auto.
  - intros ->. discriminate.
  - destruct s; [congruence | reflexivity].
Qed.

(** C6 as stated fails on the empty string: it consists of nothing but
    allowed characters, and the pattern wants at least one character. *)
Lemma validateSlug_rejects_empty_string :
  forall_chars Chars.is_slug_char "" = true /\ validateSlug "" = false.
Proof. split; reflexivity. Qed.

(** C6 (amended): [validateSlug] accepts every non-empty string made of
    lowercase letters, digits and hyphens only, and rejects every string
    that contains an uppercase letter, a white-space character or any
    other character outside that set. *)
Theorem validateSlug_accepts_exactly_slugs (s : string) :
  (s <> EmptyString -> forall_chars Chars.is_slug_char s = true ->
   validateSlug s = true) /\
  (exists_char (fun c => Chars.is_upper c || Chars.is_space c ||
                         negb (Chars.is_slug_char c))%bool s = true ->
   validateSlug s = false).
Proof.
  split.
  - intros Hne Hall. apply validateSlug_true_iff. auto.
  - intros Hex. unfold validateSlug.
    apply andb_false_iff. right.
    rewrite forall_chars_exists_char. apply negb_false_iff.
    induction s as [| c s IH]; simpl in *; [discriminate |].
    apply orb_true_iff in Hex as [Hc | Hs].
    + apply orb_true_iff. left.
      apply orb_true_iff in Hc as [Hc | Hc]; [| exact Hc].
      apply orb_true_iff in Hc as [Hc | Hc]; apply negb_true_iff.
      * now apply upper_not_slug_char.
      * now apply space_not_slug_char.
    + apply orb_true_iff. right. auto.
Qed.

Lemma validateSlug_accepts_exactly_slugs_witness :
  validateSlug "hello-world-2" = true /\ validateSlug "Hello World" = false.
Proof.
  split.
  - apply (proj1 (validateSlug_accepts_exactly_slugs "hello-world-2")).
    + discriminate.
    + reflexivity.
  - apply (proj2 (validateSlug_accepts_exactly_slugs "Hello World")).
    reflexivity.
Defined.

(* ------------------------------------------------------------------ *)
(** ** Objects *)

Lemma get_set_same (k : string) (v : value) (fields : fields_t) :
  get k (set k v fields) = v.
Proof.
  induction fields as [| [k' v'] rest IH]; simpl.
  - now rewrite String.eqb_refl.
  - destruct (String.eqb k k') eqn:Hk; simpl; rewrite ?String.eqb_refl, ?Hk; auto.
Qed.

Lemma get_set_other (k k' : string) (v : value) (fields : fields_t) :
  k <> k' -> get k (set k' v fields) = get k fields.
Proof.
  intros Hne. induction fields as [| [k2 v2] rest IH]; simpl.
  - apply String.eqb_neq in Hne. now rewrite Hne.
  - destruct (String.eqb k' k2) eqn:Hk; simpl.
    + apply String.eqb_eq in Hk. subst k2.
      apply String.eqb_neq in Hne. now rewrite Hne.
    + destruct (String.eqb k k2); auto.
Qed.

Lemma get_absent (k : string) (fields : fields_t) :
  ~ In k (map fst fields) -> get k fields = VUndef.
Proof.
  induction fields as [| [k' v'] rest IH]; simpl; intros Hn; [reflexivity |].
  destruct (String.eqb_spec k k') as [-> | Hne].
  - exfalso. apply Hn. now left.
  - apply IH. intros Hin. apply Hn. now right.
Qed.

Lemma get_omit_same (k : string) (fields : fields_t) :
  get k (omit k fields) = VUndef.
Proof.
  induction fields as [| [k' v'] rest IH]; simpl; [reflexivity |].
  destruct (String.eqb k k') eqn:Hk; simpl; [exact IH |].
  now rewrite Hk.
Qed.

Lemma get_omit_other (k k' : string) (fields : fields_t) :
  k <> k' -> get k (omit k' fields) = get k fields.
Proof.
  intros Hne. induction fields as [| [k2 v2] rest IH]; simpl; [reflexivity |].
  destruct (String.eqb k' k2) eqn:Hk; simpl.
  - apply String.eqb_eq in Hk. subst k2.
    apply String.eqb_neq in Hne. now rewrite Hne.
  - destruct (String.eqb k k2); auto.
Qed.

Lemma get_fromEntries_absent (k : string) (entries : list (string * string)) :
  ~ In k (map fst entries) -> get k (fromEntries entries) = VUndef.
Proof.
  unfold fromEntries.
  assert (H : forall acc, get k acc = VUndef -> ~ In k (map fst entries) ->
              get k (fold_left (fun o kv => set (fst kv) (VStr (snd kv)) o) entries acc)
              = VUndef).
  { induction entries as [| [k' v'] rest IH]; simpl; intros acc Hacc Hn; [exact Hacc |].
    apply IH.
    - rewrite get_set_other; [exact Hacc |]. intros ->. apply Hn. now left.
    - intros Hin. apply Hn. now right. }
  intros Hn. now apply H.
Qed.

(* ------------------------------------------------------------------ *)
(** ** Parsing with a schema *)

Lemma finish_invalid_nonempty (path : string) (v : value) (codes : list issue_code)
      (issues : list issue) :
  finish path v codes = Invalid issues -> issues <> [].
Proof.
  destruct codes; simpl; intros H; inversion H; subst. discriminate.
Qed.

Lemma parse_at_invalid_nonempty (P : Platform) (s : schema) :
  forall path v issues, parse_at P path s v = Invalid issues -> issues <> [].
Proof.
  assert (Hfin : forall (i : issue) (issues : list issue),
             Invalid [i] = Invalid issues -> issues <> []).
  { intros i issues H. inversion H; subst. discriminate. }
  induction s; intros path v issues H; simpl in H.
  - destruct v; eauto using finish_invalid_nonempty.
  - destruct v; eauto using finish_invalid_nonempty.
    destruct (existsb _ _); [discriminate | eauto using finish_invalid_nonempty].
  - destruct (coerce_number P v); eauto using finish_invalid_nonempty.
  - destruct v; eauto.
  - destruct v; eauto.
    destruct (zod4 P && is_default s)%bool; [eauto | discriminate].
  - destruct v; eauto. discriminate.
  - destruct v; eauto using finish_invalid_nonempty.
    destruct (walk (parse_at P) fields shape) as [[| i more] out];
      inversion H; subst. discriminate.
Qed.

Section WalkFacts.

Variable parse_field : string -> schema -> value -> parsed.
Variable fields : fields_t.
Hypothesis invalid_nonempty :
  forall k s v issues, parse_field k s v = Invalid issues -> issues <> [].

Lemma walk_keys (shape : list (string * schema)) (issues : list issue) (out : fields_t) :
  walk parse_field fields shape = (issues, out) ->
  forall k, ~ In k (map fst shape) -> get k out = VUndef.
Proof.
  revert issues out.
  induction shape as [| [k0 s0] rest IH]; simpl; intros issues out H k Hn.
  - inversion H; subst. reflexivity.
  - destruct (walk parse_field fields rest) as [issues' out'] eqn:Hw.
    assert (Hrest : get k out' = VUndef) by (eapply IH; eauto).
    assert (Hk : String.eqb k k0 = false) by (apply String.eqb_neq; intros ->; apply Hn; now left).
    destruct (parse_field k0 s0 (get k0 fields)) as [x | i]; [| inversion H; subst; exact Hrest].
    destruct x; inversion H; subst; simpl; rewrite ?Hk; exact Hrest.
Qed.

Lemma walk_valid (shape : list (string * schema)) (out : fields_t) :
  walk parse_field fields shape = ([], out) ->
  NoDup (map fst shape) ->
  forall k s, In (k, s) shape -> parse_field k s (get k fields) = Valid (get k out).
Proof.
  revert out.
  induction shape as [| [k0 s0] rest IH]; simpl; intros out H Hnd k s Hin; [contradiction |].
  inversion Hnd as [| ? ? Hk0 Hnd']; subst.
  destruct (walk parse_field fields rest) as [issues' out'] eqn:Hw.
  destruct (parse_field k0 s0 (get k0 fields)) as [x | i] eqn:Hp.
  - assert (Hi : issues' = []) by (destruct x; inversion H; reflexivity).
    subst issues'.
    destruct Hin as [Heq | Hin].
    + inversion Heq; subst k0 s0. rewrite Hp.
      destruct x; inversion H; subst; simpl; rewrite ?String.eqb_refl; try reflexivity.
      f_equal. symmetry. eapply walk_keys; eauto.
    + assert (Hne : String.eqb k k0 = false).
      { apply String.eqb_neq. intros ->. apply Hk0.
        change k0 with (fst (k0, s)). now apply in_map. }
      rewrite (IH out' eq_refl Hnd' k s Hin).
      destruct x; inversion H; subst; simpl; rewrite ?Hne; reflexivity.
  - inversion H as [[Hi Ho]]. apply app_eq_nil in Hi as [Hi _]. subst i.
    exfalso. eapply invalid_nonempty; eauto.
Qed.

End WalkFacts.

(** What an accepted object looks like: the input was an object, the
    result is an object, every field of the shape parsed to the value the
    result holds, and the result has no other key. *)
Lemma safeParse_object (P : Platform) (shape : list (string * schema)) (v data : value) :
  safeParse P (z_object shape) v = Valid data ->
  NoDup (map fst shape) ->
  exists fields out,
    v = VObj fields /\ data = VObj out /\
    (forall k s, In (k, s) shape -> parse_at P k s (get k fields) = Valid (get k out)) /\
    (forall k, ~ In k (map fst shape) -> get k out = VUndef).
Proof.
  unfold safeParse. simpl. intros H Hnd.
  destruct v; try (simpl in H; discriminate).
  destruct (walk (parse_at P) fields shape) as [issues out] eqn:Hw.
  destruct issues; [| discriminate]. inversion H; subst.
  exists fields, out. repeat split.
  - intros k s Hin. eapply walk_valid; eauto.
    intros. eapply parse_at_invalid_nonempty; eauto.
  - intros k Hn. eapply walk_keys; eauto.
Qed.

Lemma partial_keys (shape : list (string * schema)) :
  map fst (map (fun ks => (fst ks, z_optional (snd ks))) shape) = map fst shape.
Proof. rewrite map_map. reflexivity. Qed.

Ltac distinct_keys :=
  simpl; repeat (constructor; [simpl; intuition discriminate |]); constructor.

(* ------------------------------------------------------------------ *)
(** ** Defaults *)

Lemma number_or_undefined_absent (P : Platform) (k : string)
      (entries : list (string * string)) :
  ~ In k (map fst entries) ->
  number_or_undefined P (get k (fromEntries entries)) = VUndef.
Proof.
  intros Hn. rewrite get_fromEntries_absent by exact Hn. reflexivity.
Qed.

Lemma posts_query_input_page (P : Platform) (entries : list (string * string)) :
  prop "page" (posts_query_input P entries)
  = number_or_undefined P (get "page" (fromEntries entries)).
Proof.
  unfold posts_query_input, prop.
  rewrite !get_set_other by discriminate. apply get_set_same.
Qed.

Lemma posts_query_input_limit (P : Platform) (entries : list (string * string)) :
  prop "limit" (posts_query_input P entries)
  = number_or_undefined P (get "limit" (fromEntries entries)).
Proof.
  unfold posts_query_input, prop.
  rewrite !get_set_other by discriminate. apply get_set_same.
Qed.

(** C7: a registration body that passes validation without a [role]
    field is validated to role "editor"; a listing request that passes
    validation without a [page] parameter is validated to page 1, and
    without a [limit] parameter to limit 10. *)
Theorem validation_applies_defaults (P : Platform) :
  (forall body validated,
      prop "role" body = VUndef ->
      safeParse P insertUserSchema body = Valid validated ->
      prop "role" validated = VStr "editor") /\
  (forall entries q,
      safeParse P postsQuerySchema (posts_query_input P entries) = Valid q ->
      (~ In "page" (map fst entries) -> prop "page" q = VNum (Int 1)) /\
      (~ In "limit" (map fst entries) -> prop "limit" q = VNum (Int 10))).
Proof.
  split.
  - intros body validated Habsent Hparse.
    apply safeParse_object in Hparse as (fields & out & -> & -> & Hval & _);
      [| distinct_keys].
    specialize (Hval "role" (z_default userRoleSchema (VStr "editor"))).
    simpl in Habsent. rewrite Habsent in Hval. simpl in Hval.
    assert (H : Valid (VStr "editor") = Valid (get "role" out)) by (apply Hval; tauto).
    simpl. now inversion H.
  - intros entries q Hparse.
    pose proof (posts_query_input_page P entries) as Hpage.
    pose proof (posts_query_input_limit P entries) as Hlimit.
    apply safeParse_object in Hparse as (fields & out & Hin & -> & Hval & _);
      [| distinct_keys].
    rewrite Hin in Hpage, Hlimit. simpl in Hpage, Hlimit.
    split; intros Habsent.
    + specialize (Hval "page" (z_default (z_coerce_number [NInteger; NMin 1]) (VNum (Int 1)))).
      rewrite Hpage, number_or_undefined_absent in Hval by exact Habsent.
      simpl in Hval.
      assert (H : Valid (VNum (Int 1)) = Valid (get "page" out)) by (apply Hval; tauto).
      simpl. now inversion H.
    + specialize (Hval "limit"
                    (z_default (z_coerce_number [NInteger; NMin 1; NMax 100]) (VNum (Int 10)))).
      rewrite Hlimit, number_or_undefined_absent in Hval by exact Habsent.
      simpl in Hval.
      assert (H : Valid (VNum (Int 10)) = Valid (get "limit" out)) by (apply Hval; tauto).
      simpl. now inversion H.
Qed.

Lemma validation_applies_defaults_witness :
  prop "role"
    (match safeParse (Demo.platform false false) insertUserSchema
             (VObj [ ("username", VStr "alice"); ("email", VStr "alice@example.com");
                     ("password", VStr "pw123456") ]) with
     | Valid validated => validated
     | Invalid _ => VNull
     end) = VStr "editor" /\
  prop "page"
    (match safeParse (Demo.platform false false) postsQuerySchema
             (posts_query_input (Demo.platform false false) [("status", "draft")]) with
     | Valid q => q
     | Invalid _ => VNull
     end) = VNum (Int 1).
Proof.
  split.
  - apply (proj1 (validation_applies_defaults (Demo.platform false false))
             (VObj [ ("username", VStr "alice"); ("email", VStr "alice@example.com");
                     ("password", VStr "pw123456") ])).
    + reflexivity.
    + reflexivity.
  - refine (proj1 (proj2 (validation_applies_defaults (Demo.platform false false))
                     [("status", "draft")] _ _) _).
    + reflexivity.
    + simpl. intuition discriminate.
Defined.

(* ------------------------------------------------------------------ *)
(** ** Lists and rows *)

Lemma find_filter_negb {A : Type} (f : A -> bool) (l : list A) :
  find f (filter (fun x => negb (f x)) l) = None.
Proof.
  induction l as [| x l IH]; simpl; [reflexivity |].
  destruct (f x) eqn:Hf; simpl; [exact IH |]. now rewrite Hf.
Qed.

Lemma existsb_filter_nil {A : Type} (f : A -> bool) (l : list A) :
  filter f l = [] -> existsb f l = false.
Proof.
  induction l as [| x l IH]; simpl; [reflexivity |].
  destruct (f x); [discriminate | auto].
Qed.

Lemma filter_nil_length {A : Type} (f : A -> bool) (l : list A) :
  filter f l = [] <-> (0 <? Z.of_nat (List.length (filter f l))) = false.
Proof.
  destruct (filter f l); simpl; split; intros H; try reflexivity; try discriminate.
Qed.

Lemma find_some_in {A : Type} (f : A -> bool) (l : list A) (x : A) :
  find f l = Some x -> In x l /\ f x = true.
Proof. apply find_some. Qed.

Lemma id_missing_false (id : option string) (s : string) :
  id = Some s -> s <> EmptyString -> id_missing id = false /\ id_text id = s.
Proof.
  intros -> Hne. split; [| reflexivity].
  destruct s; [congruence | reflexivity].
Qed.

(* ------------------------------------------------------------------ *)
(** ** Deleting a category *)

(** C3: an admin's DELETE of an existing category answers 400 and leaves
    the database as it was when some association row names the category;
    when none does, it deletes the category row and answers success. *)
Theorem deleteCategory_refuses_category_in_use
  (P : Platform) (req : request) (d : db)
  (caller : AuthUser) (id : string) (cid : Z) (c : category) :
  req_user req = Some caller ->
  auth_role caller = "admin" ->
  req_id req = Some id -> id <> EmptyString ->
  js_parseInt P id = Int cid ->
  find_category_by_id d (Int cid) = Some c ->
  let referencing := filter (fun pc => pc_categoryId pc =? cid) (postCategories d) in
  let resp := fst (deleteCategory P req d) in
  let d' := snd (deleteCategory P req d) in
  (referencing <> [] ->
   status resp = 400 /\ success resp = false /\ d' = d) /\
  (referencing = [] ->
   status resp = 200 /\ success resp = true /\
   find_category_by_id d' (Int cid) = None /\
   categories d' = filter (fun x => negb (category_id x =? cid)) (categories d) /\
   users d' = users d /\ posts d' = posts d /\ postCategories d' = postCategories d).
Proof.
  intros Huser Hrole Hid Hne Hparse Hfind referencing resp d'.
  subst referencing resp d'.
  destruct (id_missing_false _ _ Hid Hne) as [Hmiss Htext].
  unfold deleteCategory, try_catch, bind, query, respond, ret, is_admin.
  rewrite Huser, Hrole, Hmiss, Htext, Hparse. simpl.
  rewrite Hfind.
  destruct (filter (fun pc => pc_categoryId pc =? cid) (postCategories d)) eqn:Hrefs.
  - split; [congruence | intros _].
    simpl. unfold delete_category, eq_num.
    rewrite (existsb_filter_nil _ _ Hrefs), andb_false_r. simpl.
    repeat split; try reflexivity.
    unfold find_category_by_id. simpl. apply find_filter_negb.
  - split; [intros _ | congruence].
    simpl. repeat split; reflexivity.
Qed.

Lemma deleteCategory_refuses_category_in_use_witness :
  let P := Demo.platform false true in
  let used := Demo.at_id (Demo.as_user (Demo.anonymous 300) Demo.root) "1" in
  let unused := Demo.at_id (Demo.as_user (Demo.anonymous 300) Demo.root) "2" in
  (status (fst (deleteCategory P used Demo.seeded)) = 400 /\
   snd (deleteCategory P used Demo.seeded) = Demo.seeded) /\
  (status (fst (deleteCategory P unused Demo.seeded)) = 200 /\
   find_category_by_id (snd (deleteCategory P unused Demo.seeded)) (Int 2) = None).
Proof.
  intros P used unused.
  assert (Hfind1 : exists c, find_category_by_id Demo.seeded (Int 1) = Some c)
    by (eexists; vm_compute; reflexivity).
  assert (Hfind2 : exists c, find_category_by_id Demo.seeded (Int 2) = Some c)
    by (eexists; vm_compute; reflexivity).
  destruct Hfind1 as [c1 Hfind1]. destruct Hfind2 as [c2 Hfind2].
  split.
  - pose proof (deleteCategory_refuses_category_in_use P used Demo.seeded
                  Demo.root "1" 1 c1 eq_refl eq_refl eq_refl
                  ltac:(discriminate) eq_refl Hfind1) as [Hused _].
    destruct Hused as (H1 & _ & H3); [vm_compute; discriminate |].
    split; [exact H1 | exact H3].
  - pose proof (deleteCategory_refuses_category_in_use P unused Demo.seeded
                  Demo.root "2" 2 c2 eq_refl eq_refl eq_refl
                  ltac:(discriminate) eq_refl Hfind2) as [_ Hunused].
    destruct Hunused as (H1 & _ & H3 & _); [vm_compute; reflexivity |].
    split; [exact H1 | exact H3].
Defined.

(* ------------------------------------------------------------------ *)
(** ** Running a handler *)

Create HintDb handlers.
#[local] Hint Unfold try_catch catching bind ret throw respond query when
  request_json parse expect_string not_null_text text_with_default : handlers.

Ltac unfold_handlers := repeat autounfold with handlers.

(* ------------------------------------------------------------------ *)
(** ** Registration and login *)


Lemma login_success (P : Platform) (E : Env) (req : request) (d : db) :
  success (fst (login P E req d)) = true ->
  exists u, In u (users d) /\ snd (login P E req d) = d /\
    data (fst (login P E req d)) =
      VObj [ ("user", VObj (omit "password" (user_row u)));
             ("token",
              VStr (generateToken P E (req_now req)
                      {| userId := user_id u; username := user_username u;
                         email := user_email u; role := user_role u |})) ].
Proof.
  unfold login. unfold_handlers.
  destruct (req_body req); simpl; [| discriminate].
  destruct (safeParse P loginSchema v); simpl; [| discriminate].
  destruct (prop "username" v0); simpl; try discriminate.
  destruct (prop "password" v0); simpl; try discriminate.
  destruct (find_user_by_username d s) as [u |] eqn:Hfind; simpl; [| discriminate].
  destruct (verifyPassword P s0 (user_password u)); simpl; [| discriminate].
  intros _. exists u. repeat split.
  apply find_some in Hfind. tauto.
Qed.



(* ------------------------------------------------------------------ *)
(** ** Changing and deleting a post: who may *)

Lemma owner_or_admin_guard caller p :
  (negb (post_authorId p =? auth_id caller) && negb (String.eqb (auth_role caller) "admin"))%bool
  = negb (owner_or_admin caller p).
Proof. unfold owner_or_admin. now rewrite negb_orb. Qed.

Lemma deletePost_run P req d caller id pid p :
  req_user req = Some caller -> req_id req = Some id -> id <> EmptyString ->
  js_parseInt P id = Int pid -> find_post_by_id d (Int pid) = Some p ->
  deletePost P req d =
    if owner_or_admin caller p then
      (createAPIResponse 200 true "Post deleted successfully" VUndef None,
       with_posts
         (with_postCategories d (filter (fun pc => negb (pc_postId pc =? pid)) (postCategories d)))
         (filter (fun q => negb (post_id q =? pid)) (posts d)) (seq_posts d))
    else (failure 403 "You can only delete your own posts", d).
Proof.
  intros Huser Hid Hne Hparse Hfind.
  destruct (id_missing_false _ _ Hid Hne) as [Hmiss Htext].
  unfold deletePost. unfold_handlers.
  rewrite Huser, Hmiss, Htext, Hparse, Hfind, owner_or_admin_guard.
  destruct (owner_or_admin caller p); simpl; [| reflexivity].
  unfold delete_post, delete_postCategories_of. simpl.
  replace (existsb _ (filter _ (postCategories d))) with false.
  - rewrite andb_false_r. reflexivity.
  - symmetry. apply existsb_filter_nil.
    induction (postCategories d) as [| pc l IH]; simpl; [reflexivity |].
    destruct (pc_postId pc =? pid) eqn:E; simpl; [exact IH |].
    rewrite E. exact IH.
Qed.

Lemma postUpdateSchema_object P body data :
  safeParse P postUpdateSchema body = Valid data ->
  exists fields out,
    body = VObj fields /\ data = VObj out /\
    (forall k s, In (k, s) (map (fun ks => (fst ks, z_optional (snd ks)))
                    [ ("title", z_string [SMin 1; SMax 200]);
                      ("slug", z_string [SRegex validateSlug]);
                      ("content", z_string [SMin 1]);
                      ("contentType", z_default postContentTypeSchema (VStr "markdown"));
                      ("excerpt", z_optional (z_string [SMax 500]));
                      ("status", z_default postStatusSchema (VStr "draft"));
                      ("featuredImage", z_optional (z_string [SUrl])) ]) ->
        parse_at P k s (get k fields) = Valid (get k out)) /\
    (forall k, ~ In k ["title"; "slug"; "content"; "contentType"; "excerpt"; "status";
                       "featuredImage"] -> get k out = VUndef).
Proof.
  intros H. apply safeParse_object in H; [| distinct_keys]. exact H.
Qed.

Lemma finish_valid path v codes x : finish path v codes = Valid x -> x = v.
Proof. destruct codes; simpl; intros H; inversion H; reflexivity. Qed.

Lemma parse_string_valid P path cs v x :
  parse_at P path (z_string cs) v = Valid x -> exists s, v = VStr s /\ x = VStr s.
Proof.
  simpl. destruct v; simpl; try discriminate.
  intros H. apply finish_valid in H. eauto.
Qed.

Lemma parse_enum_valid P path ms v x :
  parse_at P path (z_enum ms) v = Valid x -> exists s, v = VStr s /\ x = VStr s.
Proof.
  simpl. destruct v; simpl; try discriminate.
  destruct (existsb _ _); simpl; [| discriminate].
  intros H. inversion H. eauto.
Qed.

Lemma parse_optional_string_valid P path cs v x :
  parse_at P path (z_optional (z_string cs)) v = Valid x ->
  (v = VUndef /\ x = VUndef) \/ exists s, v = VStr s /\ x = VStr s.
Proof.
  intros H. destruct v; try (right; eapply (parse_string_valid P path cs); exact H).
  simpl in H. rewrite andb_false_r in H. inversion H. now left.
Qed.

Lemma update_data_slug P body data :
  safeParse P postUpdateSchema body = Valid data ->
  prop "slug" data = VUndef \/
  exists s, prop "slug" data = VStr s /\ validateSlug s = true.
Proof.
  intros H. apply postUpdateSchema_object in H as (fields & out & -> & -> & Hval & _).
  specialize (Hval "slug" (z_optional (z_string [SRegex validateSlug]))).
  simpl in Hval. simpl.
  assert (Hp : parse_at P "slug" (z_optional (z_string [SRegex validateSlug])) (get "slug" fields)
               = Valid (get "slug" out)) by (apply Hval; tauto).
  clear Hval. destruct (parse_optional_string_valid _ _ _ _ _ Hp) as [[_ Hx] | (s & Hv & Hx)].
  - now left.
  - right. exists s. split; [exact Hx |].
    rewrite Hv in Hp. simpl in Hp.
    destruct (validateSlug s); [reflexivity | discriminate].
Qed.

Lemma update_data_slug_check P body data :
  safeParse P postUpdateSchema body = Valid data ->
  (truthy (prop "slug" data) && negb (validateSlug_of (prop "slug" data)))%bool = false.
Proof.
  intros H. destruct (update_data_slug P body _ H) as [-> | (s & -> & Hs)]; simpl.
  - reflexivity.
  - rewrite Hs. apply andb_false_r.
Qed.

Lemma updatePost_forbidden P req d caller id pid p :
  req_user req = Some caller -> req_id req = Some id -> id <> EmptyString ->
  js_parseInt P id = Int pid -> find_post_by_id d (Int pid) = Some p ->
  owner_or_admin caller p = false ->
  snd (updatePost P req d) = d /\
  status (fst (updatePost P req d)) =
    match req_body req with
    | None => 500
    | Some body =>
        match safeParse P postUpdateSchema body with
        | Valid _ => 403
        | Invalid _ => 400
        end
    end.
Proof.
  intros Huser Hid Hne Hparse Hfind Hown.
  destruct (id_missing_false _ _ Hid Hne) as [Hmiss Htext].
  unfold updatePost. unfold_handlers.
  rewrite Huser, Hmiss, Htext, Hparse.
  destruct (req_body req) as [body |]; simpl; [| split; reflexivity].
  destruct (safeParse P postUpdateSchema body) as [data | issues] eqn:Hp; simpl;
    [| split; reflexivity].
  rewrite (update_data_slug_check P body _ Hp). simpl.
  rewrite Hfind, owner_or_admin_guard, Hown. simpl. split; reflexivity.
Qed.

Lemma parse_optional_string_shape P path cs v x :
  parse_at P path (z_optional (z_string cs)) v = Valid x -> text_or_absent x.
Proof.
  intros H. destruct (parse_optional_string_valid _ _ _ _ _ H) as [[_ ->] | (s & _ & ->)];
    [left | right]; eauto.
Qed.

Lemma parse_optional_optional_string_shape P path cs v x :
  parse_at P path (z_optional (z_optional (z_string cs))) v = Valid x -> text_or_absent x.
Proof.
  intros H.
  destruct v;
    try (match type of H with
         | parse_at _ _ _ ?w = _ =>
             apply (parse_optional_string_shape P path cs w x); exact H
         end).
  simpl in H. rewrite andb_false_r in H. inversion H. now left.
Qed.

Lemma parse_optional_default_enum_shape P path ms dflt v x :
  parse_at P path (z_optional (z_default (z_enum ms) dflt)) v = Valid x -> text_or_absent x.
Proof.
  intros H.
  assert (Henum : forall w y, parse_at P path (z_enum ms) w = Valid y -> text_or_absent y).
  { intros w y Hw. destruct (parse_enum_valid _ _ _ _ _ Hw) as (s & _ & ->). right; eauto. }
  destruct v;
    try (match type of H with
         | parse_at _ _ _ ?w = _ => apply (Henum w x); exact H
         end).
  simpl in H. destruct (zod4 P); simpl in H; [apply (Henum dflt x); exact H |].
  inversion H. now left.
Qed.

Lemma set_text_shape v old : text_or_absent v -> set_text v old = Some (new_text v old).
Proof. intros [-> | (s & ->)]; reflexivity. Qed.

Lemma set_nullable_text_shape v old :
  text_or_absent v -> set_nullable_text v old = Some (new_nullable_text v old).
Proof. intros [-> | (s & ->)]; reflexivity. Qed.

Lemma set_post_accepted P body data now q :
  safeParse P postUpdateSchema body = Valid data ->
  set_post (set "updatedAt" (VDate now) (fields_of data)) q = Some (updated_post data now q).
Proof.
  intros H. apply postUpdateSchema_object in H as (fields & out & -> & -> & Hval & Hkeys).
  simpl fields_of. unfold updated_post, prop.
  assert (Htitle : text_or_absent (get "title" out)).
  { eapply parse_optional_string_shape. apply Hval. simpl. tauto. }
  assert (Hslug : text_or_absent (get "slug" out)).
  { eapply parse_optional_string_shape. apply Hval. simpl. tauto. }
  assert (Hcontent : text_or_absent (get "content" out)).
  { eapply parse_optional_string_shape. apply Hval. simpl. tauto. }
  assert (Htype : text_or_absent (get "contentType" out)).
  { eapply parse_optional_default_enum_shape. apply Hval. simpl. tauto. }
  assert (Hexcerpt : text_or_absent (get "excerpt" out)).
  { eapply parse_optional_optional_string_shape. apply Hval. simpl. tauto. }
  assert (Hstatus : text_or_absent (get "status" out)).
  { eapply parse_optional_default_enum_shape. apply Hval. simpl. tauto. }
  assert (Himage : text_or_absent (get "featuredImage" out)).
  { eapply parse_optional_optional_string_shape. apply Hval. simpl. tauto. }
  assert (Hid : get "id" out = VUndef) by (apply Hkeys; simpl; intuition discriminate).
  assert (Hauthor : get "authorId" out = VUndef) by (apply Hkeys; simpl; intuition discriminate).
  assert (Hcreated : get "createdAt" out = VUndef) by (apply Hkeys; simpl; intuition discriminate).
  unfold set_post.
  rewrite !get_set_other by discriminate. rewrite get_set_same.
  rewrite Hid, Hauthor, Hcreated.
  rewrite (set_text_shape _ _ Htitle), (set_text_shape _ _ Hslug),
    (set_text_shape _ _ Hcontent), (set_text_shape _ _ Htype),
    (set_text_shape _ _ Hstatus), (set_nullable_text_shape _ _ Hexcerpt),
    (set_nullable_text_shape _ _ Himage).
  reflexivity.
Qed.

Lemma map_rows_total {A : Type} (f : A -> option A) (g : A -> A) (l : list A) :
  (forall x, In x l -> f x = Some (g x)) -> map_rows f l = Some (map g l).
Proof.
  induction l as [| x l IH]; simpl; intros H; [reflexivity |].
  rewrite (H x) by now left. rewrite IH by (intros y Hy; apply H; now right).
  reflexivity.
Qed.

Lemma existsb_false_intro {A : Type} (f : A -> bool) (l : list A) :
  (forall x, In x l -> f x = false) -> existsb f l = false.
Proof.
  induction l as [| x l IH]; simpl; intros H; [reflexivity |].
  rewrite (H x) by now left. apply IH. intros y Hy. apply H. now right.
Qed.

Lemma update_post_accepted P body data now d pid :
  safeParse P postUpdateSchema body = Valid data ->
  (forall q r, In q (posts d) -> In r (posts d) -> post_id q = pid -> post_id r <> pid ->
               post_slug r <> new_text (prop "slug" data) (post_slug q)) ->
  (foreign_keys P = true -> authors_exist d) ->
  update_post P (set "updatedAt" (VDate now) (fields_of data)) (Int pid) d
  = (Ok tt, with_posts d (rewritten_posts data now pid (posts d)) (seq_posts d)).
Proof.
  intros Hvalid Hfree Hfk.
  unfold update_post, eq_num.
  rewrite (map_rows_total _ (fun q => if post_id q =? pid then updated_post data now q else q)).
  2:{ intros q _. destruct (post_id q =? pid); [| reflexivity].
      eapply set_post_accepted; eauto. }
  fold (rewritten_posts data now pid (posts d)).
  rewrite existsb_false_intro.
  2:{ intros q Hq. destruct (post_id q =? pid) eqn:Hhit; [simpl | reflexivity].
      rewrite (set_post_accepted P body data now q Hvalid).
      apply existsb_false_intro. intros r' Hr'.
      unfold rewritten_posts in Hr'. apply in_map_iff in Hr' as (r & <- & Hr).
      apply Z.eqb_eq in Hhit.
      destruct (post_id r =? pid) eqn:Hr_hit.
      - simpl. rewrite Hhit. apply Z.eqb_eq in Hr_hit. rewrite Hr_hit.
        rewrite Z.eqb_refl. reflexivity.
      - apply andb_false_iff. right. apply String.eqb_neq.
        apply Z.eqb_neq in Hr_hit. simpl. eapply Hfree; eauto. }
  destruct (foreign_keys P) eqn:Hflag; [| reflexivity].
  rewrite existsb_false_intro; [reflexivity |].
  intros q Hq. destruct (post_id q =? pid); [simpl | reflexivity].
  rewrite (set_post_accepted P body data now q Hvalid). simpl.
  rewrite (Hfk eq_refl q Hq). reflexivity.
Qed.

Lemma find_post_by_id_some d pid p :
  find_post_by_id d (Int pid) = Some p -> In p (posts d) /\ post_id p = pid.
Proof.
  intros H. apply find_some in H as [Hin Hid]. split; [exact Hin |].
  simpl in Hid. now apply Z.eqb_eq.
Qed.

Lemma updatePost_by_owner P req d caller id pid p body data :
  req_user req = Some caller -> req_id req = Some id -> id <> EmptyString ->
  js_parseInt P id = Int pid -> find_post_by_id d (Int pid) = Some p ->
  owner_or_admin caller p = true ->
  req_body req = Some body ->
  safeParse P postUpdateSchema body = Valid data ->
  truthy (prop "categoryIds" body) = false ->
  (forall s, prop "slug" data = VStr s -> s <> post_slug p -> find_post_by_slug d s = None) ->
  unique_slugs d ->
  (foreign_keys P = true -> authors_exist d) ->
  let d' := with_posts d (rewritten_posts data (req_now req) pid (posts d)) (seq_posts d) in
  updatePost P req d =
    (createAPIResponse 200 true "Post updated successfully"
       (postWithCategories d' (Int pid)) None, d').
Proof.
  intros Huser Hid Hne Hparse Hfind Hown Hbody Hvalid Hcats Hslug Huniq Hfk d'.
  destruct (id_missing_false _ _ Hid Hne) as [Hmiss Htext].
  destruct (find_post_by_id_some _ _ _ Hfind) as [Hp_in Hp_id].
  assert (Hupd : update_post P (set "updatedAt" (VDate (req_now req)) (fields_of data)) (Int pid) d
                 = (Ok tt, d')).
  { eapply update_post_accepted; eauto.
    intros q r Hq Hr Hq_id Hr_id Heq.
    destruct (update_data_slug P body data Hvalid) as [Hs | (s & Hs & _)];
      rewrite Hs in Heq; simpl in Heq.
    - apply Hr_id. rewrite <- Hq_id. now apply Huniq.
    - destruct (String.eqb_spec s (post_slug p)) as [Hsame | Hdiff].
      + apply Hr_id. rewrite <- Hp_id. apply Huniq; auto. congruence.
      + specialize (Hslug s Hs Hdiff). unfold find_post_by_slug in Hslug.
        pose proof (find_none _ _ Hslug r Hr) as Hno. simpl in Hno.
        rewrite Heq, String.eqb_refl in Hno. discriminate. }
  unfold updatePost. unfold_handlers.
  rewrite Huser, Hmiss, Htext, Hparse, Hbody. simpl.
  rewrite Hvalid. simpl.
  rewrite (update_data_slug_check P body data Hvalid). simpl.
  rewrite Hfind, owner_or_admin_guard, Hown. simpl.
  unfold fields_of in Hupd.
  destruct (update_data_slug P body data Hvalid) as [Hs | (s & Hs & _)]; rewrite Hs; simpl.
  - rewrite Hupd, Hcats. reflexivity.
  - destruct (negb (is_empty s)); simpl; [| rewrite Hupd, Hcats; reflexivity].
    destruct (String.eqb_spec s (post_slug p)) as [Hsame | Hdiff]; simpl;
      [rewrite Hupd, Hcats; reflexivity |].
    rewrite (Hslug s Hs Hdiff). rewrite Hupd, Hcats. reflexivity.
Qed.

Ltac split_inner x :=
  match x with
  | context [match ?y with _ => _ end] => split_inner y
  | _ => destruct x eqn:?
  end.

Ltac split_cases :=
  repeat (simpl;
          match goal with
          | |- context [match ?x with _ => _ end] => split_inner x
          end).

Lemma update_post_no_return P changes n d r d' :
  update_post P changes n d <> (Return r, d').
Proof. unfold update_post. split_cases; discriminate. Qed.

Lemma insert_postCategories_no_return P rows d r d' :
  insert_postCategories P rows d <> (Return r, d').
Proof. unfold insert_postCategories. split_cases; discriminate. Qed.

Ltac no_return :=
  match goal with
  | H : update_post _ _ _ _ = (Return _, _) |- _ =>
      exfalso; exact (update_post_no_return _ _ _ _ _ _ H)
  | H : insert_postCategories _ _ _ = (Return _, _) |- _ =>
      exfalso; exact (insert_postCategories_no_return _ _ _ _ _ H)
  end.

Lemma updatePost_owner_passes P req d caller id pid p :
  req_user req = Some caller -> req_id req = Some id -> id <> EmptyString ->
  js_parseInt P id = Int pid -> find_post_by_id d (Int pid) = Some p ->
  owner_or_admin caller p = true ->
  status (fst (updatePost P req d)) <> 403.
Proof.
  intros Huser Hid Hne Hparse Hfind Hown.
  destruct (id_missing_false _ _ Hid Hne) as [Hmiss Htext].
  unfold updatePost, catch_reported, isZodError. unfold_handlers.
  rewrite Huser, Hmiss, Htext, Hparse.
  destruct (req_body req) as [body |]; simpl; [| discriminate].
  destruct (safeParse P postUpdateSchema body) as [data | issues] eqn:Hp; simpl;
    [| discriminate].
  rewrite (update_data_slug_check P body data Hp). simpl.
  rewrite Hfind, owner_or_admin_guard, Hown. simpl.
  split_cases; simpl; try discriminate; no_return.
Qed.

(** C1 as stated fails for PATCH: [updatePost] validates the body before
    it looks the post up, so another editor who sends a body that the
    schema refuses is answered 400, not 403. *)
Lemma updatePost_validates_before_ownership :
  let P := Demo.platform false false in
  let req := Demo.with_body (Demo.at_id (Demo.as_user (Demo.anonymous 300) Demo.bob) "1")
               (VObj [ ("slug", VStr "Bad Slug") ]) in
  exists p,
    find_post_by_id Demo.seeded (Int 1) = Some p /\
    owner_or_admin Demo.bob p = false /\
    status (fst (updatePost P req Demo.seeded)) = 400.
Proof. eexists. split; [| split]; vm_compute; reflexivity. Qed.

(** C1 (amended): on an authenticated PATCH or DELETE of an existing
    post, the author and every admin pass the ownership check: DELETE
    removes the post and answers 200; PATCH is never answered 403, and
    with an accepted body that sends no category list and no slug of
    another post it rewrites the row and answers 200 (on a database with
    unique slugs and, under foreign keys, existing authors). For any other
    caller who is not an admin the database is left as it was; DELETE is
    answered 403, and PATCH is answered 403 when the body passes
    validation, 400 when it does not, and 500 when it is not JSON. *)
Theorem post_mutation_is_for_owner_or_admin
  (P : Platform) (req : request) (d : db)
  (caller : AuthUser) (id : string) (pid : Z) (p : post) :
  req_user req = Some caller ->
  req_id req = Some id -> id <> EmptyString ->
  js_parseInt P id = Int pid ->
  find_post_by_id d (Int pid) = Some p ->
  (owner_or_admin caller p = true ->
   (status (fst (deletePost P req d)) = 200 /\
    find_post_by_id (snd (deletePost P req d)) (Int pid) = None) /\
   status (fst (updatePost P req d)) <> 403 /\
   (forall body data,
       req_body req = Some body ->
       safeParse P postUpdateSchema body = Valid data ->
       truthy (prop "categoryIds" body) = false ->
       (forall s, prop "slug" data = VStr s -> s <> post_slug p ->
                  find_post_by_slug d s = None) ->
       unique_slugs d ->
       (foreign_keys P = true -> authors_exist d) ->
       status (fst (updatePost P req d)) = 200 /\
       posts (snd (updatePost P req d))
       = rewritten_posts data (req_now req) pid (posts d))) /\
  (owner_or_admin caller p = false ->
   (status (fst (deletePost P req d)) = 403 /\ snd (deletePost P req d) = d) /\
   snd (updatePost P req d) = d /\
   status (fst (updatePost P req d)) =
     match req_body req with
     | None => 500
     | Some body =>
         match safeParse P postUpdateSchema body with
         | Valid _ => 403
         | Invalid _ => 400
         end
     end).
Proof.
  intros Huser Hid Hne Hparse Hfind.
  pose proof (deletePost_run P req d caller id pid p Huser Hid Hne Hparse Hfind) as Hdel.
  split; intros Hown; rewrite Hown in Hdel; rewrite Hdel.
  - split; [| split].
    + split; [reflexivity |]. simpl. unfold find_post_by_id. simpl.
      apply (find_filter_negb (fun q => post_id q =? pid)).
    + eapply updatePost_owner_passes; eauto.
    + intros body data Hbody Hvalid Hcats Hslug Huniq Hfk.
      rewrite (updatePost_by_owner P req d caller id pid p body data); auto.
  - split; [split; reflexivity |].
    eapply updatePost_forbidden; eauto.
Qed.

Lemma post_mutation_is_for_owner_or_admin_witness :
  let P := Demo.platform false true in
  let by_bob := Demo.with_body (Demo.at_id (Demo.as_user (Demo.anonymous 300) Demo.bob) "1")
                  (VObj [ ("title", VStr "Hacked") ]) in
  let by_root := Demo.with_body (Demo.at_id (Demo.as_user (Demo.anonymous 300) Demo.root) "1")
                   (VObj [ ("title", VStr "Edited") ]) in
  (status (fst (updatePost P by_bob Demo.seeded)) = 403 /\
   snd (updatePost P by_bob Demo.seeded) = Demo.seeded /\
   status (fst (deletePost P by_bob Demo.seeded)) = 403) /\
  (status (fst (updatePost P by_root Demo.seeded)) <> 403 /\
   status (fst (deletePost P by_root Demo.seeded)) = 200).
Proof.
  intros P by_bob by_root.
  assert (Hfind : exists p, find_post_by_id Demo.seeded (Int 1) = Some p /\
                            owner_or_admin Demo.bob p = false /\
                            owner_or_admin Demo.root p = true)
    by (eexists; split; [| split]; vm_compute; reflexivity).
  destruct Hfind as (p & Hfind & Hbob & Hroot).
  split.
  - destruct (post_mutation_is_for_owner_or_admin P by_bob Demo.seeded
                Demo.bob "1" 1 p eq_refl eq_refl ltac:(discriminate) eq_refl Hfind)
      as [_ Hother].
    destruct (Hother Hbob) as ((Hdel & _) & Hsame & Hstatus).
    split; [exact Hstatus | split; [exact Hsame | exact Hdel]].
  - destruct (post_mutation_is_for_owner_or_admin P by_root Demo.seeded
                Demo.root "1" 1 p eq_refl eq_refl ltac:(discriminate) eq_refl Hfind)
      as [Howner _].
    destruct (Howner Hroot) as ((Hdel & _) & Hpass & _).
    split; [exact Hpass | exact Hdel].
Defined.

(* ------------------------------------------------------------------ *)
(** ** Changing a post: what is written *)

Lemma find_never {A : Type} (l : list A) : find (fun _ => false) l = None.
Proof. induction l; simpl; auto. Qed.

Lemma map_rows_accepted P body data now pid rows rows' :
  safeParse P postUpdateSchema body = Valid data ->
  map_rows (fun p => if post_id p =? pid
                     then set_post (set "updatedAt" (VDate now) (fields_of data)) p
                     else Some p) rows = Some rows' ->
  rows' = rewritten_posts data now pid rows.
Proof.
  intros Hvalid H.
  rewrite (map_rows_total _ (fun q => if post_id q =? pid then updated_post data now q else q)) in H.
  - now inversion H.
  - intros q _. destruct (post_id q =? pid); [| reflexivity].
    eapply set_post_accepted; eauto.
Qed.

Lemma updatePost_written P req d :
  (status (fst (updatePost P req d)) <> 200 /\
   posts (snd (updatePost P req d)) = posts d) \/
  exists body data pid,
    req_body req = Some body /\
    safeParse P postUpdateSchema body = Valid data /\
    js_parseInt P (id_text (req_id req)) = Int pid /\
    posts (snd (updatePost P req d)) = rewritten_posts data (req_now req) pid (posts d).
Proof.
  unfold updatePost, catch_reported, isZodError. unfold_handlers.
  destruct (req_user req) as [caller |]; simpl; [| left; split; [discriminate | reflexivity]].
  destruct (id_missing (req_id req)); simpl; [left; split; [discriminate | reflexivity] |].
  destruct (req_body req) as [body |] eqn:Hbody; simpl;
    [| left; split; [discriminate | reflexivity]].
  destruct (safeParse P postUpdateSchema body) as [data | issues] eqn:Hvalid; simpl;
    [| left; split; [discriminate | reflexivity]].
  rewrite (update_data_slug_check P body data Hvalid). simpl.
  destruct (js_parseInt P (id_text (req_id req))) as [pid | |] eqn:Hn;
    try (unfold find_post_by_id; simpl; rewrite find_never; simpl;
         left; split; [discriminate | reflexivity]).
  destruct (find_post_by_id d (Int pid)) as [existing |]; simpl;
    [| left; split; [discriminate | reflexivity]].
  destruct (_ && _)%bool; simpl; [left; split; [discriminate | reflexivity] |].
  destruct (_ && _)%bool; simpl;
    [destruct (find_post_by_slug d _); simpl;
     [left; split; [discriminate | reflexivity] |] |].
  all: unfold update_post, insert_postCategories, delete_postCategories_of, eq_num.
  all: change (match data with VObj fields => fields | _ => [] end) with (fields_of data).
  all: destruct (map_rows _ (posts d)) as [rows |] eqn:Hrows;
    [ apply (map_rows_accepted P body data _ pid _ _ Hvalid) in Hrows;
      assert (Hgoal : exists body0 data0 pid0,
                 Some body = Some body0 /\
                 safeParse P postUpdateSchema body0 = Valid data0 /\
                 Int pid = Int pid0 /\
                 rows = rewritten_posts data0 (req_now req) pid0 (posts d))
        by (exists body, data, pid; auto);
      clear Hrows Hvalid;
      split_cases; simpl;
      first [ solve [right; exact Hgoal] | left; split; [discriminate | reflexivity] ]
    | split_cases; simpl; left; split; [discriminate | reflexivity] ].
Qed.

Lemma rewritten_posts_column {A : Type} (column : post -> A)
      (data : value) (now pid : Z) (rows : list post) :
  (forall q, column (updated_post data now q) = column q) ->
  map column (rewritten_posts data now pid rows) = map column rows.
Proof.
  intros H. unfold rewritten_posts. rewrite map_map. apply map_ext.
  intros q. destruct (post_id q =? pid); auto.
Qed.

Lemma update_data_absent (P : Platform) (body data : value) (k : string) :
  zod4 P = false ->
  safeParse P postUpdateSchema body = Valid data ->
  prop k body = VUndef -> prop k data = VUndef.
Proof.
  intros Hzod H Habsent.
  apply postUpdateSchema_object in H as (fields & out & -> & -> & Hval & Hkeys).
  simpl in *.
  destruct (in_dec string_dec k
              ["title"; "slug"; "content"; "contentType"; "excerpt"; "status";
               "featuredImage"]) as [Hin | Hout]; [| auto].
  assert (Hfield : forall s, In (k, z_optional s)
                     (map (fun ks => (fst ks, z_optional (snd ks)))
                        [ ("title", z_string [SMin 1; SMax 200]);
                          ("slug", z_string [SRegex validateSlug]);
                          ("content", z_string [SMin 1]);
                          ("contentType", z_default postContentTypeSchema (VStr "markdown"));
                          ("excerpt", z_optional (z_string [SMax 500]));
                          ("status", z_default postStatusSchema (VStr "draft"));
                          ("featuredImage", z_optional (z_string [SUrl])) ]) ->
                   get k out = VUndef).
  { intros s Hs. specialize (Hval k (z_optional s) Hs).
    rewrite Habsent in Hval. simpl in Hval. rewrite Hzod in Hval. simpl in Hval.
    now inversion Hval. }
  simpl in Hin, Hfield.
  repeat (destruct Hin as [<- | Hin]; [eapply Hfield; tauto |]).
  contradiction.
Qed.

Lemma updatePost_keeps_ids (P : Platform) (req : request) (d : db) :
  map post_id (posts (snd (updatePost P req d))) = map post_id (posts d).
Proof.
  destruct (updatePost_written P req d)
    as [[_ Hsame] | (body & data & pid & _ & _ & _ & Hnew)].
  - now rewrite Hsame.
  - rewrite Hnew. apply rewritten_posts_column. reflexivity.
Qed.

(** C10: whatever [updatePost] answers, the columns [id], [authorId] and
    [createdAt] of the posts table are as they were: the body goes through
    the partial insert schema, which has no such field, before it reaches
    [.set()]. When it answers 200 the row of the post holds the validated
    fields of the body and the clock reading in [updatedAt], and nothing
    else is changed. With Zod 3 a field of the schema that the body leaves
    out is not written either. *)
Theorem updatePost_keeps_author_and_creation (P : Platform) (req : request) (d : db) :
  (map post_id (posts (snd (updatePost P req d))) = map post_id (posts d) /\
   map post_authorId (posts (snd (updatePost P req d))) = map post_authorId (posts d) /\
   map post_createdAt (posts (snd (updatePost P req d))) = map post_createdAt (posts d)) /\
  (status (fst (updatePost P req d)) = 200 ->
   exists body data pid,
     req_body req = Some body /\
     safeParse P postUpdateSchema body = Valid data /\
     js_parseInt P (id_text (req_id req)) = Int pid /\
     posts (snd (updatePost P req d)) = rewritten_posts data (req_now req) pid (posts d)) /\
  (zod4 P = false ->
   forall body, req_body req = Some body ->
     (prop "title" body = VUndef ->
      map post_title (posts (snd (updatePost P req d))) = map post_title (posts d)) /\
     (prop "slug" body = VUndef ->
      map post_slug (posts (snd (updatePost P req d))) = map post_slug (posts d)) /\
     (prop "content" body = VUndef ->
      map post_content (posts (snd (updatePost P req d))) = map post_content (posts d)) /\
     (prop "contentType" body = VUndef ->
      map post_contentType (posts (snd (updatePost P req d)))
      = map post_contentType (posts d)) /\
     (prop "excerpt" body = VUndef ->
      map post_excerpt (posts (snd (updatePost P req d))) = map post_excerpt (posts d)) /\
     (prop "status" body = VUndef ->
      map post_status (posts (snd (updatePost P req d))) = map post_status (posts d)) /\
     (prop "featuredImage" body = VUndef ->
      map post_featuredImage (posts (snd (updatePost P req d)))
      = map post_featuredImage (posts d))).
Proof.
  destruct (updatePost_written P req d)
    as [[Hnot Hsame] | (body & data & pid & Hbody & Hvalid & Hpid & Hnew)].
  - rewrite Hsame. split; [repeat split; reflexivity |].
    split; [intros Hok; contradiction | repeat split; reflexivity].
  - split; [| split].
    + rewrite Hnew. repeat split; apply rewritten_posts_column; reflexivity.
    + intros _. exists body, data, pid. auto.
    + rewrite Hnew.
      intros Hzod body' Hbody'. rewrite Hbody in Hbody'. inversion Hbody'; subst body'.
      repeat split; intros Habsent; apply rewritten_posts_column; intros q; simpl;
        rewrite (update_data_absent P body data _ Hzod Hvalid Habsent); reflexivity.
Qed.

Lemma updatePost_keeps_author_and_creation_witness :
  let P := Demo.platform false false in
  let req := Demo.with_body (Demo.at_id (Demo.as_user (Demo.anonymous 300) Demo.alice) "1")
               (VObj [ ("title", VStr "New"); ("authorId", VNum (Int 2));
                       ("createdAt", VNum (Int 0)) ]) in
  status (fst (updatePost P req Demo.seeded)) = 200 /\
  map post_title (posts (snd (updatePost P req Demo.seeded)))
  = ["New"; "Second Post"; "Third Post"] /\
  map post_authorId (posts (snd (updatePost P req Demo.seeded))) = [1; 1; 1] /\
  map post_status (posts (snd (updatePost P req Demo.seeded)))
  = ["published"; "draft"; "published"].
Proof.
  intros P req.
  destruct (updatePost_keeps_author_and_creation P req Demo.seeded)
    as ((_ & Hauthor & _) & _ & Hrest).
  destruct (Hrest eq_refl _ eq_refl) as (_ & _ & _ & _ & _ & Hstatus & _).
  split; [vm_compute; reflexivity | split; [vm_compute; reflexivity | split]].
  - rewrite Hauthor. reflexivity.
  - rewrite Hstatus; reflexivity.
Defined.

(** With Zod 4 the same request writes the defaults of the fields it
    leaves out: a published post falls back to a draft. *)
Example updatePost_zod4_writes_defaults :
  let P := Demo.platform true false in
  let req := Demo.with_body (Demo.at_id (Demo.as_user (Demo.anonymous 300) Demo.alice) "1")
               (VObj [ ("title", VStr "New") ]) in
  map post_status (posts Demo.seeded) = ["published"; "draft"; "published"] /\
  map post_status (posts (snd (updatePost P req Demo.seeded)))
  = ["draft"; "draft"; "published"].
Proof. split; vm_compute; reflexivity. Qed.

(* ------------------------------------------------------------------ *)
(** ** Posts and their associations *)

Lemma rows_for_postId pid items rows :
  rows_for pid items = Some rows -> forall r, In r rows -> pc_postId r = pid.
Proof.
  revert rows. induction items as [| x items IH]; simpl; intros rows H r Hr.
  - inversion H; subst. contradiction.
  - destruct x; try discriminate. destruct n; try discriminate.
    destruct (rows_for pid items) as [rows' |]; simpl in H; [| discriminate].
    inversion H; subst. destruct Hr as [<- | Hr]; [reflexivity | eauto].
Qed.

Lemma createPost_effect P req d : created d (snd (createPost P req d)).
Proof.
  unfold created, createPost, insert_post, insert_postCategories, association_rows.
  unfold_handlers.
  split_cases; simpl;
    first [ solve [left; split; reflexivity]
          | solve [right; eexists; split; [reflexivity | left; reflexivity]]
          | right; eexists; split; [reflexivity |];
            right; eexists; split; [reflexivity |];
            simpl; eapply rows_for_postId; eassumption ].
Qed.

Lemma updatePost_associations P req d :
  postCategories (snd (updatePost P req d)) = postCategories d \/
  exists pid existing,
    js_parseInt P (id_text (req_id req)) = Int pid /\
    find_post_by_id d (Int pid) = Some existing /\
    reassociated pid d (snd (updatePost P req d)).
Proof.
  unfold updatePost. unfold_handlers.
  destruct (req_user req) as [caller |]; simpl; [| now left].
  destruct (id_missing (req_id req)); simpl; [now left |].
  destruct (req_body req) as [body |] eqn:Hbody; simpl; [| now left].
  destruct (safeParse P postUpdateSchema body) as [data | issues] eqn:Hvalid; simpl; [| now left].
  rewrite (update_data_slug_check P body data Hvalid). simpl.
  destruct (js_parseInt P (id_text (req_id req))) as [pid | |] eqn:Hn;
    try (unfold find_post_by_id; simpl; rewrite find_never; simpl; now left).
  destruct (find_post_by_id d (Int pid)) as [existing |] eqn:Hfind; simpl; [| now left].
  destruct (_ && _)%bool; simpl; [now left |].
  destruct (_ && _)%bool; simpl;
    [destruct (find_post_by_slug d _); simpl; [now left |] |].
  all: unfold update_post, insert_postCategories, delete_postCategories_of, association_rows,
         eq_num, reassociated.
  all: clear Hvalid; destruct (map_rows _ (posts d)) as [rows |] eqn:Hrows; clear Hrows.
  all: split_cases; simpl;
    first [ solve [left; reflexivity]
          | right; exists pid, existing; split; [reflexivity |]; split; [eassumption |];
            first [ exists []; split; [now rewrite app_nil_r | intros r []]
                  | eexists; split; [reflexivity |]; eapply rows_for_postId; eassumption ] ].
Qed.

Lemma deletePost_outcome P req d :
  (status (fst (deletePost P req d)) <> 200 /\ snd (deletePost P req d) = d) \/
  exists pid,
    js_parseInt P (id_text (req_id req)) = Int pid /\
    status (fst (deletePost P req d)) = 200 /\
    posts (snd (deletePost P req d)) = filter (fun q => negb (post_id q =? pid)) (posts d) /\
    postCategories (snd (deletePost P req d))
    = filter (fun pc => negb (pc_postId pc =? pid)) (postCategories d).
Proof.
  destruct (req_user req) as [caller |] eqn:Huser.
  2:{ left. unfold deletePost. unfold_handlers. rewrite Huser. simpl. split; [discriminate | reflexivity]. }
  destruct (req_id req) as [[| c id] |] eqn:Hid;
    try (left; unfold deletePost; unfold_handlers; rewrite Huser, Hid; simpl;
         split; [discriminate | reflexivity]).
  destruct (js_parseInt P (String c id)) as [pid | |] eqn:Hn;
    try (left; unfold deletePost; unfold_handlers; rewrite Huser, Hid; simpl; rewrite Hn;
         unfold find_post_by_id; simpl; rewrite find_never; simpl;
         split; [discriminate | reflexivity]).
  destruct (find_post_by_id d (Int pid)) as [p |] eqn:Hfind.
  2:{ left. unfold deletePost. unfold_handlers. rewrite Huser, Hid. simpl. rewrite Hn, Hfind.
      simpl. split; [discriminate | reflexivity]. }
  rewrite (deletePost_run P req d caller (String c id) pid p Huser Hid ltac:(discriminate) Hn Hfind).
  destruct (owner_or_admin caller p); [right | left; simpl; split; [discriminate | reflexivity]].
  exists pid. simpl. rewrite Hn. repeat split; reflexivity.
Qed.

Ltac frame_by_cases :=
  unfold untouched; unfold_handlers; split_cases; simpl; split; reflexivity.

Lemma register_frame P req d : untouched d (snd (register P req d)).
Proof. unfold register, insert_user. frame_by_cases. Qed.

Lemma login_frame P E req d : untouched d (snd (login P E req d)).
Proof. unfold login. frame_by_cases. Qed.

Lemma changePassword_frame P req d : untouched d (snd (changePassword P req d)).
Proof. unfold changePassword, update_user_password. frame_by_cases. Qed.

Lemma getProfile_frame req d : untouched d (snd (getProfile req d)).
Proof. unfold getProfile. frame_by_cases. Qed.

Lemma getPosts_frame P req d : untouched d (snd (getPosts P req d)).
Proof. unfold getPosts. unfold untouched; unfold_handlers.
  destruct (safeParse P postsQuerySchema _); simpl; split; reflexivity. Qed.

Lemma getPost_frame P req d : untouched d (snd (getPost P req d)).
Proof. unfold getPost. frame_by_cases. Qed.

Lemma createCategory_frame P req d : untouched d (snd (createCategory P req d)).
Proof. unfold createCategory, insert_category. frame_by_cases. Qed.

Lemma updateCategory_frame P req d : untouched d (snd (updateCategory P req d)).
Proof. unfold updateCategory, update_category. frame_by_cases. Qed.

Lemma deleteCategory_frame P req d : untouched d (snd (deleteCategory P req d)).
Proof. unfold deleteCategory, delete_category. frame_by_cases. Qed.

Lemma in_map_post_id (rows rows' : list post) (x : Z) :
  map post_id rows' = map post_id rows ->
  (exists p, In p rows /\ post_id p = x) ->
  exists p', In p' rows' /\ post_id p' = x.
Proof.
  intros Hmap (p & Hin & Hid).
  assert (Hx : In x (map post_id rows')).
  { rewrite Hmap, <- Hid. now apply in_map. }
  apply in_map_iff in Hx as (p' & Hid' & Hin'). eauto.
Qed.

Lemma untouched_keeps_associations (d d' : db) :
  untouched d d' -> associations_have_posts d -> associations_have_posts d'.
Proof.
  intros [Hposts Hpcs] H pc Hin. rewrite Hposts. rewrite Hpcs in Hin. auto.
Qed.

Lemma created_keeps_associations (d d' : db) :
  created d d' -> associations_have_posts d -> associations_have_posts d'.
Proof.
  intros [Hsame | (p & Hposts & Hpcs)] H.
  - now apply (untouched_keeps_associations d d').
  - intros pc Hin. rewrite Hposts.
    assert (Hold : In pc (postCategories d) ->
                   exists q, In q (posts d ++ [p]) /\ post_id q = pc_postId pc).
    { intros Hpc. destruct (H pc Hpc) as (q & Hq & Hid).
      exists q. split; [apply in_or_app; now left | exact Hid]. }
    destruct Hpcs as [Hpcs | (rows & Hpcs & Hrows)]; rewrite Hpcs in Hin; [auto |].
    apply in_app_or in Hin as [Hin | Hin]; [auto |].
    exists p. split; [apply in_or_app; right; now left |].
    symmetry. now apply Hrows.
Qed.

Lemma reassociated_keeps_associations (d d' : db) (pid : Z) (existing : post) :
  map post_id (posts d') = map post_id (posts d) ->
  find_post_by_id d (Int pid) = Some existing ->
  reassociated pid d d' ->
  associations_have_posts d -> associations_have_posts d'.
Proof.
  intros Hids Hfind (rows & Hpcs & Hrows) H pc Hin.
  apply (in_map_post_id (posts d) (posts d') _ Hids).
  rewrite Hpcs in Hin. apply in_app_or in Hin as [Hin | Hin].
  - apply filter_In in Hin as [Hin _]. auto.
  - destruct (find_post_by_id_some _ _ _ Hfind) as [Hex Hid].
    exists existing. split; [exact Hex |]. rewrite (Hrows pc Hin). exact Hid.
Qed.

Lemma deleted_keeps_associations (d d' : db) (pid : Z) :
  posts d' = filter (fun q => negb (post_id q =? pid)) (posts d) ->
  postCategories d' = filter (fun pc => negb (pc_postId pc =? pid)) (postCategories d) ->
  associations_have_posts d -> associations_have_posts d'.
Proof.
  intros Hposts Hpcs H pc Hin. rewrite Hpcs in Hin.
  apply filter_In in Hin as [Hin Hkeep].
  destruct (H pc Hin) as (p & Hp & Hid).
  exists p. split; [| exact Hid].
  rewrite Hposts. apply filter_In. split; [exact Hp |]. now rewrite Hid.
Qed.

(** C8: after a successful [deletePost] no association row names the
    deleted post, and the post is gone; the rows go first, so the delete
    succeeds with foreign keys enforced as well. Every operation of the
    API, run to completion, keeps every association row on a post that
    exists. *)
Theorem associations_always_name_a_post
  (P : Platform) (E : Env) (op : operation) (req : request) (d : db) :
  (status (fst (deletePost P req d)) = 200 ->
   exists pid,
     js_parseInt P (id_text (req_id req)) = Int pid /\
     (forall pc, In pc (postCategories (snd (deletePost P req d))) -> pc_postId pc <> pid) /\
     find_post_by_id (snd (deletePost P req d)) (Int pid) = None) /\
  (associations_have_posts d ->
   associations_have_posts (snd (controller P E op req d))).
Proof.
  split.
  - intros Hok.
    destruct (deletePost_outcome P req d) as [[Hnot _] | (pid & Hn & _ & Hposts & Hpcs)];
      [contradiction |].
    exists pid. split; [exact Hn |]. split.
    + intros pc Hin. rewrite Hpcs in Hin. apply filter_In in Hin as [_ Hkeep].
      apply negb_true_iff in Hkeep. now apply Z.eqb_neq.
    + unfold find_post_by_id. rewrite Hposts. simpl.
      apply (find_filter_negb (fun q => post_id q =? pid)).
  - intros H. destruct op; simpl.
    + exact (untouched_keeps_associations _ _ (register_frame P req d) H).
    + exact (untouched_keeps_associations _ _ (login_frame P E req d) H).
    + exact (untouched_keeps_associations _ _ (getProfile_frame req d) H).
    + exact (untouched_keeps_associations _ _ (changePassword_frame P req d) H).
    + exact (untouched_keeps_associations _ _ (getPosts_frame P req d) H).
    + exact (untouched_keeps_associations _ _ (getPost_frame P req d) H).
    + exact (created_keeps_associations _ _ (createPost_effect P req d) H).
    + pose proof (updatePost_keeps_ids P req d) as Hids.
      destruct (updatePost_associations P req d) as [Hsame | (pid & existing & _ & Hfind & Hre)].
      * intros pc Hin. rewrite Hsame in Hin.
        apply (in_map_post_id (posts d) _ _ Hids). auto.
      * exact (reassociated_keeps_associations _ _ pid existing Hids Hfind Hre H).
    + destruct (deletePost_outcome P req d) as [[_ Hsame] | (pid & _ & _ & Hposts & Hpcs)].
      * now rewrite Hsame.
      * exact (deleted_keeps_associations _ _ pid Hposts Hpcs H).
    + exact (untouched_keeps_associations _ _ (createCategory_frame P req d) H).
    + exact (untouched_keeps_associations _ _ (updateCategory_frame P req d) H).
    + exact (untouched_keeps_associations _ _ (deleteCategory_frame P req d) H).
Qed.

Lemma seeded_associations_have_posts : associations_have_posts Demo.seeded.
Proof.
  intros pc Hin. unfold Demo.seeded, postCategories in Hin.
  destruct Hin as [<- | []].
  eexists. split; [left; reflexivity | reflexivity].
Defined.

Lemma associations_always_name_a_post_witness :
  let P := Demo.platform false true in
  let req := Demo.at_id (Demo.as_user (Demo.anonymous 300) Demo.alice) "1" in
  postCategories Demo.seeded = [ {| pc_postId := 1; pc_categoryId := 1 |} ] /\
  (forall pc, In pc (postCategories (snd (deletePost P req Demo.seeded))) ->
              pc_postId pc <> 1) /\
  associations_have_posts (snd (controller P Demo.env DELETE_posts_id req Demo.seeded)).
Proof.
  intros P req.
  destruct (associations_always_name_a_post P Demo.env DELETE_posts_id req Demo.seeded)
    as [Hdel Hinv].
  split; [reflexivity | split].
  - destruct Hdel as (pid & Hpid & Hnone & _); [vm_compute; reflexivity |].
    assert (Hone : pid = 1) by (vm_compute in Hpid; now inversion Hpid).
    rewrite <- Hone. exact Hnone.
  - exact (Hinv seeded_associations_have_posts).
Defined.

(* ------------------------------------------------------------------ *)
(** ** Listing posts: pages *)

Section OrderBy.

Context {A : Type} (leb : A -> A -> bool).
Hypothesis leb_total : forall a b, leb a b = true \/ leb b a = true.





End OrderBy.










(* ------------------------------------------------------------------ *)
(** ** Listing posts: search *)


Lemma like_match_char (c : ascii) (p s : string) :
  Ascii.eqb c "%"%char = false -> Ascii.eqb c "_"%char = false ->
  like_match (String c p) s
  = match s with
    | EmptyString => false
    | String d s' => (Chars.eqb_nocase c d && like_match p s')%bool
    end.
Proof. intros H1 H2. simpl. rewrite H1, H2. reflexivity. Qed.





Lemma append_empty_r (s : string) : s ++ "" = s.
Proof. induction s; simpl; congruence. Qed.

Lemma append_assoc (a b c : string) : (a ++ b) ++ c = a ++ (b ++ c).
Proof. induction a; simpl; congruence. Qed.












(** A keyword goes into the LIKE pattern as it is: [_] and [%] in it are
    wildcards, and letters match in either case. *)
Example search_keyword_is_a_like_pattern :
  passes_search "h_llo" sample_post = true /\
  is_substring "h_llo" (post_title sample_post) = false /\
  passes_search "WORLD" sample_post = true /\
  is_substring "WORLD" (post_content sample_post) = false.
Proof. repeat split; reflexivity. Qed.



(* ------------------------------------------------------------------ *)
(** ** Tokens *)

Lemma claims_of_payload_object (p : JWTPayload) : claims_of (payload_object p) = Some p.
Proof. destruct p; reflexivity. Qed.



Module DemoFacts.

Lemma read_write_text (s rest : string) :
  Demo.read_text (Demo.write_text s rest) = Some (s, rest).
Proof. induction s as [| c s IH]; simpl; [reflexivity | now rewrite IH]. Qed.

Lemma read_write_pos (p : positive) (rest : string) :
  Demo.read_pos (Demo.write_pos p rest) = Some (p, rest).
Proof. induction p as [q IH | q IH |]; simpl; rewrite ?IH; reflexivity. Qed.

Lemma read_write_int (z : Z) (rest : string) :
  Demo.read_int (Demo.write_int z rest) = Some (z, rest).
Proof. destruct z; simpl; rewrite ?read_write_pos; reflexivity. Qed.

Lemma verify_sign (p : JWTPayload) (secret expiresIn : string) (iat now : Z) :
  Demo.verify (Demo.sign (payload_object p) secret expiresIn iat) secret now
  = if iat + Demo.lifetime expiresIn <=? now then JwtThrows TokenExpiredError
    else JwtDecoded (decoded_payload (payload_object p) iat (Demo.lifetime expiresIn)).
Proof.
  unfold Demo.sign, Demo.verify. rewrite claims_of_payload_object.
  rewrite read_write_text, read_write_int, !read_write_text, !read_write_int.
  rewrite String.eqb_refl. simpl. destruct p; reflexivity.
Qed.

Lemma contract (v4 fk : bool) : jwt_contract (Demo.platform v4 fk).
Proof.
  split; intros p secret expiresIn iat now Hwhen; simpl in *; rewrite verify_sign.
  - destruct (Z.leb_spec (iat + Demo.lifetime expiresIn) now); [lia | reflexivity].
  - destruct (Z.leb_spec (iat + Demo.lifetime expiresIn) now); [reflexivity | lia].
Defined.

End DemoFacts.


(* ================================================================== *)
(** * Further properties *)

(* ------------------------------------------------------------------ *)
(** ** The example database *)

Lemma demo_compare_hash (v4 fk : bool) (password salt : string) :
  bcrypt_compare (Demo.platform v4 fk) password
    (bcrypt_hash (Demo.platform v4 fk) password 10 salt) = true.
Proof.
  simpl. unfold Demo.compare, Demo.hash.
  induction salt as [| c salt IH].
  - simpl. rewrite String.eqb_refl. reflexivity.
  - change (String c salt ++ "$" ++ password) with (String c (salt ++ "$" ++ password)).
    simpl. simpl in IH. rewrite IH. apply orb_true_r.
Defined.

Lemma seeded_unique_slugs : unique_slugs Demo.seeded.
Proof.
  intros a b Ha Hb. unfold Demo.seeded, posts in Ha, Hb.
  destruct Ha as [<- | [<- | [<- | []]]]; destruct Hb as [<- | [<- | [<- | []]]];
    simpl; intros H; first [reflexivity | discriminate].
Defined.

Lemma seeded_authors_exist : authors_exist Demo.seeded.
Proof.
  intros q Hq. unfold Demo.seeded, posts in Hq.
  destruct Hq as [<- | [<- | [<- | []]]]; reflexivity.
Defined.

Lemma seeded_category_ids : NoDup (map category_id (categories Demo.seeded)).
Proof.
  unfold Demo.seeded, categories. simpl.
  repeat (constructor; [simpl; intuition discriminate |]). constructor.
Defined.

Lemma reachable_after P E steps d : reachable P E d -> reachable P E (after P E steps d).
Proof.
  revert d. induction steps as [| [ep req] steps IH]; intros d H; [exact H |].
  simpl. apply IH. now apply reachable_request.
Defined.

Lemma seeded_reachable : reachable (Demo.platform false false) Demo.env Demo.seeded.
Proof.
  replace Demo.seeded
    with (after (Demo.platform false false) Demo.env
            (map (fun s => (Routed (fst s), snd s)) Demo.seeding) empty_db)
    by (vm_compute; reflexivity).
  apply reachable_after. constructor.
Defined.

(* ------------------------------------------------------------------ *)
(** ** The Authorization header *)

Lemma substring_whole (s : string) : substring 0 (String.length s) s = s.
Proof. induction s as [| c s IH]; simpl; [reflexivity | now rewrite IH]. Qed.

Lemma prefix_append (a s : string) :
  String.prefix a s = true <-> exists t, s = a ++ t.
Proof.
  revert s. induction a as [| c a IH]; intros s.
  - split; [intros _; exists s; reflexivity | intros _; destruct s; reflexivity].
  - destruct s as [| d s]; [split; [discriminate | intros [t Ht]; discriminate] |].
    change (String.prefix (String c a) (String d s))
      with (if ascii_dec c d then String.prefix a s else false).
    destruct (ascii_dec c d) as [-> | Hne].
    + rewrite IH. split; intros [t Ht]; exists t; simpl; [now rewrite Ht | now inversion Ht].
    + split; [discriminate | intros [t Ht]; inversion Ht; congruence].
Qed.

Lemma extractTokenFromHeader_of_bearer (token : string) :
  extractTokenFromHeader (Some ("Bearer " ++ token)) = Some token.
Proof.
  unfold extractTokenFromHeader. simpl.
  assert (Hp : forall t, String.prefix "" t = true) by (intros t; destruct t; reflexivity).
  rewrite Hp. simpl. now rewrite Nat.sub_0_r, substring_whole.
Qed.

(** X1: extractTokenFromHeader returns a token exactly when the
    Authorization header is the text Bearer, one space and that token: a
    missing header, an empty header or any other prefix gives null. *)
Theorem extractTokenFromHeader_bearer (authHeader : option string) (token : string) :
  extractTokenFromHeader authHeader = Some token <->
  authHeader = Some ("Bearer " ++ token).
Proof.
  split; [| intros ->; apply extractTokenFromHeader_of_bearer].
  unfold extractTokenFromHeader. destruct authHeader as [h |]; [| discriminate].
  destruct (String.prefix "Bearer " h) eqn:Hp.
  - apply prefix_append in Hp as [t ->].
    simpl. rewrite Nat.sub_0_r, substring_whole. intros H. now inversion H.
  - rewrite orb_true_r. discriminate.
Qed.

(* ------------------------------------------------------------------ *)
(** ** Handlers that only read *)

Ltac same_db := unfold_handlers; split_cases; simpl; reflexivity.

Lemma login_db P E req d : snd (login P E req d) = d.
Proof. unfold login. same_db. Qed.

Lemma getProfile_db req d : snd (getProfile req d) = d.
Proof. unfold getProfile. same_db. Qed.

Lemma getPosts_db P req d : snd (getPosts P req d) = d.
Proof.
  unfold getPosts. unfold_handlers.
  destruct (safeParse P postsQuerySchema _); reflexivity.
Qed.

Lemma getPost_db P req d : snd (getPost P req d) = d.
Proof. unfold getPost. same_db. Qed.

Lemma getCategories_db P req d : snd (getCategories P req d) = d.
Proof.
  unfold getCategories. unfold_handlers.
  destruct (safeParse P categoriesQuerySchema _); reflexivity.
Qed.

Lemma getCategory_db P req d : snd (getCategory P req d) = d.
Proof. unfold getCategory. same_db. Qed.

Lemma reading_handler_db P E ep req d :
  writes ep = false -> snd (handler P E ep req d) = d.
Proof.
  destruct ep as [| op | | |]; try reflexivity.
  - destruct op; simpl; try discriminate; intros _;
      auto using login_db, getProfile_db, getPosts_db, getPost_db.
  - intros _. apply getCategories_db.
  - intros _. apply getCategory_db.
Qed.

Lemma authMiddleware_rejects_with_401 P E authorization now r :
  authMiddleware P E authorization now = Rejected r ->
  status r = 401 /\ success r = false.
Proof.
  unfold authMiddleware.
  destruct (extractTokenFromHeader authorization) as [token |]; [| intros H; inversion H; auto].
  destruct (is_empty token); [intros H; inversion H; auto |].
  destruct (verifyToken P E now token) as [payload |]; [| intros H; inversion H; auto].
  destruct (negb (truthy payload)); intros H; inversion H; auto.
Qed.

(** X2: On every route that lists a middleware, a request that
    authMiddleware answers (no token, or a token that does not verify) gets
    that response, whose status is 401, and the database is left as it was;
    on the three routes that also list adminMiddleware, a verified caller
    whose role is not admin gets 403 Admin access required and the database
    is left as it was. *)
Theorem protected_routes_refuse_without_rights
  (P : Platform) (E : Env) (ep : endpoint) (authorization : option string)
  (req : request) (d : db) :
  middlewares ep <> [] ->
  (forall r, authMiddleware P E authorization (req_now req) = Rejected r ->
     router_fetch P E ep authorization req d = Some (r, d) /\ status r = 401) /\
  (forall u caller,
     authMiddleware P E authorization (req_now req) = Attached u ->
     AuthUser_of u = Some caller ->
     auth_role caller <> "admin" ->
     In Admin (middlewares ep) ->
     router_fetch P E ep authorization req d
     = Some (failure 403 "Admin access required", d)).
Proof.
  intros Hprotected. split.
  - intros r Hr. split; [| exact (proj1 (authMiddleware_rejects_with_401 _ _ _ _ _ Hr))].
    unfold router_fetch.
    destruct ep as [| op | | |]; try (exfalso; apply Hprotected; reflexivity).
    destruct op; try (exfalso; apply Hprotected; reflexivity);
      simpl; rewrite Hr; reflexivity.
  - intros u caller Hu Hcaller Hrole Hadmin.
    apply String.eqb_neq in Hrole.
    unfold router_fetch.
    destruct ep as [| op | | |]; try (simpl in Hadmin; tauto).
    destruct op; simpl in Hadmin; try (exfalso; intuition discriminate);
      simpl; rewrite Hu, Hcaller; unfold adminMiddleware; simpl; rewrite Hrole; reflexivity.
Qed.

Lemma protected_routes_refuse_without_rights_witness :
  let P := Demo.platform false true in
  router_fetch P Demo.env (Routed POST_categories) None (Demo.anonymous 300) Demo.seeded
  = Some (failure 401 "Access token required", Demo.seeded) /\
  router_fetch P Demo.env (Routed POST_categories)
    (Some ("Bearer " ++ demo_token Demo.alice 200)) (Demo.anonymous 300) Demo.seeded
  = Some (failure 403 "Admin access required", Demo.seeded).
Proof.
  intros P.
  destruct (protected_routes_refuse_without_rights P Demo.env (Routed POST_categories)
              None (Demo.anonymous 300) Demo.seeded ltac:(discriminate)) as [Hno _].
  destruct (protected_routes_refuse_without_rights P Demo.env (Routed POST_categories)
              (Some ("Bearer " ++ demo_token Demo.alice 200)) (Demo.anonymous 300)
              Demo.seeded ltac:(discriminate)) as [_ Heditor].
  split.
  - exact (proj1 (Hno (failure 401 "Access token required") eq_refl)).
  - eapply Heditor.
    + vm_compute. reflexivity.
    + vm_compute. reflexivity.
    + vm_compute. discriminate.
    + simpl. tauto.
Defined.

(** X3: A routed request that changes the database is a registration, or
    carries a token that authMiddleware verifies and goes to change-password
    or to POST, PATCH or DELETE of a post, or carries a verified token whose
    role is admin and goes to POST, PATCH or DELETE of a category. *)
Theorem only_entitled_requests_write
  (P : Platform) (E : Env) (ep : endpoint) (authorization : option string)
  (req : request) (d : db) (r : response) (d' : db) :
  router_fetch P E ep authorization req d = Some (r, d') ->
  d' <> d ->
  ep = Routed POST_auth_register \/
  exists u caller,
    authMiddleware P E authorization (req_now req) = Attached u /\
    AuthUser_of u = Some caller /\
    (In ep [ Routed POST_profile_change_password; Routed POST_posts;
             Routed PATCH_posts_id; Routed DELETE_posts_id ] \/
     auth_role caller = "admin" /\
     In ep [ Routed POST_categories; Routed PATCH_categories_id;
             Routed DELETE_categories_id ]).
Proof.
  intros Hfetch Hchanged.
  destruct (writes ep) eqn:Hw.
  - destruct ep as [| op | | |]; try discriminate.
    destruct op; try discriminate; [left; reflexivity | right ..];
      unfold router_fetch in Hfetch; simpl in Hfetch;
      destruct (authMiddleware P E authorization (req_now req)) as [r0 | u] eqn:Hauth;
      try (inversion Hfetch; subst; congruence);
      destruct (AuthUser_of u) as [caller |] eqn:Hcaller; try discriminate;
      exists u, caller; (split; [reflexivity |]); (split; [exact Hcaller |]);
      try (left; simpl; tauto).
    all: unfold adminMiddleware in Hfetch; simpl in Hfetch;
      destruct (String.eqb_spec (auth_role caller) "admin") as [Hrole | Hrole];
      simpl in Hfetch; [| inversion Hfetch; subst; congruence];
      right; split; [exact Hrole | simpl; tauto].
  - exfalso. apply Hchanged.
    unfold router_fetch in Hfetch.
    destruct (through P E (middlewares ep) authorization (with_user req None))
      as [[req' | r0] |]; inversion Hfetch as [Hrun]; subst; [| reflexivity].
    pose proof (reading_handler_db P E ep req' d Hw) as Hsame.
    rewrite Hrun in Hsame. exact Hsame.
Qed.

Lemma only_entitled_requests_write_witness :
  let P := Demo.platform false true in
  let authorization := Some ("Bearer " ++ demo_token Demo.root 200) in
  let req := Demo.with_body (Demo.anonymous 300)
               (VObj [ ("name", VStr "Tech"); ("slug", VStr "tech") ]) in
  exists u caller,
    authMiddleware P Demo.env authorization 300 = Attached u /\
    AuthUser_of u = Some caller /\ auth_role caller = "admin".
Proof.
  intros P authorization req.
  destruct (router_fetch P Demo.env (Routed POST_categories) authorization req Demo.seeded)
    as [[r d'] |] eqn:Hrun; [| vm_compute in Hrun; discriminate].
  destruct (only_entitled_requests_write P Demo.env (Routed POST_categories) authorization
              req Demo.seeded r d' Hrun)
    as [Hreg | (u & caller & Hauth & Hcaller & [Hin | [Hadmin _]])].
  - vm_compute in Hrun. inversion Hrun. discriminate.
  - discriminate.
  - simpl in Hin. intuition discriminate.
  - exists u, caller. auto.
Defined.

(* ------------------------------------------------------------------ *)
(** ** From login to the middleware *)

Lemma authMiddleware_bearer P E token now :
  token <> "" ->
  authMiddleware P E (Some ("Bearer " ++ token)) now =
    match verifyToken P E now token with
    | None => Rejected (failure 401 "Invalid or expired token")
    | Some payload =>
        if negb (truthy payload) then Rejected (failure 401 "Invalid or expired token")
        else Attached (VObj [ ("id", prop "userId" payload);
                              ("username", prop "username" payload);
                              ("email", prop "email" payload);
                              ("role", prop "role" payload) ])
    end.
Proof.
  intros Hne. unfold authMiddleware. rewrite extractTokenFromHeader_of_bearer.
  destruct token; [congruence | reflexivity].
Qed.



Lemma find_user_by_own_id (d : db) (u : user) :
  NoDup (map user_id (users d)) -> In u (users d) ->
  find_user_by_id d (user_id u) = Some u.
Proof.
  unfold find_user_by_id. induction (users d) as [| v l IH]; simpl; [contradiction |].
  intros Hnd [-> | Hin].
  - now rewrite Z.eqb_refl.
  - inversion Hnd as [| ? ? Hv Hl]; subst.
    destruct (Z.eqb_spec (user_id v) (user_id u)) as [Heq | _]; [| auto].
    exfalso. apply Hv. rewrite Heq. now apply in_map.
Qed.

(** X5: With user ids unique and under the contract of the token library,
    GET /profile with the token of a successful login, when it is not the
    empty text, is answered 200 with exactly the user object of the login
    response (the stored row without the password) until the token expires,
    and 401 Invalid or expired token afterwards; the database is unchanged. *)
Theorem login_token_opens_the_profile
  (P : Platform) (E : Env) (req req' : request) (d : db) (token : string) :
  jwt_contract P ->
  NoDup (map user_id (users d)) ->
  success (fst (login P E req d)) = true ->
  prop "token" (data (fst (login P E req d))) = VStr token -> token <> "" ->
  (req_now req <= req_now req' < req_now req + jwt_lifetime P (JWT_EXPIRES_IN E) ->
   router_fetch P E (Routed GET_profile) (Some ("Bearer " ++ token)) req' d
   = Some (createAPIResponse 200 true "Profile retrieved successfully"
             (prop "user" (data (fst (login P E req d)))) None, d)) /\
  (req_now req + jwt_lifetime P (JWT_EXPIRES_IN E) <= req_now req' ->
   router_fetch P E (Routed GET_profile) (Some ("Bearer " ++ token)) req' d
   = Some (failure 401 "Invalid or expired token", d)).
Proof.
  intros Hlib Hids Hok Htoken Hne.
  destruct (login_success P E req d Hok) as (u & Hin & _ & Hdata).
  rewrite Hdata in *. unfold prop in Htoken. simpl in Htoken. inversion Htoken; subst token.
  unfold router_fetch. cbn [middlewares through with_user req_now].
  rewrite (authMiddleware_bearer P E _ _ Hne).
  unfold verifyToken, generateToken. split; intros Hwhen.
  - rewrite (verify_signed Hlib _ _ _ Hwhen). simpl.
    unfold getProfile. unfold_handlers. simpl.
    rewrite (find_user_by_own_id d u Hids Hin). reflexivity.
  - rewrite (verify_expired Hlib _ _ _ _ Hwhen). reflexivity.
Qed.

Lemma login_token_opens_the_profile_witness :
  let P := Demo.platform false true in
  let req := Demo.with_body (Demo.anonymous 500)
               (VObj [ ("username", VStr "alice"); ("password", VStr "pw123456") ]) in
  router_fetch P Demo.env (Routed GET_profile)
    (Some ("Bearer " ++ demo_token Demo.alice 500)) (Demo.anonymous 600) Demo.seeded
  = Some (createAPIResponse 200 true "Profile retrieved successfully"
            (prop "user" (data (fst (login P Demo.env req Demo.seeded)))) None,
          Demo.seeded).
Proof.
  intros P req.
  apply (login_token_opens_the_profile P Demo.env req (Demo.anonymous 600) Demo.seeded
           (demo_token Demo.alice 500) (DemoFacts.contract false true)).
  - unfold Demo.seeded, users. simpl.
    repeat (constructor; [simpl; intuition discriminate |]). constructor.
  - vm_compute. reflexivity.
  - vm_compute. reflexivity.
  - vm_compute. discriminate.
  - vm_compute. split; [discriminate | reflexivity].
Defined.

(* ------------------------------------------------------------------ *)
(** ** Registration *)

Lemma parse_default_enum_valid P path ms dflt v x :
  parse_at P path (z_default (z_enum ms) (VStr dflt)) v = Valid x ->
  existsb (String.eqb dflt) ms = true ->
  exists s, x = VStr s /\ existsb (String.eqb s) ms = true /\
            (v = VUndef -> s = dflt) /\ (forall r, v = VStr r -> s = r).
Proof.
  intros H Hd.
  assert (Henum : forall w, w <> VUndef -> parse_at P path (z_enum ms) w = Valid x ->
            exists s, w = VStr s /\ x = VStr s /\ existsb (String.eqb s) ms = true).
  { intros w _ Hw. simpl in Hw. destruct w; try discriminate.
    destruct (existsb (String.eqb s) ms) eqn:Hs; [| discriminate].
    inversion Hw. eauto. }
  destruct v as [| | b | n | t | t | items | fields];
    try (match type of H with
         | parse_at _ _ _ ?w = _ =>
             destruct (Henum w ltac:(discriminate) H) as (s & Hv & Hx & Hs); try discriminate
         end).
  - simpl in H. rewrite Hd in H. inversion H. exists dflt. repeat split; auto. discriminate.
  - inversion Hv; subst. exists s. repeat split; auto; [discriminate | intros r Hr; now inversion Hr].
Qed.

Lemma registration_fields P body validated :
  safeParse P insertUserSchema body = Valid validated ->
  exists name mail pw,
    prop "username" body = VStr name /\ prop "email" body = VStr mail /\
    prop "password" body = VStr pw /\
    prop "username" validated = VStr name /\ prop "email" validated = VStr mail /\
    prop "password" validated = VStr pw /\
    prop "role" validated = VStr (requested_role body) /\
    (requested_role body = "admin" \/ requested_role body = "editor").
Proof.
  intros H. apply safeParse_object in H as (fields & out & -> & -> & Hval & _);
    [| distinct_keys].
  destruct (parse_string_valid P _ _ _ _ (Hval "username" _ ltac:(simpl; tauto)))
    as (name & Hn & Hn').
  destruct (parse_string_valid P _ _ _ _ (Hval "email" _ ltac:(simpl; tauto)))
    as (mail & Hm & Hm').
  destruct (parse_string_valid P _ _ _ _
              (Hval "password" _ ltac:(simpl; right; right; left; reflexivity)))
    as (pw & Hp & Hp').
  destruct (parse_default_enum_valid P _ _ _ _ _
              (Hval "role" _ ltac:(simpl; right; right; right; left; reflexivity)) eq_refl)
    as (rl & Hr & Hmember & Habsent & Hgiven).
  exists name, mail, pw. unfold requested_role. simpl.
  rewrite Hn, Hm, Hp, Hn', Hm', Hp', Hr.
  assert (Hrole : match get "role" fields with VStr r => r | _ => "editor" end = rl).
  { simpl in Hmember.
    destruct (get "role" fields) eqn:Hrole; try discriminate;
      try (exfalso; clear - Hval Hrole;
           specialize (Hval "role" _ ltac:(simpl; right; right; right; left; reflexivity));
           rewrite Hrole in Hval; simpl in Hval; discriminate).
    - symmetry. now apply Habsent.
    - symmetry. now apply Hgiven. }
  rewrite Hrole. repeat split; auto.
  simpl in Hmember. rewrite !orb_true_iff in Hmember.
  destruct Hmember as [Ha | [He | Hf]]; [| | discriminate].
  - left. now apply String.eqb_eq in Ha.
  - right. now apply String.eqb_eq in He.
Qed.

(** What [register] does with a body that the schema accepts. *)
Lemma register_run P req d body validated name mail pw :
  req_body req = Some body ->
  safeParse P insertUserSchema body = Valid validated ->
  prop "username" body = VStr name -> prop "email" body = VStr mail ->
  prop "password" body = VStr pw ->
  register P req d =
    if existsb (fun u => String.eqb (user_username u) name) (users d) then
      (createAPIResponse 409 false "Username or email already exists" VUndef
         (Some [ExnMessage (SQLiteError (UniqueConstraintFailed "users.username"))]), d)
    else if existsb (fun u => String.eqb (user_email u) mail) (users d) then
      (createAPIResponse 409 false "Username or email already exists" VUndef
         (Some [ExnMessage (SQLiteError (UniqueConstraintFailed "users.email"))]), d)
    else
      let u := registered P req d name mail pw (requested_role body) in
      (createAPIResponse 201 true "User registered successfully"
         (VObj (omit "password" (user_row u))) None,
       with_users d (users d ++ [u]) (user_id u)).
Proof.
  intros Hbody Hvalid Hname Hmail Hpw.
  destruct (registration_fields P body validated Hvalid)
    as (name' & mail' & pw' & Hn & Hm & Hp & Hn' & Hm' & Hp' & Hr & _).
  rewrite Hname in Hn. rewrite Hmail in Hm. rewrite Hpw in Hp.
  inversion Hn; inversion Hm; inversion Hp; subst name' mail' pw'.
  unfold register, insert_user. unfold_handlers.
  rewrite Hbody. simpl. rewrite Hvalid. simpl.
  rewrite Hp', Hn', Hm', Hr. simpl.
  assert (Htruthy : negb (is_empty (requested_role body)) = true).
  { destruct (registration_fields P body validated Hvalid)
      as (_ & _ & _ & _ & _ & _ & _ & _ & _ & _ & [-> | ->]); reflexivity. }
  rewrite Htruthy. simpl.
  destruct (existsb _ (users d)); simpl; [reflexivity |].
  destruct (existsb _ (users d)); simpl; reflexivity.
Qed.

Lemma next_id_fresh (seq : Z) (ids : list Z) : ~ In (next_id seq ids) ids.
Proof.
  unfold next_id. intros Hin.
  assert (Hmax : forall x, In x ids -> x <= fold_right Z.max 0 ids).
  { clear. induction ids as [| y ids IH]; simpl; intros x Hx; [contradiction |].
    destruct Hx as [-> | Hx]; [lia | specialize (IH x Hx); lia]. }
  specialize (Hmax _ Hin). lia.
Qed.

Lemma existsb_false_forall {A : Type} (f : A -> bool) (l : list A) :
  existsb f l = false -> forall x, In x l -> f x = false.
Proof.
  intros H x Hx. destruct (f x) eqn:Hf; [| reflexivity].
  assert (Ht : existsb f l = true) by (apply existsb_exists; eauto). congruence.
Qed.

(** X6: A registration whose body passes the schema and whose username or
    email belongs to a stored user is answered 409 Username or email already
    exists, success false, and the database is unchanged. *)
Theorem register_refuses_taken_name_or_email
  (P : Platform) (req : request) (d : db) (body validated : value) (name mail : string) :
  req_body req = Some body ->
  safeParse P insertUserSchema body = Valid validated ->
  prop "username" body = VStr name ->
  prop "email" body = VStr mail ->
  (exists u, In u (users d) /\ (user_username u = name \/ user_email u = mail)) ->
  status (fst (register P req d)) = 409 /\
  success (fst (register P req d)) = false /\
  message (fst (register P req d)) = Some "Username or email already exists" /\
  snd (register P req d) = d.
Proof.
  intros Hbody Hvalid Hname Hmail (u & Hin & Htaken).
  destruct (registration_fields P body validated Hvalid)
    as (name' & mail' & pw & _ & _ & Hpw & _).
  rewrite (register_run P req d body validated name mail pw Hbody Hvalid Hname Hmail Hpw).
  destruct (existsb (fun u => String.eqb (user_username u) name) (users d)) eqn:Hn;
    [repeat split |].
  destruct (existsb (fun u => String.eqb (user_email u) mail) (users d)) eqn:Hm;
    [repeat split |].
  exfalso. destruct Htaken as [Ht | Ht].
  - pose proof (existsb_false_forall _ _ Hn u Hin) as Hu. simpl in Hu.
    rewrite Ht, String.eqb_refl in Hu. discriminate.
  - pose proof (existsb_false_forall _ _ Hm u Hin) as Hu. simpl in Hu.
    rewrite Ht, String.eqb_refl in Hu. discriminate.
Qed.

Lemma register_refuses_taken_name_or_email_witness :
  let P := Demo.platform false true in
  let req := Demo.with_body (Demo.anonymous 500)
               (Demo.registration "alice" "other@example.com" "editor") in
  status (fst (register P req Demo.seeded)) = 409 /\
  snd (register P req Demo.seeded) = Demo.seeded.
Proof.
  intros P req.
  let r := eval vm_compute in
            (safeParse P insertUserSchema
               (Demo.registration "alice" "other@example.com" "editor")) in
  match r with
  | Valid ?validated =>
      destruct (register_refuses_taken_name_or_email P req Demo.seeded
                  (Demo.registration "alice" "other@example.com" "editor") validated
                  "alice" "other@example.com" eq_refl ltac:(vm_compute; reflexivity)
                  eq_refl eq_refl)
        as (Hstatus & _ & _ & Hdb)
  end.
  - eexists. split; [left; reflexivity | left; reflexivity].
  - split; assumption.
Defined.

(** X7: A registration answered 201 appends exactly one user: with the
    username and email of the body, the bcrypt hash (10 rounds) of the
    body's password, the role that the body asks for (admin included) or
    editor when it names none, both time stamps at the clock, and an id, a
    username and an email that no stored user had; the other tables are
    unchanged and the response data is the new row without the password. *)
Theorem register_stores_the_requested_user
  (P : Platform) (req : request) (d : db) :
  status (fst (register P req d)) = 201 ->
  exists body name mail pw u,
    req_body req = Some body /\
    prop "username" body = VStr name /\ prop "email" body = VStr mail /\
    prop "password" body = VStr pw /\
    users (snd (register P req d)) = (users d ++ [u])%list /\
    user_username u = name /\ user_email u = mail /\
    user_password u = bcrypt_hash P pw 10 (req_salt req) /\
    user_role u = requested_role body /\
    (user_role u = "admin" \/ user_role u = "editor") /\
    user_createdAt u = req_now req /\ user_updatedAt u = req_now req /\
    (forall v, In v (users d) ->
       user_id v <> user_id u /\ user_username v <> name /\ user_email v <> mail) /\
    categories (snd (register P req d)) = categories d /\
    posts (snd (register P req d)) = posts d /\
    postCategories (snd (register P req d)) = postCategories d /\
    data (fst (register P req d)) = VObj (omit "password" (user_row u)).
Proof.
  intros Hok.
  destruct (req_body req) as [body |] eqn:Hbody.
  2:{ exfalso. revert Hok. unfold register. unfold_handlers. rewrite Hbody. discriminate. }
  destruct (safeParse P insertUserSchema body) as [validated | issues] eqn:Hvalid.
  2:{ exfalso. revert Hok. unfold register. unfold_handlers. rewrite Hbody. simpl.
      rewrite Hvalid. discriminate. }
  destruct (registration_fields P body validated Hvalid)
    as (name & mail & pw & Hname & Hmail & Hpw & _ & _ & _ & _ & Hrole).
  rewrite (register_run P req d body validated name mail pw Hbody Hvalid Hname Hmail Hpw) in *.
  destruct (existsb (fun u => String.eqb (user_username u) name) (users d)) eqn:Hn;
    [discriminate |].
  destruct (existsb (fun u => String.eqb (user_email u) mail) (users d)) eqn:Hm;
    [discriminate |].
  exists body, name, mail, pw, (registered P req d name mail pw (requested_role body)).
  simpl. repeat split; auto.
  - intros Heq. apply (next_id_fresh (seq_users d) (map user_id (users d))).
    rewrite <- Heq. now apply in_map.
  - intros Heq. pose proof (existsb_false_forall _ _ Hn v H) as Hv. simpl in Hv.
    rewrite Heq, String.eqb_refl in Hv. discriminate.
  - intros Heq. pose proof (existsb_false_forall _ _ Hm v H) as Hv. simpl in Hv.
    rewrite Heq, String.eqb_refl in Hv. discriminate.
Qed.

Lemma register_stores_the_requested_user_witness :
  let P := Demo.platform false true in
  let req := Demo.with_body (Demo.anonymous 500)
               (Demo.registration "carol" "carol@example.com" "admin") in
  exists u,
    users (snd (register P req Demo.seeded)) = (users Demo.seeded ++ [u])%list /\
    user_username u = "carol" /\ user_role u = "admin".
Proof.
  intros P req.
  destruct (register_stores_the_requested_user P req Demo.seeded
              ltac:(vm_compute; reflexivity))
    as (body & name & mail & pw & u & Hbody & Hname & _ & _ & Husers & Hu & _ & _ & Hrole & _).
  exists u. inversion Hbody; subst body.
  split; [exact Husers |]. split.
  - rewrite Hu. vm_compute in Hname. now inversion Hname.
  - rewrite Hrole. reflexivity.
Defined.

Lemma find_app_new {A : Type} (f : A -> bool) (l : list A) (x : A) :
  existsb f l = false -> f x = true -> find f (l ++ [x]) = Some x.
Proof.
  induction l as [| y l IH]; simpl; intros Hl Hx; [now rewrite Hx |].
  apply orb_false_iff in Hl as [Hy Hl]. rewrite Hy. auto.
Qed.

Lemma parse_string_min P path n m v x :
  parse_at P path (z_string (SMin n :: m)) v = Valid x ->
  exists s, v = VStr s /\ (n <= String.length s)%nat.
Proof.
  simpl. destruct v; simpl; try discriminate.
  destruct (Nat.leb_spec n (String.length s)); [eauto | discriminate].
Qed.

Lemma loginSchema_accepts P name pw :
  name <> "" -> pw <> "" ->
  safeParse P loginSchema (VObj [ ("username", VStr name); ("password", VStr pw) ])
  = Valid (VObj [ ("username", VStr name); ("password", VStr pw) ]).
Proof. intros Hn Hp. destruct name, pw; try congruence; reflexivity. Qed.

(** X8: If bcrypt accepts a password against its own hash, then after a
    registration answered 201 a login with the same username and password is
    answered 200, returns the user object of the registration response and
    leaves the database unchanged. *)
Theorem registered_user_logs_in
  (P : Platform) (E : Env) (req req' : request) (d : db) (body : value) (name pw : string) :
  (forall password salt, bcrypt_compare P password (bcrypt_hash P password 10 salt) = true) ->
  status (fst (register P req d)) = 201 ->
  req_body req = Some body ->
  prop "username" body = VStr name ->
  prop "password" body = VStr pw ->
  req_body req' = Some (VObj [ ("username", VStr name); ("password", VStr pw) ]) ->
  status (fst (login P E req' (snd (register P req d)))) = 200 /\
  prop "user" (data (fst (login P E req' (snd (register P req d)))))
  = data (fst (register P req d)) /\
  snd (login P E req' (snd (register P req d))) = snd (register P req d).
Proof.
  intros Hbcrypt Hok Hbody Hname Hpw Hbody'.
  destruct (safeParse P insertUserSchema body) as [validated | issues] eqn:Hvalid.
  2:{ exfalso. revert Hok. unfold register. unfold_handlers. rewrite Hbody. simpl.
      rewrite Hvalid. discriminate. }
  destruct (registration_fields P body validated Hvalid)
    as (name' & mail & pw' & Hname' & Hmail & Hpw' & _).
  rewrite Hname in Hname'. rewrite Hpw in Hpw'. inversion Hname'; inversion Hpw'; subst name' pw'.
  assert (Hlen : (3 <= String.length name)%nat /\ (6 <= String.length pw)%nat).
  { pose proof Hvalid as Hv.
    apply safeParse_object in Hv as (fields & out & -> & -> & Hval & _); [| distinct_keys].
    simpl in Hname, Hpw. split.
    - destruct (parse_string_min P _ _ _ _ _ (Hval "username" _ ltac:(simpl; tauto)))
        as (s & Hs & Hle). rewrite Hname in Hs. now inversion Hs.
    - destruct (parse_string_min P _ _ _ _ _
                  (Hval "password" _ ltac:(simpl; right; right; left; reflexivity)))
        as (s & Hs & Hle). rewrite Hpw in Hs. now inversion Hs. }
  rewrite (register_run P req d body validated name mail pw Hbody Hvalid Hname Hmail Hpw) in *.
  destruct (existsb (fun u => String.eqb (user_username u) name) (users d)) eqn:Hn;
    [discriminate |].
  destruct (existsb (fun u => String.eqb (user_email u) mail) (users d)) eqn:Hm;
    [discriminate |].
  cbv zeta. simpl fst. simpl snd.
  unfold login. unfold_handlers. rewrite Hbody'. simpl.
  rewrite loginSchema_accepts
    by (destruct Hlen; intros ->; simpl in *; lia).
  simpl. unfold find_user_by_username. cbn [users with_users].
  rewrite (find_app_new _ _ _ Hn) by (simpl; apply String.eqb_refl).
  simpl. unfold verifyPassword, hashPassword. rewrite Hbcrypt. simpl.
  repeat split.
Qed.

Lemma registered_user_logs_in_witness :
  let P := Demo.platform false true in
  let req := Demo.with_body (Demo.anonymous 500)
               (Demo.registration "carol" "carol@example.com" "editor") in
  let req' := Demo.with_body (Demo.anonymous 600)
                (VObj [ ("username", VStr "carol"); ("password", VStr "pw123456") ]) in
  status (fst (login P Demo.env req' (snd (register P req Demo.seeded)))) = 200.
Proof.
  intros P req req'.
  exact (proj1 (registered_user_logs_in P Demo.env req req' Demo.seeded
                  (Demo.registration "carol" "carol@example.com" "editor")
                  "carol" "pw123456" (demo_compare_hash false true)
                  ltac:(vm_compute; reflexivity) eq_refl eq_refl eq_refl eq_refl)).
Defined.

(* ------------------------------------------------------------------ *)
(** ** Logging in and changing the password *)

Lemma two_strings_fields P k1 c1 k2 c2 body parsed :
  k1 <> k2 ->
  safeParse P (z_object [ (k1, z_string c1); (k2, z_string c2) ]) body = Valid parsed ->
  exists a b,
    prop k1 body = VStr a /\ prop k2 body = VStr b /\
    prop k1 parsed = VStr a /\ prop k2 parsed = VStr b /\
    parse_at P k1 (z_string c1) (VStr a) = Valid (VStr a) /\
    parse_at P k2 (z_string c2) (VStr b) = Valid (VStr b).
Proof.
  intros Hne H. apply safeParse_object in H as (fields & out & -> & -> & Hval & _).
  2:{ simpl. constructor; [simpl; intuition congruence |]. constructor; [simpl; tauto | constructor]. }
  pose proof (Hval k1 _ ltac:(simpl; tauto)) as H1.
  pose proof (Hval k2 _ ltac:(simpl; tauto)) as H2.
  destruct (parse_string_valid P _ _ _ _ H1) as (a & Ha & Ha').
  destruct (parse_string_valid P _ _ _ _ H2) as (b & Hb & Hb').
  exists a, b. simpl. rewrite Ha in H1. rewrite Hb in H2. rewrite Ha' in H1. rewrite Hb' in H2.
  repeat split; auto.
Qed.

(** X9: A login whose body passes the schema gets the one response 401
    Invalid username or password, with the database unchanged, both when no
    user has the name and when the password does not match the stored hash:
    the two cases cannot be told apart. *)
Theorem login_failures_look_alike
  (P : Platform) (E : Env) (req : request) (d : db) (body creds : value) (name pw : string) :
  req_body req = Some body ->
  safeParse P loginSchema body = Valid creds ->
  prop "username" body = VStr name ->
  prop "password" body = VStr pw ->
  (forall u, find_user_by_username d name = Some u ->
             bcrypt_compare P pw (user_password u) = false) ->
  login P E req d = (failure 401 "Invalid username or password", d).
Proof.
  intros Hbody Hvalid Hname Hpw Hfail.
  destruct (two_strings_fields P "username" _ "password" _ body creds ltac:(discriminate) Hvalid)
    as (a & b & Ha & Hb & Ha' & Hb' & _).
  rewrite Hname in Ha. rewrite Hpw in Hb. inversion Ha; inversion Hb; subst a b.
  unfold login. unfold_handlers. rewrite Hbody. simpl. rewrite Hvalid. simpl.
  rewrite Ha', Hb'. simpl.
  destruct (find_user_by_username d name) as [u |] eqn:Hfind; simpl; [| reflexivity].
  unfold verifyPassword. rewrite (Hfail u eq_refl). reflexivity.
Qed.

Lemma login_failures_look_alike_witness :
  let P := Demo.platform false true in
  let wrong_password := Demo.with_body (Demo.anonymous 500)
               (VObj [ ("username", VStr "alice"); ("password", VStr "guess") ]) in
  let unknown_name := Demo.with_body (Demo.anonymous 500)
               (VObj [ ("username", VStr "nobody"); ("password", VStr "guess") ]) in
  login P Demo.env wrong_password Demo.seeded = login P Demo.env unknown_name Demo.seeded.
Proof.
  intros P wrong_password unknown_name.
  rewrite (login_failures_look_alike P Demo.env wrong_password Demo.seeded
             (VObj [ ("username", VStr "alice"); ("password", VStr "guess") ])
             (VObj [ ("username", VStr "alice"); ("password", VStr "guess") ])
             "alice" "guess" eq_refl ltac:(vm_compute; reflexivity) eq_refl eq_refl).
  2:{ intros u Hu. vm_compute in Hu. inversion Hu; subst u. vm_compute. reflexivity. }
  rewrite (login_failures_look_alike P Demo.env unknown_name Demo.seeded
             (VObj [ ("username", VStr "nobody"); ("password", VStr "guess") ])
             (VObj [ ("username", VStr "nobody"); ("password", VStr "guess") ])
             "nobody" "guess" eq_refl ltac:(vm_compute; reflexivity) eq_refl eq_refl).
  2:{ intros u Hu. vm_compute in Hu. discriminate. }
  reflexivity.
Defined.

Lemma changePassword_written (P : Platform) (req : request) (d : db) :
  (status (fst (changePassword P req d)) <> 200 /\ snd (changePassword P req d) = d) \/
  exists caller body current new u,
    req_user req = Some caller /\ req_body req = Some body /\
    prop "currentPassword" body = VStr current /\
    prop "newPassword" body = VStr new /\
    (6 <= String.length new)%nat /\
    find_user_by_id d (auth_id caller) = Some u /\
    bcrypt_compare P current (user_password u) = true /\
    status (fst (changePassword P req d)) = 200 /\
    snd (changePassword P req d)
    = with_users d
        (map (fun v => if user_id v =? auth_id caller
                       then with_password (bcrypt_hash P new 10 (req_salt req)) (req_now req) v
                       else v) (users d))
        (seq_users d).
Proof.
  unfold changePassword, catch_reported, isZodError. unfold_handlers.
  destruct (req_user req) as [caller |]; simpl; [| left; split; [discriminate | reflexivity]].
  destruct (req_body req) as [body |]; simpl; [| left; split; [discriminate | reflexivity]].
  destruct (safeParse P changePasswordSchema body) as [parsed | issues] eqn:Hvalid; simpl;
    [| left; split; [discriminate | reflexivity]].
  destruct (two_strings_fields P "currentPassword" _ "newPassword" _ body parsed
              ltac:(discriminate) Hvalid)
    as (current & new & Hc & Hn & Hc' & Hn' & _ & Hmin).
  rewrite Hc', Hn'. simpl.
  destruct (find_user_by_id d (auth_id caller)) as [u |] eqn:Hfind; simpl;
    [| left; split; [discriminate | reflexivity]].
  unfold verifyPassword.
  destruct (bcrypt_compare P current (user_password u)) eqn:Hcompare; simpl;
    [| left; split; [discriminate | reflexivity]].
  right. exists caller, body, current, new, u.
  destruct (parse_string_min P _ _ _ _ _ Hmin) as (s & Hs & Hlen). inversion Hs; subst s.
  repeat split; auto.
Qed.

(** X10: changePassword either answers something other than 200 and leaves
    the database exactly as it was, or answers 200 after the current
    password verified against the caller's stored hash and the new one has
    at least 6 characters; then the only change is that the rows with the
    caller's id get the hash of the new password and updatedAt set to the
    clock. *)
Theorem changePassword_rewrites_only_the_password
  (P : Platform) (req : request) (d : db) :
  (status (fst (changePassword P req d)) <> 200 /\ snd (changePassword P req d) = d) \/
  exists caller body current new u,
    req_user req = Some caller /\ req_body req = Some body /\
    prop "currentPassword" body = VStr current /\
    prop "newPassword" body = VStr new /\
    (6 <= String.length new)%nat /\
    find_user_by_id d (auth_id caller) = Some u /\
    bcrypt_compare P current (user_password u) = true /\
    status (fst (changePassword P req d)) = 200 /\
    snd (changePassword P req d)
    = with_users d
        (map (fun v => if user_id v =? auth_id caller
                       then with_password (bcrypt_hash P new 10 (req_salt req)) (req_now req) v
                       else v) (users d))
        (seq_users d).
Proof. exact (changePassword_written P req d). Qed.

Lemma find_map_same {A : Type} (test : A -> bool) (f : A -> A) (l : list A) :
  (forall x, test (f x) = test x) ->
  find test (map f l) = option_map f (find test l).
Proof.
  intros H. induction l as [| x l IH]; simpl; [reflexivity |].
  rewrite H. destruct (test x); [reflexivity | exact IH].
Qed.

(** X11: After a change of password answered 200, a login with the name of
    the user who changed it and a non-empty password succeeds or fails by
    bcrypt's comparison with the hash of the new password alone: 200 when it
    matches, 401 Invalid username or password when it does not, so the old
    password stops working unless it matches the new hash. *)
Theorem changed_password_is_the_one_that_logs_in
  (P : Platform) (E : Env) (req req' : request) (d : db)
  (caller : AuthUser) (body : value) (new name pw : string) (u : user) :
  status (fst (changePassword P req d)) = 200 ->
  req_user req = Some caller -> req_body req = Some body ->
  prop "newPassword" body = VStr new ->
  find_user_by_username d name = Some u -> user_id u = auth_id caller ->
  name <> "" -> pw <> "" ->
  req_body req' = Some (VObj [ ("username", VStr name); ("password", VStr pw) ]) ->
  let d' := snd (changePassword P req d) in
  (bcrypt_compare P pw (bcrypt_hash P new 10 (req_salt req)) = true ->
   status (fst (login P E req' d')) = 200 /\ snd (login P E req' d') = d') /\
  (bcrypt_compare P pw (bcrypt_hash P new 10 (req_salt req)) = false ->
   login P E req' d' = (failure 401 "Invalid username or password", d')).
Proof.
  intros Hok Hcaller Hbody Hnew Hfind Hid Hname Hpw Hbody' d'. subst d'.
  destruct (changePassword_written P req d)
    as [[Hstatus _] | (caller' & body' & current & new' & u' & Hc & Hb & _ & Hn & _ & _ & _
                       & _ & ->)];
    [contradiction |].
  rewrite Hcaller in Hc. rewrite Hbody in Hb. inversion Hc; inversion Hb; subst caller' body'.
  rewrite Hnew in Hn. inversion Hn; subst new'.
  assert (Hfound :
    find_user_by_username
      (with_users d
         (map (fun v => if user_id v =? auth_id caller
                        then with_password (bcrypt_hash P new 10 (req_salt req)) (req_now req) v
                        else v) (users d)) (seq_users d)) name
    = Some (with_password (bcrypt_hash P new 10 (req_salt req)) (req_now req) u)).
  { unfold find_user_by_username in *. cbn [users with_users].
    rewrite find_map_same.
    - rewrite Hfind. simpl. rewrite Hid, Z.eqb_refl. reflexivity.
    - intros x. destruct (user_id x =? auth_id caller); reflexivity. }
  unfold login. unfold_handlers. rewrite Hbody'. simpl.
  rewrite (loginSchema_accepts P name pw Hname Hpw). simpl.
  rewrite Hfound. simpl. unfold verifyPassword. simpl.
  split; intros Hcompare; rewrite Hcompare; simpl; [split |]; reflexivity.
Qed.

Lemma changed_password_is_the_one_that_logs_in_witness :
  let P := Demo.platform false true in
  let req := Demo.with_body (Demo.as_user (Demo.anonymous 500) Demo.alice)
               (VObj [ ("currentPassword", VStr "pw123456");
                       ("newPassword", VStr "another-one") ]) in
  let new := Demo.with_body (Demo.anonymous 600)
               (VObj [ ("username", VStr "alice"); ("password", VStr "another-one") ]) in
  let old := Demo.with_body (Demo.anonymous 600)
               (VObj [ ("username", VStr "alice"); ("password", VStr "pw123456") ]) in
  status (fst (login P Demo.env new (snd (changePassword P req Demo.seeded)))) = 200 /\
  status (fst (login P Demo.env old (snd (changePassword P req Demo.seeded)))) = 401.
Proof.
  intros P req new old.
  assert (Hfind : exists u, find_user_by_username Demo.seeded "alice" = Some u /\
                            user_id u = 1)
    by (eexists; split; vm_compute; reflexivity).
  destruct Hfind as (u & Hfind & Hid).
  destruct (changed_password_is_the_one_that_logs_in P Demo.env req new Demo.seeded
              Demo.alice
              (VObj [ ("currentPassword", VStr "pw123456");
                      ("newPassword", VStr "another-one") ])
              "another-one" "alice" "another-one" u
              ltac:(vm_compute; reflexivity) eq_refl eq_refl eq_refl Hfind Hid
              ltac:(discriminate) ltac:(discriminate) eq_refl) as [Hnew _].
  destruct (changed_password_is_the_one_that_logs_in P Demo.env req old Demo.seeded
              Demo.alice
              (VObj [ ("currentPassword", VStr "pw123456");
                      ("newPassword", VStr "another-one") ])
              "another-one" "alice" "pw123456" u
              ltac:(vm_compute; reflexivity) eq_refl eq_refl eq_refl Hfind Hid
              ltac:(discriminate) ltac:(discriminate) eq_refl) as [_ Hold].
  split.
  - exact (proj1 (Hnew ltac:(vm_compute; reflexivity))).
  - rewrite (Hold ltac:(vm_compute; reflexivity)). reflexivity.
Defined.

#[local] Arguments prop : simpl never.

(* ------------------------------------------------------------------ *)
(** ** Creating a post *)

Lemma insertPostSchema_fields P body data :
  safeParse P insertPostSchema body = Valid data ->
  exists title slug content,
    prop "title" body = VStr title /\ prop "slug" body = VStr slug /\
    prop "content" body = VStr content /\
    prop "title" data = VStr title /\ prop "slug" data = VStr slug /\
    prop "content" data = VStr content /\
    validateSlug slug = true /\
    prop "contentType" data = VStr (text_or "markdown" (prop "contentType" body)) /\
    prop "status" data = VStr (text_or "draft" (prop "status" body)) /\
    prop "excerpt" data = prop "excerpt" body /\
    prop "featuredImage" data = prop "featuredImage" body /\
    text_or_absent (prop "excerpt" body) /\
    text_or_absent (prop "featuredImage" body).
Proof.
  intros H. apply safeParse_object in H as (fields & out & -> & -> & Hval & _);
    [| distinct_keys].
  pose proof (Hval "title" _ ltac:(simpl; tauto)) as Ht.
  pose proof (Hval "slug" _ ltac:(simpl; tauto)) as Hs.
  pose proof (Hval "content" _ ltac:(simpl; tauto)) as Hc.
  pose proof (Hval "contentType" _ ltac:(simpl; tauto)) as Hct.
  pose proof (Hval "excerpt" _ ltac:(simpl; tauto)) as He.
  pose proof (Hval "status" _ ltac:(simpl; tauto)) as Hst.
  pose proof (Hval "featuredImage" _ ltac:(simpl; tauto)) as Hf.
  clear Hval.
  destruct (parse_string_valid P _ _ _ _ Ht) as (title & Ht1 & Ht2).
  destruct (parse_string_valid P _ _ _ _ Hs) as (slug & Hs1 & Hs2).
  destruct (parse_string_valid P _ _ _ _ Hc) as (content & Hc1 & Hc2).
  destruct (parse_default_enum_valid P _ _ _ _ _ Hct eq_refl) as (ct & Hct1 & _ & Hct2 & Hct3).
  destruct (parse_default_enum_valid P _ _ _ _ _ Hst eq_refl) as (st & Hst1 & _ & Hst2 & Hst3).
  exists title, slug, content. unfold prop.
  rewrite Ht1, Hs1, Hc1, Ht2, Hs2, Hc2, Hct1, Hst1.
  assert (Hslug : validateSlug slug = true).
  { rewrite Hs1 in Hs. simpl in Hs. destruct (validateSlug slug); [reflexivity | discriminate]. }
  assert (Hctype : text_or "markdown" (get "contentType" fields) = ct).
  { destruct (get "contentType" fields) eqn:Hv; simpl;
      try (simpl in Hct; discriminate).
    - symmetry. now apply Hct2.
    - symmetry. now apply Hct3. }
  assert (Hstatus : text_or "draft" (get "status" fields) = st).
  { destruct (get "status" fields) eqn:Hv; simpl;
      try (simpl in Hst; discriminate).
    - symmetry. now apply Hst2.
    - symmetry. now apply Hst3. }
  rewrite Hctype, Hstatus.
  assert (Hopt : forall path cs v x,
             parse_at P path (z_optional (z_string cs)) v = Valid x ->
             x = v /\ text_or_absent v).
  { intros path cs v x Hp.
    destruct (parse_optional_string_valid P _ _ _ _ Hp) as [[-> ->] | (s & -> & ->)];
      split; auto; [left | right]; eauto. }
  destruct (Hopt _ _ _ _ He) as [He1 He2]. destruct (Hopt _ _ _ _ Hf) as [Hf1 Hf2].
  repeat split; auto.
Qed.

Lemma insert_post_run P title slug content ctype excerpt st image author now :
  text_or_absent excerpt -> text_or_absent image ->
  insert_post P
    [ ("title", VStr title); ("slug", VStr slug); ("content", VStr content);
      ("contentType", VStr ctype); ("excerpt", excerpt); ("status", VStr st);
      ("featuredImage", image); ("authorId", VNum (Int author)) ] now
  = fun d =>
    if existsb (fun q => String.eqb (post_slug q) slug) (posts d) then
      (Throw (SQLiteError (UniqueConstraintFailed "posts.slug")), d)
    else if (foreign_keys P && negb (user_exists d author))%bool then
      (Throw (SQLiteError ForeignKeyConstraintFailed), d)
    else
      let p := {| post_id := next_id (seq_posts d) (map post_id (posts d));
                  post_title := title; post_slug := slug; post_content := content;
                  post_contentType := ctype; post_excerpt := nullable_text excerpt;
                  post_status := st; post_featuredImage := nullable_text image;
                  post_authorId := author; post_createdAt := now; post_updatedAt := now |} in
      (Ok p, with_posts d (posts d ++ [p]) (post_id p)).
Proof. intros _ _. reflexivity. Qed.

Lemma createPost_created (P : Platform) (req : request) (d : db) :
  status (fst (createPost P req d)) = 201 ->
  exists caller body p rows,
    req_user req = Some caller /\ req_body req = Some body /\
    posts (snd (createPost P req d)) = (posts d ++ [p])%list /\
    postCategories (snd (createPost P req d)) = (postCategories d ++ rows)%list /\
    rows_of (post_id p) (prop "categoryIds" body) rows /\
    users (snd (createPost P req d)) = users d /\
    categories (snd (createPost P req d)) = categories d /\
    post_authorId p = auth_id caller /\
    post_createdAt p = req_now req /\ post_updatedAt p = req_now req /\
    prop "title" body = VStr (post_title p) /\
    prop "slug" body = VStr (post_slug p) /\
    prop "content" body = VStr (post_content p) /\
    validateSlug (post_slug p) = true /\
    post_contentType p = text_or "markdown" (prop "contentType" body) /\
    post_status p = text_or "draft" (prop "status" body) /\
    opt_str (post_excerpt p) = match prop "excerpt" body with VStr s => VStr s | _ => VNull end /\
    (forall q, In q (posts d) -> post_id q <> post_id p /\ post_slug q <> post_slug p) /\
    data (fst (createPost P req d))
    = postWithCategories (snd (createPost P req d)) (Int (post_id p)).
Proof.
  remember (createPost P req d) as rd eqn:Hrun. revert Hrun.
  unfold createPost, catch_reported, isZodError. unfold_handlers.
  destruct (req_user req) as [caller |]; simpl; [| intros ->; discriminate].
  destruct (req_body req) as [body |]; simpl; [| intros ->; discriminate].
  destruct (safeParse P insertPostSchema body) as [accepted |] eqn:Hvalid; simpl;
    [| intros ->; discriminate].
  destruct (insertPostSchema_fields P body accepted Hvalid)
    as (title & slug & content & Ht & Hs & Hc & Ht' & Hs' & Hc' & Hslug & Hct & Hst & He & Hf
        & Hexc & Himg).
  rewrite ?Ht', ?Hs', ?Hc', ?Hct, ?Hst, ?He, ?Hf. simpl. rewrite Hslug. simpl.
  destruct (find_post_by_slug d slug) eqn:Hfree; simpl; [intros ->; discriminate |].
  assert (Hexists : existsb (fun q => String.eqb (post_slug q) slug) (posts d) = false).
  { apply existsb_false_intro. intros q Hq.
    exact (find_none _ _ Hfree q Hq). }
  set (p := {| post_id := next_id (seq_posts d) (map post_id (posts d));
               post_title := title; post_slug := slug; post_content := content;
               post_contentType := text_or "markdown" (prop "contentType" body);
               post_excerpt := nullable_text (prop "excerpt" body);
               post_status := text_or "draft" (prop "status" body);
               post_featuredImage := nullable_text (prop "featuredImage" body);
               post_authorId := auth_id caller;
               post_createdAt := req_now req; post_updatedAt := req_now req |}).
  assert (Hfresh : forall q, In q (posts d) -> post_id q <> post_id p /\ post_slug q <> post_slug p).
  { intros q Hq. split.
    - intros Heq. apply (next_id_fresh (seq_posts d) (map post_id (posts d))).
      unfold p in Heq. simpl in Heq. rewrite <- Heq. now apply in_map.
    - intros Heq. pose proof (existsb_false_forall _ _ Hexists q Hq) as Hq'. simpl in Hq'.
      unfold p in Heq. simpl in Heq. rewrite Heq, String.eqb_refl in Hq'. discriminate. }
  assert (Hexcerpt : opt_str (nullable_text (prop "excerpt" body))
                     = match prop "excerpt" body with VStr s => VStr s | _ => VNull end).
  { destruct (prop "excerpt" body); reflexivity. }
  remember (prop "categoryIds" body) as cids eqn:Hcids.
  assert (Hdone : forall rows d',
             posts d' = (posts d ++ [p])%list ->
             postCategories d' = (postCategories d ++ rows)%list ->
             rows_of (post_id p) cids rows ->
             users d' = users d -> categories d' = categories d ->
             exists (caller0 : AuthUser) (body0 : value) (p0 : post) (rows : list postCategory),
               Some caller = Some caller0 /\ Some body = Some body0 /\
               posts d' = (posts d ++ [p0])%list /\
               postCategories d' = (postCategories d ++ rows)%list /\
               rows_of (post_id p0) (prop "categoryIds" body0) rows /\
               users d' = users d /\ categories d' = categories d /\
               post_authorId p0 = auth_id caller0 /\
               post_createdAt p0 = req_now req /\ post_updatedAt p0 = req_now req /\
               prop "title" body0 = VStr (post_title p0) /\
               prop "slug" body0 = VStr (post_slug p0) /\
               prop "content" body0 = VStr (post_content p0) /\
               validateSlug (post_slug p0) = true /\
               post_contentType p0 = text_or "markdown" (prop "contentType" body0) /\
               post_status p0 = text_or "draft" (prop "status" body0) /\
               opt_str (post_excerpt p0)
               = match prop "excerpt" body0 with VStr s => VStr s | _ => VNull end /\
               (forall q, In q (posts d) ->
                          post_id q <> post_id p0 /\ post_slug q <> post_slug p0) /\
               postWithCategories d' (Int (post_id p)) = postWithCategories d' (Int (post_id p0))).
  { intros rows d' Hposts Hpcs Hrows Husers Hcats.
    exists caller, body, p, rows. rewrite <- Hcids. repeat split; auto; apply Hfresh; auto. }
  clear Hfresh Hexcerpt Hvalid Hcids.
  rewrite (insert_post_run P _ _ _ _ _ _ _ _ _ Hexc Himg).
  destruct cids as [| | b | n | s | t | items | fields]; simpl;
    try (destruct b); try (destruct n as [z | |]; [destruct (negb (z =? 0)) | |]);
    try (destruct s); try (destruct items as [| x items]);
    simpl;
    try (match goal with
         | |- context [negb (Nat.eqb ?a ?b)] => destruct (negb (Nat.eqb a b))
         end);
    simpl; rewrite ?Hexists; fold p; cbv zeta.
  all: try (intros ->; discriminate).
  all: destruct (foreign_keys P && negb (user_exists d (auth_id caller)))%bool eqn:Hfk; simpl;
    try (intros ->; discriminate).
  all: try (intros -> _; cbn [fst snd data createAPIResponse]; apply (Hdone []);
            simpl; auto using app_nil_r).
  change (next_id (seq_posts d) (map post_id (posts d))) with (post_id p).
  change (match x with
          | VNum (Int c) =>
              obind (rows_for (post_id p) items)
                (fun rows => Some ({| pc_postId := post_id p; pc_categoryId := c |} :: rows))
          | _ => None
          end) with (rows_for (post_id p) (x :: items)).
  destruct (rows_for (post_id p) (x :: items)) as [rows |] eqn:Hrows;
    [| intros ->; discriminate].
  unfold insert_postCategories.
  destruct (pk_clash _ rows); [intros ->; discriminate |].
  destruct (foreign_keys P && negb (forallb _ rows))%bool; [intros ->; discriminate |].
  simpl. intros -> _. cbn [fst snd data createAPIResponse]. apply (Hdone rows); auto.
Qed.



(* ------------------------------------------------------------------ *)
(** ** Reading a post back *)

Lemma find_app_last {A : Type} (f : A -> bool) (l : list A) (x : A) :
  (forall y, In y l -> f y = false) -> f x = true -> find f (l ++ [x]) = Some x.
Proof.
  intros Hl Hx. apply find_app_new; [| exact Hx]. now apply existsb_false_intro.
Qed.

Lemma getPost_found P req d id pid p :
  req_id req = Some id -> id <> "" -> js_parseInt P id = Int pid ->
  find_post_by_id d (Int pid) = Some p ->
  getPost P req d
  = (createAPIResponse 200 true "Post retrieved successfully"
       (postWithCategories d (Int pid)) None, d).
Proof.
  intros Hid Hne Hparse Hfind.
  destruct (id_missing_false _ _ Hid Hne) as [Hmiss Htext].
  destruct (find_post_by_id_some _ _ _ Hfind) as [_ Hpid].
  unfold getPost, postWithCategories. unfold_handlers.
  rewrite Hmiss, Htext, Hparse, Hfind. simpl. rewrite Hpid. reflexivity.
Qed.

(** X13: After a createPost answered 201, getPost with the id of the
    response is answered 200 with exactly the data of the create response
    and changes nothing; that data carries the title of the body and the
    author object of the caller's id. *)
Theorem created_post_can_be_read
  (P : Platform) (req req' : request) (d : db) (id : string) (pid : Z) :
  status (fst (createPost P req d)) = 201 ->
  prop "id" (data (fst (createPost P req d))) = VNum (Int pid) ->
  req_id req' = Some id -> id <> "" -> js_parseInt P id = Int pid ->
  getPost P req' (snd (createPost P req d))
  = (createAPIResponse 200 true "Post retrieved successfully"
       (data (fst (createPost P req d))) None,
     snd (createPost P req d)) /\
  (exists body caller,
     req_body req = Some body /\ req_user req = Some caller /\
     prop "title" (data (fst (createPost P req d))) = prop "title" body /\
     prop "author" (data (fst (createPost P req d)))
     = author_of d (auth_id caller) true).
Proof.
  intros Hok Hpid Hid Hne Hparse.
  destruct (createPost_created P req d Hok)
    as (caller & body & p & rows & Hcaller & Hbody & Hposts & _ & _ & Husers & _ & Hauthor & _ & _
        & Htitle & _ & _ & _ & _ & _ & _ & Hfresh & Hdata).
  assert (Hfind : find_post_by_id (snd (createPost P req d)) (Int (post_id p)) = Some p).
  { unfold find_post_by_id. rewrite Hposts. apply find_app_last.
    - intros q Hq. simpl. apply Z.eqb_neq. now apply Hfresh.
    - simpl. apply Z.eqb_refl. }
  assert (Hsame : pid = post_id p).
  { rewrite Hdata in Hpid. unfold postWithCategories in Hpid. rewrite Hfind in Hpid.
    unfold prop in Hpid. rewrite get_set_other in Hpid by discriminate.
    simpl in Hpid. now inversion Hpid. }
  subst pid. split.
  - rewrite (getPost_found P req' _ id (post_id p) p Hid Hne Hparse Hfind).
    now rewrite Hdata.
  - exists body, caller. split; [exact Hbody |]. split; [exact Hcaller |].
    rewrite Hdata. unfold postWithCategories. rewrite Hfind.
    unfold prop at 1 3. rewrite !get_set_other by discriminate. simpl.
    rewrite Htitle, Hauthor. split; [reflexivity |].
    unfold author_of, find_user_by_id. now rewrite Husers.
Qed.

Lemma created_post_can_be_read_witness :
  let P := Demo.platform false true in
  let req := Demo.with_body (Demo.as_user (Demo.anonymous 500) Demo.bob) demo_post in
  let req' := Demo.at_id (Demo.anonymous 600) "4" in
  data (fst (getPost P req' (snd (createPost P req Demo.seeded))))
  = data (fst (createPost P req Demo.seeded)).
Proof.
  intros P req req'.
  destruct (created_post_can_be_read P req req' Demo.seeded "4" 4
              ltac:(vm_compute; reflexivity) ltac:(vm_compute; reflexivity)
              eq_refl ltac:(discriminate) eq_refl) as [Hread _].
  rewrite Hread. reflexivity.
Defined.

(* ------------------------------------------------------------------ *)
(** ** The category list of a new post *)

Lemma in_array_ints (column : Z) (ids : list Z) :
  in_array column (ints ids) = existsb (Z.eqb column) ids.
Proof.
  unfold in_array, ints. induction ids as [| z ids IH]; simpl; [reflexivity |].
  now rewrite IH.
Qed.

Lemma rows_for_ints (pid : Z) (ids : list Z) :
  rows_for pid (ints ids) = Some (rows_to pid ids).
Proof.
  induction ids as [| z ids IH]; simpl; [reflexivity |]. now rewrite IH.
Qed.

Lemma NoDup_map_filter {A B : Type} (g : A -> B) (f : A -> bool) (l : list A) :
  NoDup (map g l) -> NoDup (map g (filter f l)).
Proof.
  induction l as [| x l IH]; simpl; intros H; [constructor |].
  inversion H as [| ? ? Hx Hl]; subst.
  destruct (f x); simpl; [| auto].
  constructor; [| auto].
  intros Hin. apply Hx. apply in_map_iff in Hin as (y & Hy & Hin).
  apply filter_In in Hin as [Hin _]. apply in_map_iff. eauto.
Qed.

Lemma categories_counted (ids : list Z) (cats : list category) :
  NoDup (map category_id cats) ->
  Nat.eqb (List.length (filter (fun c => in_array (category_id c) (ints ids)) cats))
          (List.length (ints ids)) = true <->
  NoDup ids /\ forall z, In z ids -> existsb (fun c => category_id c =? z) cats = true.
Proof.
  intros Hkeys.
  set (S := filter (fun c => in_array (category_id c) (ints ids)) cats).
  assert (Hnd : NoDup (map category_id S)) by now apply NoDup_map_filter.
  assert (Hincl : incl (map category_id S) ids).
  { intros z Hz. apply in_map_iff in Hz as (c & <- & Hc).
    apply filter_In in Hc as [_ Hc]. rewrite in_array_ints in Hc.
    apply existsb_exists in Hc as (z & Hz & Heq). apply Z.eqb_eq in Heq. now subst. }
  assert (Hlen : List.length (ints ids) = List.length ids) by (unfold ints; apply length_map).
  rewrite Hlen, Nat.eqb_eq. rewrite <- (length_map category_id S).
  split.
  - intros Heq.
    assert (Hle : (List.length ids <= List.length (map category_id S))%nat) by lia.
    split; [exact (NoDup_incl_NoDup Hnd Hle Hincl) |].
    intros z Hz.
    pose proof (NoDup_length_incl Hnd Hle Hincl z Hz) as Hin.
    apply in_map_iff in Hin as (c & Hc & Hin).
    apply filter_In in Hin as [Hin _].
    apply existsb_exists. exists c. split; [exact Hin |]. now apply Z.eqb_eq.
  - intros [Hids Hexist].
    apply Permutation_length. apply NoDup_Permutation; auto.
    intros z. split; [apply Hincl |]. intros Hz.
    specialize (Hexist z Hz). apply existsb_exists in Hexist as (c & Hc & Heq).
    apply Z.eqb_eq in Heq. apply in_map_iff. exists c. split; [exact Heq |].
    apply filter_In. split; [exact Hc |]. rewrite in_array_ints.
    apply existsb_exists. exists z. split; [exact Hz |]. apply Z.eqb_eq. congruence.
Qed.

Lemma pc_eqb_eq (a b : postCategory) : pc_eqb a b = true <-> a = b.
Proof.
  unfold pc_eqb. rewrite andb_true_iff, !Z.eqb_eq.
  destruct a, b; simpl. split; [intros [-> ->]; reflexivity | intros H; now inversion H].
Qed.

Lemma pk_clash_none (present rows : list postCategory) :
  NoDup rows ->
  (forall r, In r rows -> ~ In r present) ->
  pk_clash present rows = false.
Proof.
  revert present. induction rows as [| r rows IH]; intros present Hnd Hnew; [reflexivity |].
  simpl. inversion Hnd as [| ? ? Hr Hrows]; subst.
  apply orb_false_iff. split.
  - apply existsb_false_intro. intros q Hq.
    destruct (pc_eqb r q) eqn:Heq; [| reflexivity].
    apply pc_eqb_eq in Heq. subst q. exfalso. apply (Hnew r); [now left | exact Hq].
  - apply IH; [exact Hrows |].
    intros r' Hr' [<- | Hin]; [contradiction |].
    apply (Hnew r'); [now right | exact Hin].
Qed.

Lemma pk_clash_repeated (present rows : list postCategory) :
  ~ NoDup rows -> pk_clash present rows = true.
Proof.
  revert present. induction rows as [| r rows IH]; intros present Hdup.
  - exfalso. apply Hdup. constructor.
  - simpl. apply orb_true_iff.
    destruct (pk_clash (r :: present) rows) eqn:Hrest; [now right |].
    exfalso. apply Hdup. constructor.
    + intros Hin.
      assert (Hgen : forall present', In r present' -> pk_clash present' rows = true).
      { clear - Hin. induction rows as [| x rows IH]; [contradiction |].
        intros present' Hp. simpl. destruct Hin as [-> | Hin].
        - apply orb_true_iff. left. apply existsb_exists. exists r.
          split; [exact Hp | now apply pc_eqb_eq].
        - apply orb_true_iff. right. apply IH; [exact Hin | now right]. }
      rewrite Hgen in Hrest by now left. discriminate.
    + destruct (ListDec.NoDup_dec
                  (fun a b : postCategory =>
                     match bool_dec (pc_eqb a b) true with
                     | left e => left (proj1 (pc_eqb_eq a b) e)
                     | right n => right (fun e => n (proj2 (pc_eqb_eq a b) e))
                     end) rows) as [Hok | Hbad]; [exact Hok |].
      rewrite (IH (r :: present) Hbad) in Hrest. discriminate.
Qed.

Lemma rows_to_NoDup (pid : Z) (ids : list Z) : NoDup ids -> NoDup (rows_to pid ids).
Proof.
  unfold rows_to. induction 1 as [| z ids Hz Hids IH]; simpl; constructor; [| exact IH].
  intros Hin. apply Hz. apply in_map_iff in Hin as (c & Heq & Hc). now inversion Heq; subst.
Qed.

Lemma rows_to_postId (pid : Z) (ids : list Z) (r : postCategory) :
  In r (rows_to pid ids) -> pc_postId r = pid /\ In (pc_categoryId r) ids.
Proof.
  unfold rows_to. intros H. apply in_map_iff in H as (c & <- & Hc). now split.
Qed.

(** What [createPost] does with an accepted body whose slug is free and
    whose category list holds integers. *)
Lemma createPost_with_categories P req d caller body accepted slug ids :
  req_user req = Some caller -> req_body req = Some body ->
  safeParse P insertPostSchema body = Valid accepted ->
  prop "slug" body = VStr slug -> find_post_by_slug d slug = None ->
  prop "categoryIds" body = VArr (ints ids) -> ids <> [] ->
  exists p,
    post_id p = next_id (seq_posts d) (map post_id (posts d)) /\
    post_authorId p = auth_id caller /\
    let d1 := with_posts d (posts d ++ [p]) (post_id p) in
    let rows := rows_to (post_id p) ids in
    createPost P req d =
      if negb (Nat.eqb (List.length (filter (fun c => in_array (category_id c) (ints ids))
                                       (categories d)))
                       (List.length (ints ids)))
      then (failure 404 "One or more categories not found", d)
      else if (foreign_keys P && negb (user_exists d (auth_id caller)))%bool
      then (createAPIResponse 500 false "Internal server error" VUndef
              (Some [ExnMessage (SQLiteError ForeignKeyConstraintFailed)]), d)
      else if pk_clash (postCategories d) rows
      then (createAPIResponse 500 false "Internal server error" VUndef
              (Some [ExnMessage (SQLiteError (UniqueConstraintFailed "post_categories"))]), d1)
      else if (foreign_keys P &&
               negb (forallb (fun r => post_exists d1 (pc_postId r) &&
                                       category_exists d1 (pc_categoryId r)) rows))%bool
      then (createAPIResponse 500 false "Internal server error" VUndef
              (Some [ExnMessage (SQLiteError ForeignKeyConstraintFailed)]), d1)
      else
        let d2 := with_postCategories d1 (postCategories d ++ rows) in
        (createAPIResponse 201 true "Post created successfully"
           (postWithCategories d2 (Int (post_id p))) None, d2).
Proof.
  intros Hcaller Hbody Hvalid Hslug0 Hfree Hcids Hne.
  destruct (insertPostSchema_fields P body accepted Hvalid)
    as (title & slug' & content & Ht & Hs & Hc & Ht' & Hs' & Hc' & Hslug & Hct & Hst & He & Hf
        & Hexc & Himg).
  rewrite Hslug0 in Hs. inversion Hs; subst slug'.
  assert (Hexists : existsb (fun q => String.eqb (post_slug q) slug) (posts d) = false).
  { apply existsb_false_intro. intros q Hq. exact (find_none _ _ Hfree q Hq). }
  eexists {| post_id := next_id (seq_posts d) (map post_id (posts d));
             post_title := title; post_slug := slug; post_content := content;
             post_contentType := text_or "markdown" (prop "contentType" body);
             post_excerpt := nullable_text (prop "excerpt" body);
             post_status := text_or "draft" (prop "status" body);
             post_featuredImage := nullable_text (prop "featuredImage" body);
             post_authorId := auth_id caller;
             post_createdAt := req_now req; post_updatedAt := req_now req |}.
  split; [reflexivity |]. split; [reflexivity |]. cbv zeta.
  unfold createPost, catch_reported, isZodError. unfold_handlers.
  rewrite Hcaller, Hbody. simpl. rewrite Hvalid. simpl.
  rewrite ?Ht', ?Hs', ?Hc', ?Hct, ?Hst, ?He, ?Hf. simpl. rewrite Hslug. simpl.
  rewrite Hfree. simpl.
  rewrite (insert_post_run P _ _ _ _ _ _ _ _ _ Hexc Himg).
  rewrite Hcids.
  destruct ids as [| z ids]; [congruence |].
  change (ints (z :: ids)) with (VNum (Int z) :: ints ids).
  cbn [truthy length_positive List.length Nat.eqb negb].
  change (VNum (Int z) :: ints ids) with (ints (z :: ids)).
  destruct (negb (Nat.eqb _ _)); [reflexivity |].
  cbv beta iota zeta. rewrite Hexists.
  destruct (foreign_keys P && negb (user_exists d (auth_id caller)))%bool; [reflexivity |].
  cbv beta iota zeta. cbn [post_id].
  rewrite rows_for_ints. unfold insert_postCategories.
  cbn [postCategories with_posts].
  destruct (pk_clash (postCategories d) _); [reflexivity |].
  destruct (foreign_keys P && negb (forallb _ _))%bool; reflexivity.
Qed.

(** X14: With category ids unique, for a caller and a body that passes the
    schema with a free slug and a non-empty categoryIds list of integers,
    createPost answers 404 One or more categories not found and changes
    nothing unless the ids are pairwise distinct and all name stored
    categories (a repeated id is refused too, since the number of categories
    found is compared with the length of the list); when they are, every
    association row names a stored post and, with foreign keys on, the
    caller is a stored user, it answers 201 and appends one association row
    per id, in order. *)
Theorem createPost_checks_the_categories
  (P : Platform) (req : request) (d : db) (caller : AuthUser)
  (body accepted : value) (slug : string) (ids : list Z) :
  req_user req = Some caller -> req_body req = Some body ->
  safeParse P insertPostSchema body = Valid accepted ->
  prop "slug" body = VStr slug -> find_post_by_slug d slug = None ->
  prop "categoryIds" body = VArr (ints ids) -> ids <> [] ->
  NoDup (map category_id (categories d)) ->
  (~ (NoDup ids /\ forall z, In z ids -> category_exists d z = true) ->
   createPost P req d = (failure 404 "One or more categories not found", d)) /\
  (NoDup ids -> (forall z, In z ids -> category_exists d z = true) ->
   associations_have_posts d ->
   (foreign_keys P = true -> user_exists d (auth_id caller) = true) ->
   status (fst (createPost P req d)) = 201 /\
   exists p,
     posts (snd (createPost P req d)) = (posts d ++ [p])%list /\
     postCategories (snd (createPost P req d))
     = (postCategories d ++ rows_to (post_id p) ids)%list).
Proof.
  intros Hcaller Hbody Hvalid Hslug Hfree Hcids Hne Hkeys.
  destruct (createPost_with_categories P req d caller body accepted slug ids
              Hcaller Hbody Hvalid Hslug Hfree Hcids Hne) as (p & Hpid & _ & Hrun).
  cbv zeta in Hrun. rewrite Hrun. clear Hrun.
  pose proof (categories_counted ids (categories d) Hkeys) as Hcount.
  fold (category_exists d) in Hcount.
  destruct (Nat.eqb _ _) eqn:Hcheck; simpl.
  - split; [intros Hbad; exfalso; apply Hbad; apply Hcount; reflexivity |].
    intros Hids Hexist Hinv Hfk.
    assert (Hauthor : (foreign_keys P && negb (user_exists d (auth_id caller)))%bool = false).
    { destruct (foreign_keys P); [| reflexivity]. now rewrite (Hfk eq_refl). }
    rewrite Hauthor.
    rewrite pk_clash_none.
    2:{ now apply rows_to_NoDup. }
    2:{ intros r Hr Hin. apply rows_to_postId in Hr as [Hr _].
        destruct (Hinv r Hin) as (q & Hq & Hqid).
        apply (next_id_fresh (seq_posts d) (map post_id (posts d))).
        rewrite <- Hpid, <- Hr, <- Hqid. now apply in_map. }
    assert (Hrefs : forallb (fun r => post_exists (with_posts d (posts d ++ [p]) (post_id p))
                                        (pc_postId r) &&
                                      category_exists (with_posts d (posts d ++ [p]) (post_id p))
                                        (pc_categoryId r))%bool
                      (rows_to (post_id p) ids) = true).
    { apply forallb_forall. intros r Hr. apply rows_to_postId in Hr as [Hr Hc].
      apply andb_true_iff. split.
      - unfold post_exists. simpl. rewrite existsb_app. simpl.
        rewrite Hr, Z.eqb_refl. now rewrite orb_true_r.
      - unfold category_exists. simpl. exact (Hexist _ Hc). }
    rewrite Hrefs, andb_false_r. simpl. split; [reflexivity |].
    exists p. split; reflexivity.
  - split; [reflexivity |].
    intros Hids Hexist. exfalso.
    pose proof (proj2 Hcount (conj Hids Hexist)) as Hyes. discriminate.
Qed.

Lemma createPost_checks_the_categories_witness :
  let P := Demo.platform false true in
  let req := Demo.with_body (Demo.as_user (Demo.anonymous 500) Demo.bob) demo_post in
  status (fst (createPost P req Demo.seeded)) = 201 /\
  exists p,
    postCategories (snd (createPost P req Demo.seeded))
    = (postCategories Demo.seeded ++ rows_to (post_id p) [1; 2])%list.
Proof.
  intros P req.
  let r := eval vm_compute in (safeParse P insertPostSchema demo_post) in
  match r with
  | Valid ?accepted =>
      destruct (createPost_checks_the_categories P req Demo.seeded Demo.bob demo_post
                  accepted "fourth-post" [1; 2] eq_refl eq_refl
                  ltac:(vm_compute; reflexivity) eq_refl eq_refl eq_refl
                  ltac:(discriminate) seeded_category_ids) as [_ Hgood]
  end.
  destruct Hgood as (Hstatus & p & _ & Hrows).
  - repeat (constructor; [simpl; intuition discriminate |]). constructor.
  - intros z [<- | [<- | []]]; reflexivity.
  - exact seeded_associations_have_posts.
  - intros _. reflexivity.
  - split; [exact Hstatus | exists p; exact Hrows].
Defined.

(* ------------------------------------------------------------------ *)
(** ** Listing posts: the filters *)













(* ------------------------------------------------------------------ *)
(** ** Listing posts: a query that the schema refuses *)

Lemma walk_refuses (parse_field : string -> schema -> value -> parsed) (fields : fields_t)
      (shape : list (string * schema)) (k : string) (s : schema) (i : list issue) :
  In (k, s) shape -> parse_field k s (get k fields) = Invalid i -> i <> [] ->
  fst (walk parse_field fields shape) <> [].
Proof.
  intros Hin Hp Hi. induction shape as [| [k0 s0] rest IH]; [contradiction |].
  simpl. destruct (walk parse_field fields rest) as [issues out] eqn:Hw.
  destruct Hin as [Heq | Hin].
  - inversion Heq; subst k0 s0. rewrite Hp. simpl.
    destruct i; [congruence | discriminate].
  - specialize (IH Hin). simpl in IH.
    destruct (parse_field k0 s0 (get k0 fields)) as [x | i0]; [destruct x; exact IH |].
    simpl. intros Happ. apply app_eq_nil in Happ as [_ Happ]. contradiction.
Qed.

Lemma safeParse_refuses P (shape : list (string * schema)) (fields : fields_t)
      (k : string) (s : schema) (i : list issue) :
  In (k, s) shape -> parse_at P k s (get k fields) = Invalid i ->
  exists issues, safeParse P (z_object shape) (VObj fields) = Invalid issues.
Proof.
  intros Hin Hp. unfold safeParse. simpl.
  pose proof (walk_refuses (parse_at P) fields shape k s i Hin Hp
                (parse_at_invalid_nonempty P s k _ i Hp)) as Hw.
  destruct (walk (parse_at P) fields shape) as [[| i0 issues] out]; [now contradiction Hw |].
  eauto.
Qed.

Lemma number_out_of_range P path checks dflt n :
  (forall z, n = Int z -> exists c, In c checks /\ num_check_issue c z <> None) ->
  exists i, parse_at P path (z_default (z_coerce_number checks) dflt) (VNum n) = Invalid i.
Proof.
  intros Hbad. simpl. destruct n as [z | |]; simpl; eauto.
  destruct (Hbad z eq_refl) as (c & Hc & Hissue).
  assert (Hcodes : collect (fun c => num_check_issue c z) checks <> []).
  { clear Hbad. induction checks as [| c0 cs IH]; [contradiction |]. simpl.
    destruct Hc as [-> | Hc].
    - destruct (num_check_issue c z); [discriminate | congruence].
    - destruct (num_check_issue c0 z); [discriminate | auto]. }
  unfold finish. destruct (collect _ checks); [congruence | eauto].
Qed.

Lemma getPosts_refused P req d issues :
  safeParse P postsQuerySchema (posts_query_input P (req_query req)) = Invalid issues ->
  getPosts P req d = (validation_error issues, d).
Proof.
  intros H. unfold getPosts. unfold_handlers. rewrite H. reflexivity.
Qed.

(** X16: A listing request whose limit parameter is a non-empty text that is
    not an integer from 1 to 100, or whose page parameter is a non-empty
    text that is not an integer of at least 1, is answered 400 Validation
    error and changes nothing: the limit is never clamped. *)
Theorem getPosts_refuses_page_and_limit_out_of_range
  (P : Platform) (req : request) (d : db) (k text : string) :
  get k (fromEntries (req_query req)) = VStr text -> text <> "" ->
  (k = "limit" /\ (forall z, js_Number P (VStr text) = Int z -> z < 1 \/ 100 < z)) \/
  (k = "page" /\ (forall z, js_Number P (VStr text) = Int z -> z < 1)) ->
  status (fst (getPosts P req d)) = 400 /\
  message (fst (getPosts P req d)) = Some "Validation error" /\
  success (fst (getPosts P req d)) = false /\
  snd (getPosts P req d) = d.
Proof.
  intros Hget Hne Hbad.
  assert (Hinput : prop k (posts_query_input P (req_query req))
                   = VNum (js_Number P (VStr text))).
  { assert (Htruthy : truthy (VStr text) = true) by (destruct text; [congruence | reflexivity]).
    destruct Hbad as [[-> _] | [-> _]].
    - rewrite posts_query_input_limit, Hget. unfold number_or_undefined. now rewrite Htruthy.
    - rewrite posts_query_input_page, Hget. unfold number_or_undefined. now rewrite Htruthy. }
  assert (Hrefused : exists issues,
             safeParse P postsQuerySchema (posts_query_input P (req_query req)) = Invalid issues).
  { unfold posts_query_input in *. unfold prop in Hinput.
    destruct Hbad as [[-> Hrange] | [-> Hrange]].
    - destruct (number_out_of_range P "limit" [NInteger; NMin 1; NMax 100] (VNum (Int 10))
                  (js_Number P (VStr text))) as [i Hi].
      { intros z Hz. destruct (Hrange z Hz) as [Hlow | Hhigh].
        - exists (NMin 1). split; [simpl; tauto |]. simpl.
          destruct (Z.leb_spec 1 z); [lia | discriminate].
        - exists (NMax 100). split; [simpl; tauto |]. simpl.
          destruct (Z.leb_spec z 100); [lia | discriminate]. }
      eapply (safeParse_refuses P _ _ "limit"); [simpl; tauto |].
      rewrite Hinput. exact Hi.
    - destruct (number_out_of_range P "page" [NInteger; NMin 1] (VNum (Int 1))
                  (js_Number P (VStr text))) as [i Hi].
      { intros z Hz. exists (NMin 1). split; [simpl; tauto |]. simpl.
        specialize (Hrange z Hz). destruct (Z.leb_spec 1 z); [lia | discriminate]. }
      eapply (safeParse_refuses P _ _ "page"); [simpl; tauto |].
      rewrite Hinput. exact Hi. }
  destruct Hrefused as [issues Hrefused].
  rewrite (getPosts_refused P req d issues Hrefused). repeat split.
Qed.

Lemma getPosts_refuses_page_and_limit_out_of_range_witness :
  let P := Demo.platform false true in
  let req := Demo.with_query (Demo.anonymous 500) [ ("limit", "101") ] in
  status (fst (getPosts P req Demo.seeded)) = 400.
Proof.
  intros P req.
  refine (proj1 (getPosts_refuses_page_and_limit_out_of_range P req Demo.seeded
                   "limit" "101" eq_refl ltac:(discriminate) _)).
  left. split; [reflexivity |].
  intros z Hz. vm_compute in Hz. inversion Hz. lia.
Defined.

(* ------------------------------------------------------------------ *)
(** ** Listing posts: the pages together *)





(* ------------------------------------------------------------------ *)
(** ** Changing the categories of a post *)

(** What [updatePost] does for the author or an admin with an accepted
    body that carries a list of category ids. *)
Lemma updatePost_with_categories P req d caller id pid p body accepted ids :
  req_user req = Some caller -> req_id req = Some id -> id <> EmptyString ->
  js_parseInt P id = Int pid -> find_post_by_id d (Int pid) = Some p ->
  owner_or_admin caller p = true ->
  req_body req = Some body ->
  safeParse P postUpdateSchema body = Valid accepted ->
  prop "categoryIds" body = VArr (ints ids) ->
  (forall s, prop "slug" accepted = VStr s -> s <> post_slug p -> find_post_by_slug d s = None) ->
  unique_slugs d ->
  (foreign_keys P = true -> authors_exist d) ->
  let d1 := with_posts d (rewritten_posts accepted (req_now req) pid (posts d)) (seq_posts d) in
  let others := filter (fun pc => negb (pc_postId pc =? pid)) (postCategories d) in
  let d2 := with_postCategories d1 others in
  let rows := rows_to pid ids in
  updatePost P req d =
    match ids with
    | [] => (createAPIResponse 200 true "Post updated successfully"
               (postWithCategories d2 (Int pid)) None, d2)
    | _ :: _ =>
        if pk_clash others rows
        then (createAPIResponse 500 false "Internal server error" VUndef
                (Some [ExnMessage (SQLiteError (UniqueConstraintFailed "post_categories"))]), d2)
        else if (foreign_keys P &&
                 negb (forallb (fun r => post_exists d2 (pc_postId r) &&
                                         category_exists d2 (pc_categoryId r)) rows))%bool
        then (createAPIResponse 500 false "Internal server error" VUndef
                (Some [ExnMessage (SQLiteError ForeignKeyConstraintFailed)]), d2)
        else
          let d3 := with_postCategories d2 (others ++ rows) in
          (createAPIResponse 200 true "Post updated successfully"
             (postWithCategories d3 (Int pid)) None, d3)
    end.
Proof.
  intros Huser Hid Hne Hparse Hfind Hown Hbody Hvalid Hcids Hslug Huniq Hfk d1 others d2 rows.
  destruct (id_missing_false _ _ Hid Hne) as [Hmiss Htext].
  destruct (find_post_by_id_some _ _ _ Hfind) as [Hp_in Hp_id].
  assert (Hupd : update_post P (set "updatedAt" (VDate (req_now req)) (fields_of accepted))
                   (Int pid) d = (Ok tt, d1)).
  { eapply update_post_accepted; eauto.
    intros q r Hq Hr Hq_id Hr_id Heq.
    destruct (update_data_slug P body accepted Hvalid) as [Hs | (s & Hs & _)];
      rewrite Hs in Heq; simpl in Heq.
    - apply Hr_id. rewrite <- Hq_id. now apply Huniq.
    - destruct (String.eqb_spec s (post_slug p)) as [Hsame | Hdiff].
      + apply Hr_id. rewrite <- Hp_id. apply Huniq; auto. congruence.
      + specialize (Hslug s Hs Hdiff). unfold find_post_by_slug in Hslug.
        pose proof (find_none _ _ Hslug r Hr) as Hno. simpl in Hno.
        rewrite Heq, String.eqb_refl in Hno. discriminate. }
  assert (Htail :
    (let (o, d') :=
       (let (o, d') := update_post P (set "updatedAt" (VDate (req_now req)) (fields_of accepted))
                         (Int pid) d in
        match o with
        | Ok _ =>
            (let (o0, d'0) :=
               (if truthy (VArr (ints ids)) then
                  fun d0 =>
                    let (o1, d'1) := delete_postCategories_of (Int pid) d0 in
                    match o1 with
                    | Ok _ =>
                        (if length_positive (VArr (ints ids)) then
                           match association_rows (Int pid) (ints ids) with
                           | Some rows => insert_postCategories P rows
                           | None => fun d3 => (Throw (SQLiteError DatatypeMismatch), d3)
                           end
                         else fun d3 => (Ok tt, d3)) d'1
                    | Return r => (Return r, d'1)
                    | Throw e => (Throw e, d'1)
                    end
                else fun d0 => (Ok tt, d0)) d' in
             match o0 with
             | Ok _ =>
                 (Ok (createAPIResponse 200 true "Post updated successfully"
                        (postWithCategories d'0 (Int pid)) None), d'0)
             | Return r => (Return r, d'0)
             | Throw e => (Throw e, d'0)
             end)
        | Return r => (Return r, d')
        | Throw e => (Throw e, d')
        end) in
     match o with
     | Ok r | Return r => (r, d')
     | Throw e => (catch_reported e, d')
     end)
    = match ids with
      | [] => (createAPIResponse 200 true "Post updated successfully"
                 (postWithCategories d2 (Int pid)) None, d2)
      | _ :: _ =>
          if pk_clash others rows
          then (createAPIResponse 500 false "Internal server error" VUndef
                  (Some [ExnMessage (SQLiteError (UniqueConstraintFailed "post_categories"))]), d2)
          else if (foreign_keys P &&
                   negb (forallb (fun r => post_exists d2 (pc_postId r) &&
                                           category_exists d2 (pc_categoryId r)) rows))%bool
          then (createAPIResponse 500 false "Internal server error" VUndef
                  (Some [ExnMessage (SQLiteError ForeignKeyConstraintFailed)]), d2)
          else
            let d3 := with_postCategories d2 (others ++ rows) in
            (createAPIResponse 200 true "Post updated successfully"
               (postWithCategories d3 (Int pid)) None, d3)
      end).
  { rewrite Hupd. unfold association_rows. rewrite rows_for_ints.
    unfold delete_postCategories_of, insert_postCategories, eq_num.
    subst rows d2 others d1.
    destruct ids as [| z ids]; [reflexivity |].
    cbn [truthy length_positive ints map List.length Nat.eqb negb
         postCategories with_postCategories with_posts].
    cbv beta iota zeta.
    cbn [postCategories with_postCategories with_posts].
    destruct (pk_clash _ _); [reflexivity |].
    destruct (foreign_keys P && _)%bool; reflexivity. }
  rewrite <- Htail. clear Htail Hupd.
  unfold updatePost. unfold_handlers.
  rewrite Huser, Hmiss, Htext, Hparse, Hbody. simpl.
  rewrite Hvalid. simpl.
  rewrite (update_data_slug_check P body accepted Hvalid). simpl.
  rewrite Hfind, owner_or_admin_guard, Hown. simpl.
  rewrite Hcids. unfold fields_of.
  destruct (update_data_slug P body accepted Hvalid) as [Hs | (s & Hs & _)]; rewrite Hs; simpl.
  - reflexivity.
  - destruct (negb (is_empty s)); simpl; [| reflexivity].
    destruct (String.eqb_spec s (post_slug p)) as [Hsame | Hdiff]; simpl; [reflexivity |].
    rewrite (Hslug s Hs Hdiff). reflexivity.
Qed.

Lemma rows_to_NoDup_inv (pid : Z) (ids : list Z) : NoDup (rows_to pid ids) -> NoDup ids.
Proof.
  unfold rows_to. induction ids as [| z ids IH]; simpl; intros H; [constructor |].
  inversion H as [| ? ? Hz Hids]; subst. constructor; [| auto].
  intros Hin. apply Hz. apply in_map_iff. eauto.
Qed.

Lemma rewritten_posts_ids accepted now pid rows :
  map post_id (rewritten_posts accepted now pid rows) = map post_id rows.
Proof.
  unfold rewritten_posts. rewrite map_map. apply map_ext.
  intros q. destruct (post_id q =? pid); reflexivity.
Qed.

(** X18: In a database whose post slugs are unique, when the author or an
    admin sends a valid update with a categoryIds list of pairwise distinct
    integers and a slug that is unchanged or free, updatePost answers 200,
    rewrites the post and replaces the post's association rows by one row
    per id of the list: the old rows of the post are gone and the rows of
    other posts stay. With foreign keys on this needs the authors and the
    listed categories to be stored; with foreign keys off nothing checks the
    ids against the categories. *)
Theorem updatePost_replaces_the_categories
  (P : Platform) (req : request) (d : db) (caller : AuthUser) (id : string) (pid : Z)
  (p : post) (body accepted : value) (ids : list Z) :
  req_user req = Some caller -> req_id req = Some id -> id <> EmptyString ->
  js_parseInt P id = Int pid -> find_post_by_id d (Int pid) = Some p ->
  owner_or_admin caller p = true ->
  req_body req = Some body ->
  safeParse P postUpdateSchema body = Valid accepted ->
  prop "categoryIds" body = VArr (ints ids) ->
  (forall s, prop "slug" accepted = VStr s -> s <> post_slug p -> find_post_by_slug d s = None) ->
  unique_slugs d ->
  (foreign_keys P = true -> authors_exist d) ->
  NoDup ids ->
  (foreign_keys P = true -> forall z, In z ids -> category_exists d z = true) ->
  status (fst (updatePost P req d)) = 200 /\
  postCategories (snd (updatePost P req d))
  = (filter (fun pc => negb (pc_postId pc =? pid)) (postCategories d) ++ rows_to pid ids)%list /\
  posts (snd (updatePost P req d)) = rewritten_posts accepted (req_now req) pid (posts d).
Proof.
  intros Huser Hid Hne Hparse Hfind Hown Hbody Hvalid Hcids Hslug Huniq Hfk Hids Hexist.
  rewrite (updatePost_with_categories P req d caller id pid p body accepted ids
             Huser Hid Hne Hparse Hfind Hown Hbody Hvalid Hcids Hslug Huniq Hfk).
  destruct ids as [| z ids]; [simpl; rewrite app_nil_r; repeat split |].
  rewrite pk_clash_none.
  2:{ now apply rows_to_NoDup. }
  2:{ intros r Hr Hin. apply rows_to_postId in Hr as [Hr _].
      apply filter_In in Hin as [_ Hin]. rewrite Hr, Z.eqb_refl in Hin. discriminate. }
  assert (Hrefs : (foreign_keys P &&
                   negb (forallb (fun r =>
                           post_exists
                             (with_postCategories
                                (with_posts d (rewritten_posts accepted (req_now req) pid (posts d))
                                   (seq_posts d))
                                (filter (fun pc => negb (pc_postId pc =? pid)) (postCategories d)))
                             (pc_postId r) &&
                           category_exists
                             (with_postCategories
                                (with_posts d (rewritten_posts accepted (req_now req) pid (posts d))
                                   (seq_posts d))
                                (filter (fun pc => negb (pc_postId pc =? pid)) (postCategories d)))
                             (pc_categoryId r))
                           (rows_to pid (z :: ids))))%bool = false).
  { destruct (foreign_keys P) eqn:Hflag; [| reflexivity]. rewrite andb_true_l.
    apply negb_false_iff, forallb_forall. intros r Hr.
    apply rows_to_postId in Hr as [Hr Hc]. apply andb_true_iff. split.
    - unfold post_exists. cbn [posts with_postCategories with_posts].
      apply existsb_exists.
      destruct (find_post_by_id_some _ _ _ Hfind) as [Hp_in Hp_id].
      assert (Hin : In pid (map post_id (rewritten_posts accepted (req_now req) pid (posts d)))).
      { rewrite rewritten_posts_ids, <- Hp_id. now apply in_map. }
      apply in_map_iff in Hin as (q & Hq & Hin). exists q. split; [exact Hin |].
      rewrite Hr. now apply Z.eqb_eq.
    - exact (Hexist eq_refl _ Hc). }
  rewrite Hrefs. repeat split.
Qed.

Lemma updatePost_replaces_the_categories_witness :
  let P := Demo.platform false true in
  let req := Demo.with_body (Demo.at_id (Demo.as_user (Demo.anonymous 500) Demo.alice) "1")
               (demo_update [2]) in
  status (fst (updatePost P req Demo.seeded)) = 200 /\
  postCategories (snd (updatePost P req Demo.seeded))
  = [ {| pc_postId := 1; pc_categoryId := 2 |} ].
Proof.
  intros P req.
  assert (Hfind : exists p, find_post_by_id Demo.seeded (Int 1) = Some p)
    by (eexists; vm_compute; reflexivity).
  destruct Hfind as [p Hfind].
  let r := eval vm_compute in (safeParse P postUpdateSchema (demo_update [2])) in
  match r with
  | Valid ?accepted =>
      destruct (updatePost_replaces_the_categories P req Demo.seeded Demo.alice "1" 1 p
                  (demo_update [2]) accepted [2] eq_refl eq_refl ltac:(discriminate)
                  eq_refl Hfind)
        as (Hstatus & Hrows & _)
  end.
  - vm_compute in Hfind. inversion Hfind. reflexivity.
  - reflexivity.
  - vm_compute. reflexivity.
  - reflexivity.
  - intros s Hs. vm_compute in Hs. discriminate.
  - exact seeded_unique_slugs.
  - intros _. exact seeded_authors_exist.
  - repeat (constructor; [simpl; intuition discriminate |]). constructor.
  - intros _ z [<- | []]. reflexivity.
  - split; [exact Hstatus | exact Hrows].
Defined.

(** X19: updatePost is not one transaction: in a database whose post slugs
    are unique, when the categoryIds list of an otherwise valid update by
    the author or an admin repeats an id, the answer is 500, yet the post
    has been rewritten and all its association rows have been deleted. *)
Theorem updatePost_is_not_atomic
  (P : Platform) (req : request) (d : db) (caller : AuthUser) (id : string) (pid : Z)
  (p : post) (body accepted : value) (ids : list Z) :
  req_user req = Some caller -> req_id req = Some id -> id <> EmptyString ->
  js_parseInt P id = Int pid -> find_post_by_id d (Int pid) = Some p ->
  owner_or_admin caller p = true ->
  req_body req = Some body ->
  safeParse P postUpdateSchema body = Valid accepted ->
  prop "categoryIds" body = VArr (ints ids) ->
  (forall s, prop "slug" accepted = VStr s -> s <> post_slug p -> find_post_by_slug d s = None) ->
  unique_slugs d ->
  (foreign_keys P = true -> authors_exist d) ->
  ~ NoDup ids ->
  status (fst (updatePost P req d)) = 500 /\
  posts (snd (updatePost P req d)) = rewritten_posts accepted (req_now req) pid (posts d) /\
  postCategories (snd (updatePost P req d))
  = filter (fun pc => negb (pc_postId pc =? pid)) (postCategories d).
Proof.
  intros Huser Hid Hne Hparse Hfind Hown Hbody Hvalid Hcids Hslug Huniq Hfk Hids.
  rewrite (updatePost_with_categories P req d caller id pid p body accepted ids
             Huser Hid Hne Hparse Hfind Hown Hbody Hvalid Hcids Hslug Huniq Hfk).
  destruct ids as [| z ids]; [exfalso; apply Hids; constructor |].
  rewrite pk_clash_repeated; [repeat split |].
  intros Hrows. apply Hids. exact (rows_to_NoDup_inv pid _ Hrows).
Qed.

Lemma updatePost_is_not_atomic_witness :
  let P := Demo.platform false true in
  let req := Demo.with_body (Demo.at_id (Demo.as_user (Demo.anonymous 500) Demo.alice) "1")
               (demo_update [2; 2]) in
  status (fst (updatePost P req Demo.seeded)) = 500 /\
  postCategories (snd (updatePost P req Demo.seeded)) = [] /\
  exists p, find_post_by_id (snd (updatePost P req Demo.seeded)) (Int 1) = Some p /\
            post_title p = "First Post, again".
Proof.
  intros P req.
  assert (Hfind : exists p, find_post_by_id Demo.seeded (Int 1) = Some p)
    by (eexists; vm_compute; reflexivity).
  destruct Hfind as [p Hfind].
  let r := eval vm_compute in (safeParse P postUpdateSchema (demo_update [2; 2])) in
  match r with
  | Valid ?accepted =>
      destruct (updatePost_is_not_atomic P req Demo.seeded Demo.alice "1" 1 p
                  (demo_update [2; 2]) accepted [2; 2] eq_refl eq_refl ltac:(discriminate)
                  eq_refl Hfind)
        as (Hstatus & Hposts & Hrows)
  end.
  - vm_compute in Hfind. inversion Hfind. reflexivity.
  - reflexivity.
  - vm_compute. reflexivity.
  - reflexivity.
  - intros s Hs. vm_compute in Hs. discriminate.
  - exact seeded_unique_slugs.
  - intros _. exact seeded_authors_exist.
  - intros Hnd. inversion Hnd as [| ? ? Hin _]. apply Hin. now left.
  - split; [exact Hstatus |]. split; [exact Hrows |].
    unfold find_post_by_id. rewrite Hposts. eexists. vm_compute. split; reflexivity.
Defined.

(* ------------------------------------------------------------------ *)
(** ** Creating a category *)

Lemma parse_optional_nullable_string_valid P path cs v x :
  parse_at P path (z_optional (z_nullable (z_string cs))) v = Valid x ->
  x = v /\ (v = VUndef \/ v = VNull \/ exists s, v = VStr s).
Proof.
  intros H. destruct v; simpl in H; try discriminate.
  - rewrite andb_false_r in H. inversion H. auto.
  - inversion H. auto.
  - apply finish_valid in H. split; [exact H | eauto].
Qed.

Lemma insertCategorySchema_fields P body accepted :
  safeParse P insertCategorySchema body = Valid accepted ->
  exists name slug,
    prop "name" body = VStr name /\ prop "slug" body = VStr slug /\
    prop "name" accepted = VStr name /\ prop "slug" accepted = VStr slug /\
    validateSlug slug = true /\
    prop "description" accepted = prop "description" body /\
    (prop "description" body = VUndef \/ prop "description" body = VNull \/
     exists s, prop "description" body = VStr s).
Proof.
  intros H. apply safeParse_object in H as (fields & out & -> & -> & Hval & _);
    [| distinct_keys].
  pose proof (Hval "name" _ ltac:(simpl; tauto)) as Hn.
  pose proof (Hval "slug" _ ltac:(simpl; tauto)) as Hs.
  pose proof (Hval "description" _ ltac:(simpl; tauto)) as Hd.
  destruct (parse_string_valid P _ _ _ _ Hn) as (name & Hn1 & Hn2).
  destruct (parse_string_valid P _ _ _ _ Hs) as (slug & Hs1 & Hs2).
  destruct (parse_optional_nullable_string_valid P _ _ _ _ Hd) as [Hd1 Hd2].
  exists name, slug. unfold prop. rewrite Hn1, Hs1, Hn2, Hs2, Hd1.
  repeat split; auto.
  rewrite Hs1 in Hs. simpl in Hs. destruct (validateSlug slug); [reflexivity | discriminate].
Qed.

Lemma createCategory_run P req d body accepted name slug :
  is_admin (req_user req) = true -> req_body req = Some body ->
  safeParse P insertCategorySchema body = Valid accepted ->
  prop "name" body = VStr name -> prop "slug" body = VStr slug ->
  createCategory P req d =
    if existsb (fun c => String.eqb (category_slug c) slug) (categories d) then
      (failure 409 "Category slug already exists", d)
    else if existsb (fun c => String.eqb (category_name c) name) (categories d) then
      (failure 500 "Internal server error", d)
    else
      let c := new_category d name slug (prop "description" body) (req_now req) in
      (createAPIResponse 201 true "Category created successfully" (VObj (category_row c)) None,
       with_categories d (categories d ++ [c]) (category_id c)).
Proof.
  intros Hadmin Hbody Hvalid Hname Hslug.
  destruct (insertCategorySchema_fields P body accepted Hvalid)
    as (name' & slug' & Hn & Hs & Hn' & Hs' & Hok & Hd & _).
  rewrite Hname in Hn. rewrite Hslug in Hs. inversion Hn; inversion Hs; subst name' slug'.
  unfold createCategory, insert_category, catch_logged, isZodError. unfold_handlers.
  rewrite Hadmin, Hbody. simpl. rewrite Hvalid. simpl.
  rewrite ?Hn', ?Hs', ?Hd. simpl. rewrite Hok. simpl.
  unfold find_category_by_slug.
  destruct (find (fun c => String.eqb (category_slug c) slug) (categories d)) as [c0 |] eqn:Hfind.
  - apply find_some in Hfind as [Hin Hc].
    assert (Hex : existsb (fun c => String.eqb (category_slug c) slug) (categories d) = true)
      by (apply existsb_exists; eauto).
    rewrite Hex. reflexivity.
  - assert (Hex : existsb (fun c => String.eqb (category_slug c) slug) (categories d) = false).
    { apply existsb_false_intro. intros c Hc. exact (find_none _ _ Hfind c Hc). }
    rewrite Hex. simpl.
    destruct (existsb (fun c => String.eqb (category_name c) name) (categories d)); reflexivity.
Qed.

(** X20: For an admin and a body that passes the schema, createCategory
    answers 409 Category slug already exists when the slug is taken; 500
    Internal server error when the slug is free but the name is taken (only
    the slug is looked up before the insert); and 201 with a new row of a
    fresh id otherwise. Only the last case changes the database. *)
Theorem createCategory_answers_by_what_is_taken
  (P : Platform) (req : request) (d : db) (body accepted : value) (name slug : string) :
  is_admin (req_user req) = true -> req_body req = Some body ->
  safeParse P insertCategorySchema body = Valid accepted ->
  prop "name" body = VStr name -> prop "slug" body = VStr slug ->
  ((exists c, In c (categories d) /\ category_slug c = slug) ->
   createCategory P req d = (failure 409 "Category slug already exists", d)) /\
  ((forall c, In c (categories d) -> category_slug c <> slug) ->
   (exists c, In c (categories d) /\ category_name c = name) ->
   createCategory P req d = (failure 500 "Internal server error", d)) /\
  ((forall c, In c (categories d) -> category_slug c <> slug /\ category_name c <> name) ->
   exists c,
     status (fst (createCategory P req d)) = 201 /\
     data (fst (createCategory P req d)) = VObj (category_row c) /\
     categories (snd (createCategory P req d)) = (categories d ++ [c])%list /\
     category_name c = name /\ category_slug c = slug /\
     category_createdAt c = req_now req /\
     ~ In (category_id c) (map category_id (categories d)) /\
     users (snd (createCategory P req d)) = users d /\
     posts (snd (createCategory P req d)) = posts d /\
     postCategories (snd (createCategory P req d)) = postCategories d).
Proof.
  intros Hadmin Hbody Hvalid Hname Hslug.
  rewrite (createCategory_run P req d body accepted name slug Hadmin Hbody Hvalid Hname Hslug).
  assert (Hslug_iff : existsb (fun c => String.eqb (category_slug c) slug) (categories d) = true
                      <-> exists c, In c (categories d) /\ category_slug c = slug).
  { rewrite existsb_exists. split; intros (c & Hin & Hc); exists c; split; auto;
      now apply String.eqb_eq. }
  assert (Hname_iff : existsb (fun c => String.eqb (category_name c) name) (categories d) = true
                      <-> exists c, In c (categories d) /\ category_name c = name).
  { rewrite existsb_exists. split; intros (c & Hin & Hc); exists c; split; auto;
      now apply String.eqb_eq. }
  destruct (existsb (fun c => String.eqb (category_slug c) slug) (categories d)) eqn:Hs.
  - split; [reflexivity |]. split.
    + intros Hfree _. exfalso. destruct (proj1 Hslug_iff eq_refl) as (c & Hin & Hc).
      exact (Hfree c Hin Hc).
    + intros Hfree. exfalso. destruct (proj1 Hslug_iff eq_refl) as (c & Hin & Hc).
      exact (proj1 (Hfree c Hin) Hc).
  - split; [intros Htaken; apply Hslug_iff in Htaken; discriminate |].
    destruct (existsb (fun c => String.eqb (category_name c) name) (categories d)) eqn:Hn.
    + split; [reflexivity |].
      intros Hfree. exfalso. destruct (proj1 Hname_iff eq_refl) as (c & Hin & Hc).
      exact (proj2 (Hfree c Hin) Hc).
    + split; [intros _ Htaken; apply Hname_iff in Htaken; discriminate |].
      intros _. eexists. cbv zeta. cbn [fst snd].
      repeat split; try reflexivity.
      apply (next_id_fresh (seq_categories d) (map category_id (categories d))).
Qed.

Lemma createCategory_answers_by_what_is_taken_witness :
  let P := Demo.platform false true in
  let taken_slug := Demo.with_body (Demo.as_user (Demo.anonymous 500) Demo.root)
                      (VObj [ ("name", VStr "Fresh"); ("slug", VStr "news") ]) in
  let taken_name := Demo.with_body (Demo.as_user (Demo.anonymous 500) Demo.root)
                      (VObj [ ("name", VStr "News"); ("slug", VStr "fresh") ]) in
  status (fst (createCategory P taken_slug Demo.seeded)) = 409 /\
  status (fst (createCategory P taken_name Demo.seeded)) = 500.
Proof.
  intros P taken_slug taken_name.
  destruct (createCategory_answers_by_what_is_taken P taken_slug Demo.seeded
              (VObj [ ("name", VStr "Fresh"); ("slug", VStr "news") ])
              (VObj [ ("name", VStr "Fresh"); ("slug", VStr "news") ])
              "Fresh" "news" eq_refl eq_refl ltac:(vm_compute; reflexivity) eq_refl eq_refl)
    as (Hslug & _ & _).
  destruct (createCategory_answers_by_what_is_taken P taken_name Demo.seeded
              (VObj [ ("name", VStr "News"); ("slug", VStr "fresh") ])
              (VObj [ ("name", VStr "News"); ("slug", VStr "fresh") ])
              "News" "fresh" eq_refl eq_refl ltac:(vm_compute; reflexivity) eq_refl eq_refl)
    as (_ & Hname & _).
  split.
  - rewrite Hslug; [reflexivity |].
    eexists. split; [left; reflexivity | reflexivity].
  - rewrite Hname; [reflexivity | |].
    + intros c [<- | [<- | []]]; discriminate.
    + eexists. split; [left; reflexivity | reflexivity].
Defined.

(* ------------------------------------------------------------------ *)
(** ** Updating a category *)

Lemma categoryUpdateSchema_object P body data :
  safeParse P categoryUpdateSchema body = Valid data ->
  exists fields out,
    body = VObj fields /\ data = VObj out /\
    (forall k s, In (k, s) [ ("name", z_optional (z_string [SMin 1; SMax 100]));
                             ("slug", z_optional (z_string [SRegex validateSlug]));
                             ("description",
                              z_optional (z_optional (z_nullable (z_string [SMax 500])))) ] ->
                 parse_at P k s (get k fields) = Valid (get k out)) /\
    (forall k, ~ In k ["name"; "slug"; "description"] -> get k out = VUndef).
Proof.
  intros H. apply safeParse_object in H; [exact H | distinct_keys].
Qed.

Lemma category_update_slug_check P body data :
  safeParse P categoryUpdateSchema body = Valid data ->
  (truthy (prop "slug" data) && negb (validateSlug_of (prop "slug" data)))%bool = false.
Proof.
  intros H. apply categoryUpdateSchema_object in H as (fields & out & -> & -> & Hval & _).
  pose proof (Hval "slug" _ ltac:(simpl; tauto)) as Hp.
  unfold prop.
  destruct (parse_optional_string_valid _ _ _ _ _ Hp) as [[_ ->] | (s & Hv & Hx)];
    [reflexivity |].
  rewrite Hx. rewrite Hv in Hp. simpl in Hp. simpl.
  destruct (validateSlug s); [apply andb_false_r | discriminate].
Qed.

Lemma set_category_accepted P body data now c :
  safeParse P categoryUpdateSchema body = Valid data ->
  set_category (set "updatedAt" (VDate now) (fields_of data)) c
  = Some (updated_category data now c).
Proof.
  intros H. apply categoryUpdateSchema_object in H as (fields & out & -> & -> & Hval & Hkeys).
  simpl fields_of. unfold updated_category, prop.
  assert (Hname : text_or_absent (get "name" out)).
  { eapply parse_optional_string_shape. apply Hval. simpl. tauto. }
  assert (Hslug : text_or_absent (get "slug" out)).
  { eapply parse_optional_string_shape. apply Hval. simpl. tauto. }
  assert (Hdesc : get "description" out = VUndef \/ get "description" out = VNull \/
                  exists s, get "description" out = VStr s).
  { pose proof (Hval "description" _ ltac:(simpl; tauto)) as Hp.
    destruct (get "description" fields) eqn:Hd.
    all: try (simpl in Hp; rewrite andb_false_r in Hp; inversion Hp; now left).
    all: match type of Hp with
         | parse_at _ _ _ ?w = _ =>
             apply (parse_optional_nullable_string_valid P "description" [SMax 500] w) in Hp
               as [-> Hp]; exact Hp
         end. }
  assert (Hid : get "id" out = VUndef) by (apply Hkeys; simpl; intuition discriminate).
  assert (Hcreated : get "createdAt" out = VUndef) by (apply Hkeys; simpl; intuition discriminate).
  unfold set_category.
  rewrite !get_set_other by discriminate. rewrite get_set_same.
  rewrite Hid, Hcreated.
  rewrite (set_text_shape _ _ Hname), (set_text_shape _ _ Hslug).
  destruct Hdesc as [-> | [-> | (s & ->)]]; reflexivity.
Qed.

Lemma update_category_rows P body data now cid (d : db) :
  safeParse P categoryUpdateSchema body = Valid data ->
  map_rows (fun c => if eq_num (category_id c) (Int cid)
                     then set_category (set "updatedAt" (VDate now) (fields_of data)) c
                     else Some c) (categories d)
  = Some (rewritten_categories data now cid (categories d)).
Proof.
  intros Hvalid. apply map_rows_total. intros c _. simpl.
  destruct (category_id c =? cid); [| reflexivity].
  eapply set_category_accepted; eauto.
Qed.

Lemma rewritten_categories_ids data now cid rows :
  map category_id (rewritten_categories data now cid rows) = map category_id rows.
Proof.
  unfold rewritten_categories. rewrite map_map. apply map_ext.
  intros c. destruct (category_id c =? cid); reflexivity.
Qed.

Lemma rewritten_categories_created data now cid rows :
  map category_createdAt (rewritten_categories data now cid rows) = map category_createdAt rows.
Proof.
  unfold rewritten_categories. rewrite map_map. apply map_ext.
  intros c. destruct (category_id c =? cid); reflexivity.
Qed.

Lemma filter_hit_rewritten data now cid rows existing :
  find (fun c => category_id c =? cid) rows = Some existing ->
  exists rest,
    filter (fun c => category_id c =? cid) (rewritten_categories data now cid rows)
    = updated_category data now existing :: rest.
Proof.
  induction rows as [| c rows IH]; simpl; [discriminate |].
  destruct (category_id c =? cid) eqn:Hc.
  - intros H. inversion H; subst. simpl. rewrite Hc. eauto.
  - intros H. rewrite Hc. auto.
Qed.

#[local] Arguments update_category : simpl never.

(** What [updateCategory] does once the request is past the guards. *)
Lemma updateCategory_written P req d :
  (status (fst (updateCategory P req d)) <> 200 /\ snd (updateCategory P req d) = d) \/
  exists body accepted cid existing,
    req_body req = Some body /\
    safeParse P categoryUpdateSchema body = Valid accepted /\
    js_parseInt P (id_text (req_id req)) = Int cid /\
    find_category_by_id d (Int cid) = Some existing /\
    status (fst (updateCategory P req d)) = 200 /\
    data (fst (updateCategory P req d))
    = VObj (category_row (updated_category accepted (req_now req) existing)) /\
    snd (updateCategory P req d)
    = with_categories d (rewritten_categories accepted (req_now req) cid (categories d))
        (seq_categories d) /\
    existsb (fun c' => (category_id c' =? cid) &&
               existsb (fun q => negb (category_id q =? category_id c') &&
                                 (String.eqb (category_name q) (category_name c') ||
                                  String.eqb (category_slug q) (category_slug c')))
                       (rewritten_categories accepted (req_now req) cid (categories d)))%bool
            (rewritten_categories accepted (req_now req) cid (categories d)) = false.
Proof.
  unfold updateCategory, catch_logged, isZodError. unfold_handlers.
  destruct (is_admin (req_user req)); simpl; [| left; split; [discriminate | reflexivity]].
  destruct (id_missing (req_id req)); simpl; [left; split; [discriminate | reflexivity] |].
  destruct (req_body req) as [body |] eqn:Hbody; simpl;
    [| left; split; [discriminate | reflexivity]].
  destruct (safeParse P categoryUpdateSchema body) as [accepted | issues] eqn:Hvalid; simpl;
    [| left; split; [discriminate | reflexivity]].
  rewrite (category_update_slug_check P body accepted Hvalid). simpl.
  destruct (js_parseInt P (id_text (req_id req))) as [cid | |] eqn:Hn;
    try (unfold find_category_by_id; simpl; rewrite find_never; simpl;
         left; split; [discriminate | reflexivity]).
  destruct (find_category_by_id d (Int cid)) as [existing |] eqn:Hfind; simpl;
    [| left; split; [discriminate | reflexivity]].
  assert (Hupdate : forall d0, d0 = d ->
    update_category (set "updatedAt" (VDate (req_now req)) (fields_of accepted)) (Int cid) d0
    = let rows := rewritten_categories accepted (req_now req) cid (categories d) in
      if existsb (fun c' => (category_id c' =? cid) &&
               existsb (fun q => negb (category_id q =? category_id c') &&
                                 (String.eqb (category_name q) (category_name c') ||
                                  String.eqb (category_slug q) (category_slug c')))
                       rows)%bool rows
      then (Throw (SQLiteError (UniqueConstraintFailed "categories")), d)
      else (Ok (filter (fun c => category_id c =? cid) rows),
            with_categories d rows (seq_categories d))).
  { intros d0 ->. unfold update_category.
    rewrite (update_category_rows P body accepted (req_now req) cid d Hvalid).
    reflexivity. }
  unfold fields_of in Hupdate.
  destruct (filter_hit_rewritten accepted (req_now req) cid (categories d) existing Hfind)
    as [rest Hhit].
  destruct (_ && _)%bool; simpl.
  - destruct (find_category_by_slug d _); simpl;
      [left; split; [discriminate | reflexivity] |].
    rewrite (Hupdate d eq_refl). cbv zeta.
    destruct (existsb _ _) eqn:Hclash; simpl; [left; split; [discriminate | reflexivity] |].
    right. exists body, accepted, cid, existing. rewrite Hhit.
    repeat split; auto.
  - rewrite (Hupdate d eq_refl). cbv zeta.
    destruct (existsb _ _) eqn:Hclash; simpl; [left; split; [discriminate | reflexivity] |].
    right. exists body, accepted, cid, existing. rewrite Hhit.
    repeat split; auto.
Qed.

(** X21: updateCategory leaves the database exactly as it was unless it
    answers 200; it never changes the id or the createdAt of a category, nor
    another table; on 200 the categories with the id of the request are
    rewritten with the fields of the body and updatedAt at the clock, the
    response shows the rewritten row, and no other category has its name or
    its slug. *)
Theorem updateCategory_rewrites_one_category
  (P : Platform) (req : request) (d : db) :
  let resp := fst (updateCategory P req d) in
  let d' := snd (updateCategory P req d) in
  (status resp <> 200 -> d' = d) /\
  map category_id (categories d') = map category_id (categories d) /\
  map category_createdAt (categories d') = map category_createdAt (categories d) /\
  users d' = users d /\ posts d' = posts d /\ postCategories d' = postCategories d /\
  (status resp = 200 ->
   exists body accepted cid existing,
     req_body req = Some body /\
     safeParse P categoryUpdateSchema body = Valid accepted /\
     js_parseInt P (id_text (req_id req)) = Int cid /\
     find_category_by_id d (Int cid) = Some existing /\
     data resp = VObj (category_row (updated_category accepted (req_now req) existing)) /\
     categories d' = rewritten_categories accepted (req_now req) cid (categories d) /\
     forall c other, In c (categories d') -> In other (categories d') ->
       category_id c = cid -> category_id other <> cid ->
       category_name other <> category_name c /\ category_slug other <> category_slug c).
Proof.
  intros resp d'. subst resp d'.
  destruct (updateCategory_written P req d)
    as [[Hstatus ->] |
        (body & accepted & cid & existing & Hbody & Hvalid & Hn & Hfind & Hstatus & Hdata
         & -> & Hclash)].
  - split; [reflexivity |]. repeat (split; [reflexivity |]). intros H. contradiction.
  - split; [intros H; contradiction |].
    cbn [categories users posts postCategories with_categories].
    split; [apply rewritten_categories_ids |].
    split; [apply rewritten_categories_created |].
    repeat (split; [reflexivity |]).
    intros _. exists body, accepted, cid, existing.
    repeat (split; [assumption || reflexivity |]).
    intros c other Hc Hother Hcid Hoid.
    pose proof (existsb_false_forall _ _ Hclash c Hc) as Hrow.
    cbv beta in Hrow.
    rewrite (proj2 (Z.eqb_eq _ _) Hcid), andb_true_l in Hrow.
    pose proof (existsb_false_forall _ _ Hrow other Hother) as Hpair.
    cbv beta in Hpair.
    rewrite Hcid, (proj2 (Z.eqb_neq _ _) Hoid) in Hpair. simpl in Hpair.
    apply orb_false_iff in Hpair as [Hname Hslug].
    split; [now apply String.eqb_neq | now apply String.eqb_neq].
Qed.

(* ------------------------------------------------------------------ *)
(** ** The post count of a category, and deleting it *)

Lemma getCategory_found P req d id cid c :
  req_id req = Some id -> id <> EmptyString -> js_parseInt P id = Int cid ->
  find_category_by_id d (Int cid) = Some c ->
  getCategory P req d
  = (createAPIResponse 200 true "Category retrieved successfully"
       (category_with_count d c) None, d).
Proof.
  intros Hid Hne Hparse Hfind.
  destruct (id_missing_false _ _ Hid Hne) as [Hmiss Htext].
  unfold getCategory. unfold_handlers. rewrite Hmiss, Htext, Hparse. simpl.
  rewrite Hfind. reflexivity.
Qed.

Lemma getCategory_missing P req d id cid :
  req_id req = Some id -> id <> EmptyString -> js_parseInt P id = Int cid ->
  find_category_by_id d (Int cid) = None ->
  getCategory P req d = (failure 404 "Category not found", d).
Proof.
  intros Hid Hne Hparse Hfind.
  destruct (id_missing_false _ _ Hid Hne) as [Hmiss Htext].
  unfold getCategory. unfold_handlers. rewrite Hmiss, Htext, Hparse. simpl.
  rewrite Hfind. reflexivity.
Qed.

Lemma postCount_positive d c :
  0 < postCount d c ->
  filter (fun pc => pc_categoryId pc =? category_id c) (postCategories d) <> [].
Proof.
  unfold postCount. intros Hpos Hnil.
  rewrite (filter_ext _ (fun pc => pc_categoryId pc =? category_id c)) in Hpos
    by (intros pc; apply Z.eqb_sym).
  rewrite Hnil in Hpos. simpl in Hpos. lia.
Qed.

Lemma postCount_zero d c :
  associations_have_posts d -> postCount d c = 0 ->
  filter (fun pc => pc_categoryId pc =? category_id c) (postCategories d) = [].
Proof.
  unfold postCount. intros Hinv Hzero.
  rewrite (filter_ext _ (fun pc => category_id c =? pc_categoryId pc))
    by (intros pc; apply Z.eqb_sym).
  destruct (filter (fun pc => category_id c =? pc_categoryId pc) (postCategories d))
    as [| pc rest] eqn:Hrows; [reflexivity | exfalso].
  assert (Hin : In pc (postCategories d)).
  { assert (H : In pc (pc :: rest)) by now left.
    rewrite <- Hrows in H. now apply filter_In in H. }
  destruct (Hinv pc Hin) as (p & Hp & Hid).
  simpl in Hzero. rewrite length_app in Hzero.
  assert (Hsome : In p (filter (fun p0 => pc_postId pc =? post_id p0) (posts d))).
  { apply filter_In. split; [exact Hp |]. apply Z.eqb_eq. now symmetry. }
  destruct (filter (fun p0 => pc_postId pc =? post_id p0) (posts d)); [contradiction |].
  simpl in Hzero. lia.
Qed.

(** X22: For an admin, the postCount that getCategory shows decides the
    DELETE of that category: when it is positive the delete is answered 400
    Cannot delete category with associated posts and changes nothing; when
    it is 0 and every association row names a stored post, the delete is
    answered 200 and getCategory then answers 404. *)
Theorem deleteCategory_follows_the_post_count
  (P : Platform) (req : request) (d : db) (caller : AuthUser) (id : string) (cid n : Z) :
  req_user req = Some caller -> auth_role caller = "admin" ->
  req_id req = Some id -> id <> EmptyString -> js_parseInt P id = Int cid ->
  prop "postCount" (data (fst (getCategory P req d))) = VNum (Int n) ->
  (0 < n ->
   deleteCategory P req d
   = (failure 400 "Cannot delete category with associated posts", d)) /\
  (n = 0 -> associations_have_posts d ->
   status (fst (deleteCategory P req d)) = 200 /\
   find_category_by_id (snd (deleteCategory P req d)) (Int cid) = None /\
   getCategory P req (snd (deleteCategory P req d)) = (failure 404 "Category not found",
                                                       snd (deleteCategory P req d))).
Proof.
  intros Huser Hrole Hid Hne Hparse Hcount.
  destruct (find_category_by_id d (Int cid)) as [c |] eqn:Hfind.
  2:{ rewrite (getCategory_missing P req d id cid Hid Hne Hparse Hfind) in Hcount.
      discriminate. }
  rewrite (getCategory_found P req d id cid c Hid Hne Hparse Hfind) in Hcount.
  assert (Hn : n = postCount d c).
  { unfold category_with_count, category_row, prop in Hcount. simpl in Hcount.
    now inversion Hcount. }
  assert (Hc : category_id c = cid).
  { apply find_some in Hfind as [_ H]. simpl in H. now apply Z.eqb_eq. }
  destruct (id_missing_false _ _ Hid Hne) as [Hmiss Htext].
  assert (Hrun : deleteCategory P req d =
    if 0 <? Z.of_nat (List.length
              (filter (fun pc => pc_categoryId pc =? cid) (postCategories d)))
    then (failure 400 "Cannot delete category with associated posts", d)
    else match delete_category P (Int cid) d with
         | (Ok _, d') =>
             (createAPIResponse 200 true "Category deleted successfully" VUndef None, d')
         | (Return r, d') => (r, d')
         | (Throw _, d') => (failure 500 "Internal server error", d')
         end).
  { unfold deleteCategory, is_admin. unfold_handlers.
    rewrite Huser, Hrole, Hmiss, Htext, Hparse. simpl. rewrite Hfind. simpl.
    destruct (0 <? _); [reflexivity |].
    destruct (delete_category P (Int cid) d) as [[u | r | e] d']; reflexivity. }
  split.
  - intros Hpos. rewrite Hrun.
    pose proof (postCount_positive d c ltac:(lia)) as Hrows. rewrite Hc in Hrows.
    destruct (filter (fun pc => pc_categoryId pc =? cid) (postCategories d));
      [congruence | reflexivity].
  - intros Hzero Hinv.
    pose proof (postCount_zero d c Hinv ltac:(lia)) as Hrows. rewrite Hc in Hrows.
    assert (Hgone : find_category_by_id
                      (with_categories d
                         (filter (fun x => negb (category_id x =? cid)) (categories d))
                         (seq_categories d)) (Int cid) = None).
    { unfold find_category_by_id. simpl. apply find_filter_negb. }
    assert (Hdel : deleteCategory P req d =
              (createAPIResponse 200 true "Category deleted successfully" VUndef None,
               with_categories d
                 (filter (fun x => negb (category_id x =? cid)) (categories d))
                 (seq_categories d))).
    { rewrite Hrun, Hrows. simpl. unfold delete_category, eq_num.
      rewrite (existsb_filter_nil _ _ Hrows), andb_false_r. reflexivity. }
    rewrite Hdel. cbn [fst snd]. split; [reflexivity |]. split; [exact Hgone |].
    apply (getCategory_missing P req _ id cid Hid Hne Hparse Hgone).
Qed.

Lemma deleteCategory_follows_the_post_count_witness :
  let P := Demo.platform false true in
  let used := Demo.at_id (Demo.as_user (Demo.anonymous 500) Demo.root) "1" in
  let unused := Demo.at_id (Demo.as_user (Demo.anonymous 500) Demo.root) "2" in
  status (fst (deleteCategory P used Demo.seeded)) = 400 /\
  status (fst (deleteCategory P unused Demo.seeded)) = 200.
Proof.
  intros P used unused.
  destruct (deleteCategory_follows_the_post_count P used Demo.seeded Demo.root "1" 1 1
              eq_refl eq_refl eq_refl ltac:(discriminate) eq_refl
              ltac:(vm_compute; reflexivity)) as [Hused _].
  destruct (deleteCategory_follows_the_post_count P unused Demo.seeded Demo.root "2" 2 0
              eq_refl eq_refl eq_refl ltac:(discriminate) eq_refl
              ltac:(vm_compute; reflexivity)) as [_ Hunused].
  split.
  - rewrite Hused by lia. reflexivity.
  - exact (proj1 (Hunused eq_refl seeded_associations_have_posts)).
Defined.

(* ------------------------------------------------------------------ *)
(** ** Listing categories *)






(* ------------------------------------------------------------------ *)
(** ** The slug check after the schema *)

Lemma insert_post_slug_check P body accepted :
  safeParse P insertPostSchema body = Valid accepted ->
  negb (validateSlug_of (prop "slug" accepted)) = false.
Proof.
  intros H. destruct (insertPostSchema_fields P body accepted H)
    as (t & s & c & _ & _ & _ & _ & Hs & _ & Hok & _).
  rewrite Hs. simpl. now rewrite Hok.
Qed.

Lemma insert_category_slug_check P body accepted :
  safeParse P insertCategorySchema body = Valid accepted ->
  negb (validateSlug_of (prop "slug" accepted)) = false.
Proof.
  intros H. destruct (insertCategorySchema_fields P body accepted H)
    as (n & s & _ & _ & _ & Hs & Hok & _).
  rewrite Hs. simpl. now rewrite Hok.
Qed.

Ltac other_message := split_cases; simpl; discriminate.

Lemma createPost_slug_branch P req d :
  message (fst (createPost P req d)) <> Some "Invalid slug format".
Proof.
  unfold createPost, catch_reported, isZodError. unfold_handlers.
  destruct (req_user req) as [caller |]; simpl; [| discriminate].
  destruct (req_body req) as [body |]; simpl; [| discriminate].
  destruct (safeParse P insertPostSchema body) as [accepted | issues] eqn:Hvalid; simpl;
    [| discriminate].
  rewrite (insert_post_slug_check P body accepted Hvalid). 
  unfold insert_post, insert_postCategories. unfold_handlers.
  other_message.
Qed.

Lemma updatePost_slug_branch P req d :
  message (fst (updatePost P req d)) <> Some "Invalid slug format".
Proof.
  unfold updatePost, catch_reported, isZodError. unfold_handlers.
  destruct (req_user req) as [caller |]; simpl; [| discriminate].
  destruct (id_missing (req_id req)); simpl; [discriminate |].
  destruct (req_body req) as [body |]; simpl; [| discriminate].
  destruct (safeParse P postUpdateSchema body) as [accepted | issues] eqn:Hvalid; simpl;
    [| discriminate].
  rewrite (update_data_slug_check P body accepted Hvalid).
  unfold update_post, insert_postCategories, delete_postCategories_of. unfold_handlers.
  other_message.
Qed.

Lemma createCategory_slug_branch P req d :
  message (fst (createCategory P req d)) <> Some "Invalid slug format".
Proof.
  unfold createCategory, catch_logged, isZodError. unfold_handlers.
  destruct (is_admin (req_user req)); simpl; [| discriminate].
  destruct (req_body req) as [body |]; simpl; [| discriminate].
  destruct (safeParse P insertCategorySchema body) as [accepted | issues] eqn:Hvalid; simpl;
    [| discriminate].
  rewrite (insert_category_slug_check P body accepted Hvalid).
  unfold insert_category. unfold_handlers.
  other_message.
Qed.

Lemma updateCategory_slug_branch P req d :
  message (fst (updateCategory P req d)) <> Some "Invalid slug format".
Proof.
  unfold updateCategory, catch_logged, isZodError. unfold_handlers.
  destruct (is_admin (req_user req)); simpl; [| discriminate].
  destruct (id_missing (req_id req)); simpl; [discriminate |].
  destruct (req_body req) as [body |]; simpl; [| discriminate].
  destruct (safeParse P categoryUpdateSchema body) as [accepted | issues] eqn:Hvalid; simpl;
    [| discriminate].
  rewrite (category_update_slug_check P body accepted Hvalid).
  unfold update_category. unfold_handlers.
  other_message.
Qed.

(** X24: No request to createPost, updatePost, createCategory or
    updateCategory is ever answered with the message Invalid slug format:
    the schema has the same pattern, so the check after it is dead code. *)
Theorem slug_format_answer_is_never_given
  (P : Platform) (req : request) (d : db) :
  message (fst (createPost P req d)) <> Some "Invalid slug format" /\
  message (fst (updatePost P req d)) <> Some "Invalid slug format" /\
  message (fst (createCategory P req d)) <> Some "Invalid slug format" /\
  message (fst (updateCategory P req d)) <> Some "Invalid slug format".
Proof.
  split; [apply createPost_slug_branch |].
  split; [apply updatePost_slug_branch |].
  split; [apply createCategory_slug_branch | apply updateCategory_slug_branch].
Qed.

Lemma malformed_slug_issue P slug :
  validateSlug slug = false ->
  exists i, parse_at P "slug" (z_string [SRegex validateSlug]) (VStr slug) = Invalid i.
Proof. intros H. simpl. rewrite H. simpl. eauto. Qed.

Lemma malformed_slug_issue_optional P slug :
  validateSlug slug = false ->
  exists i, parse_at P "slug" (z_optional (z_string [SRegex validateSlug])) (VStr slug)
            = Invalid i.
Proof. intros H. simpl. rewrite H. simpl. eauto. Qed.

(** X25: A JSON object body whose slug is a text that fails the slug pattern
    is answered 400 Validation error, with the database unchanged, by
    createPost and updatePost (for a caller) and by createCategory and
    updateCategory (for an admin). *)
Theorem malformed_slug_is_a_validation_error
  (P : Platform) (req : request) (d : db) (fields : fields_t) (slug : string) :
  req_body req = Some (VObj fields) ->
  get "slug" fields = VStr slug ->
  validateSlug slug = false ->
  (req_user req <> None ->
   exists issues, createPost P req d = (validation_error issues, d)) /\
  (req_user req <> None -> id_missing (req_id req) = false ->
   exists issues, updatePost P req d = (validation_error issues, d)) /\
  (is_admin (req_user req) = true ->
   exists issues, createCategory P req d = (validation_error issues, d)) /\
  (is_admin (req_user req) = true -> id_missing (req_id req) = false ->
   exists issues, updateCategory P req d = (validation_error issues, d)).
Proof.
  intros Hbody Hslug Hbad.
  destruct (malformed_slug_issue P slug Hbad) as [i Hi].
  destruct (malformed_slug_issue_optional P slug Hbad) as [j Hj].
  rewrite <- Hslug in Hi, Hj.
  assert (Hpost : exists issues, safeParse P insertPostSchema (VObj fields) = Invalid issues).
  { eapply safeParse_refuses; [| exact Hi]. simpl. tauto. }
  assert (Hpost' : exists issues, safeParse P postUpdateSchema (VObj fields) = Invalid issues).
  { eapply safeParse_refuses; [| exact Hj]. simpl. tauto. }
  assert (Hcat : exists issues, safeParse P insertCategorySchema (VObj fields) = Invalid issues).
  { eapply safeParse_refuses; [| exact Hi]. simpl. tauto. }
  assert (Hcat' : exists issues,
             safeParse P categoryUpdateSchema (VObj fields) = Invalid issues).
  { eapply safeParse_refuses; [| exact Hj]. simpl. tauto. }
  destruct Hpost as [i1 H1]. destruct Hpost' as [i2 H2].
  destruct Hcat as [i3 H3]. destruct Hcat' as [i4 H4].
  repeat split.
  - intros Huser. exists i1. unfold createPost, catch_reported, isZodError. unfold_handlers.
    destruct (req_user req); [| congruence]. rewrite Hbody. simpl. rewrite H1. reflexivity.
  - intros Huser Hid. exists i2. unfold updatePost, catch_reported, isZodError. unfold_handlers.
    destruct (req_user req); [| congruence]. rewrite Hid, Hbody. simpl. rewrite H2.
    reflexivity.
  - intros Hadmin. exists i3. unfold createCategory, catch_logged, isZodError. unfold_handlers.
    rewrite Hadmin, Hbody. simpl. rewrite H3. reflexivity.
  - intros Hadmin Hid. exists i4. unfold updateCategory, catch_logged, isZodError.
    unfold_handlers. rewrite Hadmin, Hid, Hbody. simpl. rewrite H4. reflexivity.
Qed.

Lemma malformed_slug_is_a_validation_error_witness :
  let P := Demo.platform false true in
  let req := Demo.with_body (Demo.as_user (Demo.anonymous 500) Demo.root)
               (VObj [ ("title", VStr "T"); ("slug", VStr "Not A Slug");
                       ("content", VStr "C") ]) in
  status (fst (createPost P req Demo.seeded)) = 400 /\
  message (fst (createPost P req Demo.seeded)) = Some "Validation error".
Proof.
  intros P req.
  destruct (malformed_slug_is_a_validation_error P req Demo.seeded
              [ ("title", VStr "T"); ("slug", VStr "Not A Slug"); ("content", VStr "C") ]
              "Not A Slug" eq_refl eq_refl eq_refl) as (Hpost & _).
  destruct (Hpost ltac:(discriminate)) as [issues ->]. split; reflexivity.
Defined.

(* ------------------------------------------------------------------ *)
(** ** db/schema.ts: the keys and the unique columns *)

(* ------------------------------------------------------------------ *)

Lemma NoDup_snoc {B : Type} (l : list B) (x : B) :
  NoDup l -> ~ In x l -> NoDup (l ++ [x]).
Proof.
  induction l as [| y l IH]; simpl; intros Hl Hx.
  - constructor; [tauto | constructor].
  - inversion Hl as [| ? ? Hy Hl']; subst. constructor.
    + rewrite in_app_iff. simpl. intros [H | [H | []]]; [contradiction | subst; tauto].
    + apply IH; tauto.
Qed.

Section UniqueBy.

Context {A : Type} (id : A -> Z) (same : A -> A -> Prop).

Lemma unique_by_nil : unique_by id same [].
Proof. split; [constructor | intros a b []]. Qed.

Lemma unique_by_filter (f : A -> bool) (rows : list A) :
  unique_by id same rows -> unique_by id same (filter f rows).
Proof.
  intros [Hids Hsame]. split; [now apply NoDup_map_filter |].
  intros a b Ha Hb. apply filter_In in Ha as [Ha _]. apply filter_In in Hb as [Hb _]. auto.
Qed.

Lemma unique_by_append (rows : list A) (x : A) :
  unique_by id same rows ->
  ~ In (id x) (map id rows) ->
  (forall a, In a rows -> ~ same a x /\ ~ same x a) ->
  unique_by id same (rows ++ [x]).
Proof.
  intros [Hids Hsame] Hfresh Hnew. split.
  - rewrite map_app. simpl. apply NoDup_snoc; assumption.
  - intros a b Ha Hb Hab. apply in_app_iff in Ha, Hb.
    destruct Ha as [Ha | [<- | []]]; destruct Hb as [Hb | [<- | []]]; auto.
    + destruct (Hnew a Ha) as [H _]. contradiction.
    + destruct (Hnew b Hb) as [_ H]. contradiction.
Qed.

Lemma unique_by_rewrite (g : A -> A) (rows : list A) :
  unique_by id same rows ->
  (forall a, id (g a) = id a) ->
  (forall a b, In a rows -> In b rows -> same (g a) (g b) -> id a = id b) ->
  unique_by id same (map g rows).
Proof.
  intros [Hids _] Hid Hsame. split.
  - rewrite map_map. rewrite (map_ext _ id) by exact Hid. exact Hids.
  - intros a' b' Ha Hb Hab.
    apply in_map_iff in Ha as (a & <- & Ha). apply in_map_iff in Hb as (b & <- & Hb).
    rewrite !Hid. auto.
Qed.

End UniqueBy.

Lemma constraints_with_users d rows seq :
  store_constraints d -> unique_by user_id same_account rows ->
  store_constraints (with_users d rows seq).
Proof. intros (_ & Hc & Hp & Ha) Hu. unfold store_constraints. simpl. tauto. Qed.

Lemma constraints_with_categories d rows seq :
  store_constraints d -> unique_by category_id same_label rows ->
  store_constraints (with_categories d rows seq).
Proof. intros (Hu & _ & Hp & Ha) Hc. unfold store_constraints. simpl. tauto. Qed.

Lemma constraints_with_posts d rows seq :
  store_constraints d -> unique_by post_id same_slug rows ->
  store_constraints (with_posts d rows seq).
Proof. intros (Hu & Hc & _ & Ha) Hp. unfold store_constraints. simpl. tauto. Qed.

Lemma constraints_with_postCategories d rows :
  store_constraints d -> NoDup rows -> store_constraints (with_postCategories d rows).
Proof. intros (Hu & Hc & Hp & _) Ha. unfold store_constraints. simpl. tauto. Qed.

(* ------------------------------------------------------------------ *)
(** ** The pieces of a handler *)

Section Keeps.

Context (I : db -> Prop).

Lemma keeps_ret {A : Type} (a : A) : keeps I (ret a).
Proof. intros d H. exact H. Qed.

Lemma keeps_respond {A : Type} (r : response) : keeps I (@respond A r).
Proof. intros d H. exact H. Qed.

Lemma keeps_throw {A : Type} (e : exn) : keeps I (@throw A e).
Proof. intros d H. exact H. Qed.

Lemma keeps_query {A : Type} (f : db -> A) : keeps I (query f).
Proof. intros d H. exact H. Qed.

Lemma keeps_bind {A B : Type} (m : M A) (k : A -> M B) :
  keeps I m -> (forall a, keeps I (k a)) -> keeps I (bind m k).
Proof.
  intros Hm Hk d H. unfold bind. specialize (Hm d H).
  destruct (m d) as [[a | r | e] d']; simpl in *; [apply Hk |..]; exact Hm.
Qed.

Lemma keeps_when (b : bool) (m : M unit) : keeps I m -> keeps I (when b m).
Proof. intros Hm. destruct b; [exact Hm | apply keeps_ret]. Qed.

Lemma keeps_catching {A : Type} (body : M A) (h : exn -> M A) :
  keeps I body -> (forall e, keeps I (h e)) -> keeps I (catching body h).
Proof.
  intros Hb Hh d H. unfold catching. specialize (Hb d H).
  destruct (body d) as [[a | r | e] d']; simpl in *; [exact Hb | exact Hb | apply Hh; exact Hb].
Qed.

Lemma keeps_parse (P : Platform) {B : Type} (s : schema) (v : value) (k : value -> M B) :
  (forall x, safeParse P s v = Valid x -> keeps I (k x)) ->
  keeps I (bind (parse P s v) k).
Proof.
  intros Hk. unfold parse. destruct (safeParse P s v) as [x | issues] eqn:Hv.
  - intros d H. unfold bind, ret. simpl. exact (Hk x eq_refl d H).
  - intros d H. exact H.
Qed.

Lemma keeps_request_json (body : option value) : keeps I (request_json body).
Proof. destruct body; [apply keeps_ret | apply keeps_throw]. Qed.

Lemma keeps_expect_string (v : value) : keeps I (expect_string v).
Proof. destruct v; first [apply keeps_ret | apply keeps_throw]. Qed.

Lemma keeps_not_null_text (column : string) (v : value) : keeps I (not_null_text column v).
Proof. destruct v; first [apply keeps_ret | apply keeps_throw]. Qed.

Lemma keeps_text_with_default (column dflt : string) (v : value) :
  keeps I (text_with_default column dflt v).
Proof. destruct v; first [apply keeps_ret | apply keeps_throw]. Qed.

Lemma keeps_try_catch (body : M response) (h : exn -> response) (d : db) :
  keeps I body -> I d -> I (snd (try_catch body h d)).
Proof.
  intros Hb H. unfold try_catch. specialize (Hb d H).
  destruct (body d) as [[a | r | e] d']; exact Hb.
Qed.

End Keeps.

(* ------------------------------------------------------------------ *)
(** ** The statements *)

Lemma keeps_insert_user (name mail pw : string) (rl : value) (now : Z) :
  keeps store_constraints (insert_user name mail pw rl now).
Proof.
  unfold insert_user. apply keeps_bind; [apply keeps_text_with_default | intros r].
  intros d H.
  destruct (existsb (fun u => String.eqb (user_username u) name) (users d)) eqn:Hn;
    [exact H |].
  destruct (existsb (fun u => String.eqb (user_email u) mail) (users d)) eqn:Hm;
    [exact H |].
  cbv zeta. cbn [snd]. apply constraints_with_users; [exact H |].
  apply unique_by_append; [apply H | apply next_id_fresh |].
  intros a Ha.
  pose proof (existsb_false_forall _ _ Hn a Ha) as Hname.
  pose proof (existsb_false_forall _ _ Hm a Ha) as Hmail.
  apply String.eqb_neq in Hname, Hmail.
  unfold same_account. simpl. split; intros [Heq | Heq]; congruence.
Qed.

Lemma keeps_update_user_password (id : Z) (pw : string) (now : Z) :
  keeps store_constraints (update_user_password id pw now).
Proof.
  intros d H. unfold update_user_password. cbn [snd].
  apply constraints_with_users; [exact H |].
  destruct H as ([Hids Hsame] & _).
  apply (unique_by_rewrite user_id same_account
           (fun u => if user_id u =? id
                     then {| user_id := user_id u; user_username := user_username u;
                             user_email := user_email u; user_password := pw;
                             user_role := user_role u;
                             user_createdAt := user_createdAt u; user_updatedAt := now |}
                     else u)).
  - split; assumption.
  - intros a. destruct (user_id a =? id); reflexivity.
  - intros a b Ha Hb Hab. apply (Hsame a b Ha Hb).
    unfold same_account in *.
    destruct (user_id a =? id), (user_id b =? id); exact Hab.
Qed.

Lemma keeps_insert_category (name slug description : value) (now : Z) :
  keeps store_constraints (insert_category name slug description now).
Proof.
  unfold insert_category. apply keeps_bind; [apply keeps_not_null_text | intros n].
  apply keeps_bind; [apply keeps_not_null_text | intros s].
  intros d H.
  destruct (existsb (fun c => String.eqb (category_name c) n) (categories d)) eqn:Hn;
    [exact H |].
  destruct (existsb (fun c => String.eqb (category_slug c) s) (categories d)) eqn:Hs;
    [exact H |].
  cbv zeta. cbn [snd]. apply constraints_with_categories; [exact H |].
  apply unique_by_append; [apply H | apply next_id_fresh |].
  intros a Ha.
  pose proof (existsb_false_forall _ _ Hn a Ha) as Hname.
  pose proof (existsb_false_forall _ _ Hs a Ha) as Hslug.
  apply String.eqb_neq in Hname, Hslug.
  unfold same_label. simpl. split; intros [Heq | Heq]; congruence.
Qed.

Lemma map_rows_same {A : Type} (l : list A) : map_rows (fun x => Some x) l = Some l.
Proof. induction l as [| x l IH]; simpl; [reflexivity | now rewrite IH]. Qed.

Lemma keeps_update_category (P : Platform) (body accepted : value) (now : Z) (n : jsnum) :
  safeParse P categoryUpdateSchema body = Valid accepted ->
  keeps store_constraints
    (update_category (set "updatedAt" (VDate now) (fields_of accepted)) n).
Proof.
  intros Hvalid d H. unfold update_category.
  destruct n as [cid | |];
    try (simpl; rewrite map_rows_same; simpl;
         rewrite existsb_false_intro by reflexivity; simpl;
         apply constraints_with_categories; [exact H | apply H]).
  rewrite (update_category_rows P body accepted now cid d Hvalid).
  destruct (existsb _ _) eqn:Hclash; [exact H |].
  cbn [snd]. apply constraints_with_categories; [exact H |].
  destruct H as (_ & [Hids Hsame] & _).
  apply unique_by_rewrite; [split; assumption | |].
  - intros a. destruct (category_id a =? cid); reflexivity.
  - intros a b Ha Hb Hab.
    assert (Hrow : forall x y, In x (categories d) -> In y (categories d) ->
              category_id x = cid ->
              same_label (updated_category accepted now x)
                (if category_id y =? cid then updated_category accepted now y else y) ->
              category_id x = category_id y).
    { intros x y Hx Hy Hhit Hxy.
      pose proof (existsb_false_forall _ _ Hclash
                    (updated_category accepted now x)) as Hc.
      cbv beta in Hc. simpl eq_num in Hc.
      change (category_id (updated_category accepted now x)) with (category_id x) in Hc.
      rewrite (proj2 (Z.eqb_eq _ _) Hhit), andb_true_l in Hc.
      assert (Hin : In (updated_category accepted now x)
                       (rewritten_categories accepted now cid (categories d))).
      { unfold rewritten_categories. apply in_map_iff. exists x.
        rewrite (proj2 (Z.eqb_eq _ _) Hhit). auto. }
      specialize (Hc Hin).
      set (y' := if category_id y =? cid then updated_category accepted now y else y) in *.
      assert (Hy' : In y' (rewritten_categories accepted now cid (categories d))).
      { unfold rewritten_categories. apply in_map_iff. exists y. auto. }
      pose proof (existsb_false_forall _ _ Hc y' Hy') as Hpair. cbv beta in Hpair.
      assert (Hid : category_id y' = category_id y)
        by (unfold y'; destruct (category_id y =? cid); reflexivity).
      rewrite Hid in Hpair.
      destruct (Z.eqb_spec (category_id y) (category_id x)) as [Heq | Hne]; [now symmetry |].
      change (category_id (updated_category accepted now x)) with (category_id x) in Hpair.
      cbn [negb andb] in Hpair.
      apply orb_false_iff in Hpair as [Hn Hs].
      apply String.eqb_neq in Hn, Hs.
      destruct Hxy as [Hxy | Hxy]; [now symmetry in Hxy | now symmetry in Hxy]. }
    destruct (Z.eqb_spec (category_id a) cid) as [Ha_hit | Ha_miss].
    + apply (Hrow a b Ha Hb Ha_hit Hab).
    + destruct (Z.eqb_spec (category_id b) cid) as [Hb_hit | Hb_miss].
      * symmetry. apply (Hrow b a Hb Ha Hb_hit).
        rewrite (proj2 (Z.eqb_neq _ _) Ha_miss).
        destruct Hab as [Hab | Hab]; [left | right]; congruence.
      * apply (Hsame a b Ha Hb Hab).
Qed.

Lemma keeps_delete_category (P : Platform) (n : jsnum) :
  keeps store_constraints (delete_category P n).
Proof.
  intros d H. unfold delete_category. destruct (_ && _)%bool; [exact H |].
  cbn [snd]. apply constraints_with_categories; [exact H |].
  apply unique_by_filter. apply H.
Qed.

Lemma keeps_insert_post (P : Platform) (values : fields_t) (now : Z) :
  keeps store_constraints (insert_post P values now).
Proof.
  unfold insert_post.
  apply keeps_bind; [apply keeps_not_null_text | intros title].
  apply keeps_bind; [apply keeps_not_null_text | intros slug].
  apply keeps_bind; [apply keeps_not_null_text | intros content].
  apply keeps_bind; [apply keeps_text_with_default | intros contentType].
  apply keeps_bind; [apply keeps_text_with_default | intros st].
  intros d H.
  destruct (get "authorId" values) as [| | | [author | |] | | | |]; try exact H.
  destruct (existsb (fun p => String.eqb (post_slug p) slug) (posts d)) eqn:Hs; [exact H |].
  destruct (_ && _)%bool; [exact H |].
  cbv zeta. cbn [snd]. apply constraints_with_posts; [exact H |].
  apply unique_by_append; [apply H | apply next_id_fresh |].
  intros a Ha. pose proof (existsb_false_forall _ _ Hs a Ha) as Hslug.
  apply String.eqb_neq in Hslug.
  unfold same_slug. simpl. split; congruence.
Qed.

Lemma keeps_update_post (P : Platform) (body accepted : value) (now : Z) (n : jsnum) :
  safeParse P postUpdateSchema body = Valid accepted ->
  keeps store_constraints (update_post P (set "updatedAt" (VDate now) (fields_of accepted)) n).
Proof.
  intros Hvalid d H. unfold update_post.
  destruct n as [pid | |];
    try (simpl; rewrite map_rows_same; simpl;
         rewrite !existsb_false_intro by reflexivity; rewrite ?andb_false_r; simpl;
         apply constraints_with_posts; [exact H | apply H]).
  simpl eq_num.
  rewrite (map_rows_total _
             (fun q => if post_id q =? pid then updated_post accepted now q else q)).
  2:{ intros q _. destruct (post_id q =? pid); [| reflexivity].
      eapply set_post_accepted; eauto. }
  fold (rewritten_posts accepted now pid (posts d)).
  destruct (existsb _ (posts d)) eqn:Hclash; [exact H |].
  destruct (_ && _)%bool; [exact H |].
  cbn [snd]. apply constraints_with_posts; [exact H |].
  destruct H as (_ & _ & [Hids Hsame] & _).
  apply unique_by_rewrite; [split; assumption | |].
  - intros a. destruct (post_id a =? pid); reflexivity.
  - intros a b Ha Hb Hab.
    assert (Hrow : forall x y, In x (posts d) -> In y (posts d) ->
              post_id x = pid ->
              same_slug (updated_post accepted now x)
                (if post_id y =? pid then updated_post accepted now y else y) ->
              post_id x = post_id y).
    { intros x y Hx Hy Hhit Hxy.
      pose proof (existsb_false_forall _ _ Hclash x Hx) as Hc.
      cbv beta in Hc.
      rewrite (proj2 (Z.eqb_eq _ _) Hhit), andb_true_l in Hc.
      rewrite (set_post_accepted P body accepted now x Hvalid) in Hc.
      set (y' := if post_id y =? pid then updated_post accepted now y else y) in *.
      assert (Hy' : In y' (rewritten_posts accepted now pid (posts d))).
      { unfold rewritten_posts. apply in_map_iff. exists y. auto. }
      pose proof (existsb_false_forall _ _ Hc y' Hy') as Hpair. cbv beta in Hpair.
      assert (Hid : post_id y' = post_id y)
        by (unfold y'; destruct (post_id y =? pid); reflexivity).
      rewrite Hid in Hpair.
      change (post_id (updated_post accepted now x)) with (post_id x) in Hpair.
      destruct (Z.eqb_spec (post_id y) (post_id x)) as [Heq | Hne]; [now symmetry |].
      cbn [negb andb] in Hpair. apply String.eqb_neq in Hpair.
      unfold same_slug in Hxy. now symmetry in Hxy. }
    destruct (Z.eqb_spec (post_id a) pid) as [Ha_hit | Ha_miss].
    + apply (Hrow a b Ha Hb Ha_hit Hab).
    + destruct (Z.eqb_spec (post_id b) pid) as [Hb_hit | Hb_miss].
      * symmetry. apply (Hrow b a Hb Ha Hb_hit).
        rewrite (proj2 (Z.eqb_neq _ _) Ha_miss). unfold same_slug in *. congruence.
      * apply (Hsame a b Ha Hb Hab).
Qed.

Lemma keeps_delete_post (P : Platform) (n : jsnum) :
  keeps store_constraints (delete_post P n).
Proof.
  intros d H. unfold delete_post. destruct (_ && _)%bool; [exact H |].
  cbn [snd]. apply constraints_with_posts; [exact H |].
  apply unique_by_filter. apply H.
Qed.

Lemma keeps_delete_postCategories_of (n : jsnum) :
  keeps store_constraints (delete_postCategories_of n).
Proof.
  intros d H. unfold delete_postCategories_of. cbn [snd].
  apply constraints_with_postCategories; [exact H |].
  apply NoDup_filter. apply H.
Qed.

Lemma pk_clash_NoDup (present rows : list postCategory) :
  pk_clash present rows = false -> NoDup present -> NoDup (present ++ rows).
Proof.
  revert present. induction rows as [| r rows IH]; intros present Hclash Hnd.
  - now rewrite app_nil_r.
  - simpl in Hclash. apply orb_false_iff in Hclash as [Hr Hrest].
    assert (Hnew : ~ In r present).
    { intros Hin. pose proof (existsb_false_forall _ _ Hr r Hin) as Hself.
      assert (Heq : pc_eqb r r = true) by now apply pc_eqb_eq. congruence. }
    specialize (IH (r :: present) Hrest (NoDup_cons r Hnew Hnd)).
    apply (Permutation_NoDup (l := (r :: present) ++ rows)); [| exact IH].
    simpl. apply Permutation_middle.
Qed.

Lemma keeps_insert_postCategories (P : Platform) (rows : list postCategory) :
  keeps store_constraints (insert_postCategories P rows).
Proof.
  intros d H. unfold insert_postCategories.
  destruct (pk_clash (postCategories d) rows) eqn:Hclash; [exact H |].
  destruct (_ && _)%bool; [exact H |].
  cbn [snd]. apply constraints_with_postCategories; [exact H |].
  apply pk_clash_NoDup; [exact Hclash | apply H].
Qed.

(* ------------------------------------------------------------------ *)
(** ** The handlers *)

Ltac keep_step :=
  first
    [ apply keeps_ret | apply keeps_respond | apply keeps_throw | apply keeps_query
    | apply keeps_request_json | apply keeps_expect_string
    | apply keeps_insert_user | apply keeps_update_user_password
    | apply keeps_insert_category | apply keeps_delete_category
    | apply keeps_insert_post | apply keeps_delete_post
    | apply keeps_delete_postCategories_of | apply keeps_insert_postCategories
    | eapply keeps_update_category; eassumption
    | eapply keeps_update_post; eassumption
    | apply keeps_when
    | apply keeps_catching; [| intros ?]
    | apply keeps_parse; intros ? ?
    | apply keeps_bind; [| intros ?]
    | match goal with
      | |- keeps _ (match ?x with _ => _ end) => destruct x
      | |- keeps _ (let _ := _ in _) => cbv zeta
      end ].

Ltac keep := repeat keep_step.

Lemma register_keeps P req d :
  store_constraints d -> store_constraints (snd (register P req d)).
Proof. intros H. unfold register. apply keeps_try_catch; [keep | exact H]. Qed.

Lemma changePassword_keeps P req d :
  store_constraints d -> store_constraints (snd (changePassword P req d)).
Proof. intros H. unfold changePassword. apply keeps_try_catch; [keep | exact H]. Qed.

Lemma createPost_keeps P req d :
  store_constraints d -> store_constraints (snd (createPost P req d)).
Proof. intros H. unfold createPost. apply keeps_try_catch; [keep | exact H]. Qed.

Lemma updatePost_keeps P req d :
  store_constraints d -> store_constraints (snd (updatePost P req d)).
Proof. intros H. unfold updatePost. apply keeps_try_catch; [keep | exact H]. Qed.

Lemma deletePost_keeps P req d :
  store_constraints d -> store_constraints (snd (deletePost P req d)).
Proof. intros H. unfold deletePost. apply keeps_try_catch; [keep | exact H]. Qed.

Lemma createCategory_keeps P req d :
  store_constraints d -> store_constraints (snd (createCategory P req d)).
Proof. intros H. unfold createCategory. apply keeps_try_catch; [keep | exact H]. Qed.

Lemma updateCategory_keeps P req d :
  store_constraints d -> store_constraints (snd (updateCategory P req d)).
Proof. intros H. unfold updateCategory. apply keeps_try_catch; [keep | exact H]. Qed.

Lemma deleteCategory_keeps P req d :
  store_constraints d -> store_constraints (snd (deleteCategory P req d)).
Proof. intros H. unfold deleteCategory. apply keeps_try_catch; [keep | exact H]. Qed.

Lemma handler_keeps P E ep req d :
  store_constraints d -> store_constraints (snd (handler P E ep req d)).
Proof.
  intros H. destruct ep as [| op | | |]; simpl; try exact H.
  - destruct op; simpl.
    + now apply register_keeps.
    + now rewrite login_db.
    + now rewrite getProfile_db.
    + now apply changePassword_keeps.
    + now rewrite getPosts_db.
    + now rewrite getPost_db.
    + now apply createPost_keeps.
    + now apply updatePost_keeps.
    + now apply deletePost_keeps.
    + now apply createCategory_keeps.
    + now apply updateCategory_keeps.
    + now apply deleteCategory_keeps.
  - now rewrite getCategories_db.
  - now rewrite getCategory_db.
Qed.

(** X26: Every database that requests can make of the empty database keeps
    the primary keys and the unique columns of the schema: no two users
    share an id, a username or an email, no two categories an id, a name or
    a slug, no two posts an id or a slug, and no association row occurs
    twice; and whatever the router answers leaves such a database. *)
Theorem reachable_databases_keep_the_constraints (P : Platform) (E : Env) (d : db) :
  reachable P E d ->
  store_constraints d /\
  (forall ep authorization req r d',
     router_fetch P E ep authorization req d = Some (r, d') -> reachable P E d').
Proof.
  intros Hreach. split.
  - induction Hreach as [| d ep req _ IH].
    + repeat split; constructor || (intros a b []).
    + now apply handler_keeps.
  - intros ep authorization req r d' Hrun. unfold router_fetch in Hrun.
    destruct (through P E (middlewares ep) authorization (with_user req None))
      as [[req' | r'] |]; inversion Hrun as [Hstep]; subst.
    + change d' with (snd (r, d')). rewrite <- Hstep. now apply reachable_request.
    + exact Hreach.
Qed.

Lemma reachable_databases_keep_the_constraints_witness :
  store_constraints Demo.seeded /\ unique_slugs Demo.seeded.
Proof.
  destruct (reachable_databases_keep_the_constraints (Demo.platform false false) Demo.env
              Demo.seeded seeded_reachable) as [Hkept _].
  split; [exact Hkept |].
  destruct Hkept as (_ & _ & [_ Hslugs] & _). exact Hslugs.
Defined.

(* ------------------------------------------------------------------ *)
(** ** The patterns of utils/validation.ts *)

Lemma matching_many_class ic f (A : Type) (s : string) (k : string -> option A) :
  matching ic (Many (Class f)) s k = run_then f k s.
Proof.
  simpl.
  assert (H : forall fuel s, (String.length s <= fuel)%nat ->
    (fix rounds (fuel : nat) (s : string) {struct fuel} : option A :=
       match fuel with
       | O => k s
       | S fuel' =>
           match
             match s with
             | EmptyString => None
             | String d s' =>
                 if f d
                 then if Nat.ltb (String.length s') (String.length s)
                      then rounds fuel' s' else None
                 else None
             end
           with
           | Some a => Some a
           | None => k s
           end
       end) fuel s = run_then f k s).
  { induction fuel as [| fuel IH]; intros t Ht.
    - destruct t; [reflexivity | simpl in Ht; lia].
    - destruct t as [| d t]; [reflexivity |].
      simpl in Ht. simpl run_then.
      assert (Hlt : Nat.ltb (String.length t) (String.length (String d t)) = true)
        by (apply Nat.ltb_lt; simpl; lia).
      rewrite Hlt. rewrite IH by lia. reflexivity. }
  apply H. lia.
Qed.

Lemma run_then_accepts {A : Type} f (k : string -> option A) s :
  run_then f k s <> None <->
  exists u w, s = u ++ w /\ forall_chars f u = true /\ k w <> None.
Proof.
  induction s as [| d s IH]; simpl.
  - split.
    + intros H. exists "", "". auto.
    + intros (u & w & Hs & _ & Hk). destruct u; [| discriminate].
      simpl in Hs. now subst w.
  - split.
    + intros H. destruct (f d) eqn:Hd.
      * destruct (run_then f k s) eqn:Hrun.
        -- destruct (proj1 IH ltac:(discriminate)) as (u & w & Hs & Hu & Hk).
           exists (String d u), w. simpl. rewrite Hd, Hu, Hs. auto.
        -- exists "", (String d s). auto.
      * exists "", (String d s). auto.
    + intros (u & w & Hs & Hu & Hk). destruct u as [| c u]; simpl in Hs.
      * subst w. destruct (if f d then run_then f k s else None); [discriminate | exact Hk].
      * inversion Hs; subst c s. simpl in Hu. apply andb_true_iff in Hu as [Hd Hu].
        rewrite Hd.
        assert (Hrun : run_then f k (u ++ w) <> None) by (apply IH; eauto).
        destruct (run_then f k (u ++ w)); [discriminate | contradiction].
Qed.

Lemma several_class_accepts ic f (A : Type) (k : string -> option A) s :
  matching ic (Several (Class f)) s k <> None <->
  exists u w, s = u ++ w /\ u <> "" /\ forall_chars f u = true /\ k w <> None.
Proof.
  unfold Several.
  change (matching ic (Then (Class f) (Many (Class f))) s k)
    with (matching ic (Class f) s (fun s' => matching ic (Many (Class f)) s' k)).
  destruct s as [| d s].
  - simpl. split; [congruence |].
    intros (u & w & Hs & Hu & _). destruct u; [congruence | discriminate].
  - cbn [matching]. fold (matching ic (Many (Class f)) s k).
    rewrite matching_many_class.
    split.
    + intros H. destruct (f d) eqn:Hd; [| congruence].
      apply run_then_accepts in H as (u & w & Hs & Hu & Hk).
      exists (String d u), w. simpl. rewrite Hd, Hu, Hs.
      repeat split; auto. discriminate.
    + intros (u & w & Hs & Hne & Hu & Hk). destruct u as [| c u]; [congruence |].
      simpl in Hs. inversion Hs; subst c s. simpl in Hu.
      apply andb_true_iff in Hu as [Hd Hu]. rewrite Hd.
      apply run_then_accepts. eauto.
Qed.

Lemma lit_accepts c (A : Type) (k : string -> option A) s :
  matching false (Lit c) s k <> None <-> exists s', s = String c s' /\ k s' <> None.
Proof.
  destruct s as [| d s]; simpl.
  - split; [congruence | intros (s' & H & _); discriminate].
  - unfold same_char. destruct (Ascii.eqb_spec c d) as [-> | Hne].
    + split; [eauto | intros (s' & H & Hk); now inversion H; subst].
    + split; [congruence | intros (s' & H & _); inversion H; congruence].
Qed.

(** X27: validateEmail accepts exactly the texts name@host.rest in which
    name, host and rest are not empty and contain neither white space nor @. *)
Theorem validateEmail_accepts_name_at_host_dot_rest (email : string) :
  validateEmail email = true <->
  exists name host rest,
    email = name ++ "@" ++ host ++ "." ++ rest /\
    name <> "" /\ host <> "" /\ rest <> "" /\
    forall_chars not_space_or_at name = true /\
    forall_chars not_space_or_at host = true /\
    forall_chars not_space_or_at rest = true.
Proof.
  unfold validateEmail, test_whole, emailRegex.
  set (k := fun rest : string => if is_empty rest then Some tt else None).
  assert (Hk : forall w, k w <> None <-> w = "").
  { intros w. unfold k. destruct w; simpl; split; congruence. }
  set (C := Class not_space_or_at).
  assert (Hsome : forall o : option unit,
             (match o with Some _ => true | None => false end) = true <-> o <> None).
  { intros [u |]; split; congruence. }
  rewrite Hsome.
  change (matching false (Then (Several C) (Then (Lit "@") (Then (Several C)
            (Then (Lit ".") (Several C))))) email k)
    with (matching false (Several C) email (fun s1 =>
            matching false (Lit "@") s1 (fun s2 =>
              matching false (Several C) s2 (fun s3 =>
                matching false (Lit ".") s3 (fun s4 =>
                  matching false (Several C) s4 k))))).
  unfold C. rewrite several_class_accepts. split.
  - intros (name & w1 & -> & Hname & Hname_ok & H1).
    apply lit_accepts in H1 as (w2 & -> & H2).
    apply several_class_accepts in H2 as (host & w3 & -> & Hhost & Hhost_ok & H3).
    apply lit_accepts in H3 as (w4 & -> & H4).
    apply several_class_accepts in H4 as (rest & w5 & -> & Hrest & Hrest_ok & H5).
    apply Hk in H5. subst w5.
    exists name, host, rest. rewrite append_empty_r.
    repeat split; auto.
  - intros (name & host & rest & -> & Hname & Hhost & Hrest & Hn & Hh & Hr).
    exists name, ("@" ++ host ++ "." ++ rest). repeat split; auto.
    apply lit_accepts. exists (host ++ "." ++ rest). split; [reflexivity |].
    apply several_class_accepts. exists host, ("." ++ rest). repeat split; auto.
    apply lit_accepts. exists rest. split; [reflexivity |].
    apply several_class_accepts. exists rest, "". rewrite append_empty_r.
    repeat split; auto. now apply Hk.
Qed.

(* ------------------------------------------------------------------ *)
(** ** [sanitizeHtml] *)

Lemma length_append (a b : string) :
  String.length (a ++ b) = (String.length a + String.length b)%nat.
Proof. induction a as [| c a IH]; simpl; [reflexivity | now rewrite IH]. Qed.

Lemma nocase_lt (c : ascii) : Chars.eqb_nocase "<" c = true -> c = "<"%char.
Proof.
  destruct c as [[] [] [] [] [] [] [] []]; vm_compute; intros H;
    first [reflexivity | discriminate].
Qed.

Lemma nocase_not_lt (c d : ascii) :
  Chars.eqb_nocase c d = true -> not_lt c = true -> not_lt d = true.
Proof.
  intros Hcd Hc. unfold not_lt in *. destruct (Ascii.eqb_spec d "<") as [-> |]; [| reflexivity].
  unfold Chars.eqb_nocase in Hcd. rewrite Ascii.eqb_sym in Hcd.
  apply nocase_lt in Hcd. subst c. discriminate.
Qed.

Lemma same_nocase_not_lt (t u : string) :
  same_nocase t u = true -> forall_chars not_lt t = true -> forall_chars not_lt u = true.
Proof.
  revert u. induction t as [| c t IH]; intros [| d u]; simpl; try discriminate; auto.
  intros H Ht. apply andb_true_iff in H as [Hcd H]. apply andb_true_iff in Ht as [Hc Ht].
  rewrite (nocase_not_lt c d Hcd Hc). simpl. auto.
Qed.

Lemma matching_text_same t r (A : Type) (k : string -> option A) :
  forall found s, same_nocase t found = true ->
  matching true (text t r) (found ++ s) k = matching true r s k.
Proof.
  induction t as [| c t IH]; intros [| d found] s H; simpl in H; try discriminate.
  - reflexivity.
  - apply andb_true_iff in H as [Hcd H].
    change (matching true (text (String c t) r) (String d found ++ s) k)
      with (if same_char true c d then matching true (text t r) (found ++ s) k else None).
    unfold same_char. rewrite Hcd. now apply IH.
Qed.

Lemma matching_text_other t r (A : Type) (k : string -> option A) :
  forall s, starts_nocase t s = false -> matching true (text t r) s k = None.
Proof.
  induction t as [| c t IH]; intros s H; simpl in H; [discriminate |].
  destruct s as [| d s]; [reflexivity |].
  change (matching true (text (String c t) r) (String d s) k)
    with (if same_char true c d then matching true (text t r) s k else None).
  unfold same_char. destruct (Chars.eqb_nocase c d); [| reflexivity].
  apply IH. exact H.
Qed.

Lemma run_then_stops {A : Type} f (k : string -> option A) (u w : string) (a : A) :
  forall_chars f u = true ->
  (forall d w', w = String d w' -> f d = false) ->
  k w = Some a ->
  run_then f k (u ++ w) = Some a.
Proof.
  intros Hu Hw Hk. induction u as [| c u IH]; simpl.
  - destruct w as [| d w']; [exact Hk |].
    simpl. rewrite (Hw d w' eq_refl). exact Hk.
  - simpl in Hu. apply andb_true_iff in Hu as [Hc Hu]. rewrite Hc, (IH Hu). reflexivity.
Qed.

Lemma matching_many_blocked ic r (A : Type) (k : string -> option A) (s : string) :
  (forall B (k' : string -> option B), matching ic r s k' = None) ->
  matching ic (Many r) s k = k s.
Proof.
  intros Hblocked. simpl. destruct (String.length s); [reflexivity |].
  rewrite Hblocked. reflexivity.
Qed.

(** The pattern of a tag matches an element without an inner [<] up to
    its closing tag. *)
Lemma element_match tag found inner ending post :
  same_nocase (opening tag) found = true ->
  forall_chars not_lt inner = true ->
  same_nocase (closing tag) ending = true ->
  matching true (elementRegex tag) (found ++ inner ++ ending ++ post) (fun rest => Some rest)
  = Some post.
Proof.
  intros Hfound Hinner Hending. unfold elementRegex. fold (opening tag) (closing tag).
  rewrite (matching_text_same _ _ _ _ _ _ Hfound).
  set (G := Then (NotAhead (text (closing tag) Empty))
              (Then (Lit "<") (Many (Class not_lt)))).
  change (matching true (Then (Many (Class not_lt)) (Then (Many G) (text (closing tag) Empty)))
            (inner ++ ending ++ post) (fun rest => Some rest))
    with (matching true (Many (Class not_lt)) (inner ++ ending ++ post)
            (fun s1 => matching true (Many G) s1
               (fun s2 => matching true (text (closing tag) Empty) s2 (fun rest => Some rest)))).
  rewrite matching_many_class. apply run_then_stops; [exact Hinner | |].
  - intros d w' Hw. destruct ending as [| e ending]; [discriminate |].
    simpl in Hw. inversion Hw; subst d w'.
    unfold closing in Hending. simpl in Hending. apply andb_true_iff in Hending as [He _].
    apply nocase_lt in He. subst e. reflexivity.
  - rewrite matching_many_blocked.
    + rewrite (matching_text_same _ _ _ _ _ _ Hending). reflexivity.
    + intros B k'. unfold G.
      change (matching true (Then (NotAhead (text (closing tag) Empty))
                               (Then (Lit "<") (Many (Class not_lt)))) (ending ++ post) k')
        with (match matching true (text (closing tag) Empty) (ending ++ post)
                      (fun _ => Some tt) with
              | Some _ => None
              | None => matching true (Then (Lit "<") (Many (Class not_lt))) (ending ++ post) k'
              end).
      rewrite (matching_text_same _ _ _ _ _ _ Hending). reflexivity.
Qed.

Lemma remove_all_skip ic r (u post : string) :
  remove_all ic r (String.length u) (u ++ post) = remove_all ic r 0 post.
Proof. induction u as [| c u IH]; simpl; [destruct post; reflexivity | exact IH]. Qed.

Lemma remove_all_element tag found inner ending post :
  same_nocase (opening tag) found = true ->
  forall_chars not_lt inner = true ->
  same_nocase (closing tag) ending = true ->
  remove_all true (elementRegex tag) 0 (found ++ inner ++ ending ++ post)
  = remove_all true (elementRegex tag) 0 post.
Proof.
  intros Hfound Hinner Hending.
  pose proof (element_match tag found inner ending post Hfound Hinner Hending) as Hm.
  destruct found as [| c found]; [discriminate |].
  change ((String c found ++ inner ++ ending ++ post))
    with (String c (found ++ inner ++ ending ++ post)) in *.
  cbn [remove_all]. unfold match_here. rewrite Hm.
  replace (String.length (String c (found ++ inner ++ ending ++ post)) - String.length post)%nat
    with (S (String.length (found ++ inner ++ ending))).
  2:{ cbn [String.length]. rewrite !length_append. lia. }
  rewrite <- (remove_all_skip true (elementRegex tag) (found ++ inner ++ ending) post).
  now rewrite !append_assoc.
Qed.

Lemma remove_all_other tag c s :
  starts_nocase (opening tag) (String c s) = false ->
  remove_all true (elementRegex tag) 0 (String c s)
  = String c (remove_all true (elementRegex tag) 0 s).
Proof.
  intros H. cbn [remove_all]. unfold match_here, elementRegex. fold (opening tag).
  rewrite (matching_text_other _ _ _ _ _ H). reflexivity.
Qed.

Lemma remove_all_run tag u s :
  forall_chars not_lt u = true ->
  remove_all true (elementRegex tag) 0 (u ++ s) = u ++ remove_all true (elementRegex tag) 0 s.
Proof.
  induction u as [| c u IH]; simpl append; intros H; [reflexivity |].
  simpl in H. apply andb_true_iff in H as [Hc Hu].
  rewrite remove_all_other, (IH Hu); [reflexivity |].
  unfold opening. simpl. destruct (Chars.eqb_nocase "<" c) eqn:Hlt; [| reflexivity].
  apply nocase_lt in Hlt. subst c. discriminate.
Qed.

Lemma nocase_other (a b d : ascii) :
  Chars.eqb_nocase a d = true -> Chars.eqb_nocase b d = Chars.eqb_nocase b a.
Proof.
  unfold Chars.eqb_nocase. intros H. apply Ascii.eqb_eq in H. now rewrite H.
Qed.

(** The pattern of [script] leaves an [iframe] element alone. *)
Lemma remove_script_keeps_iframe found inner ending post :
  same_nocase (opening "iframe") found = true ->
  forall_chars not_lt inner = true ->
  same_nocase (closing "iframe") ending = true ->
  remove_all true scriptRegex 0 (found ++ inner ++ ending ++ post)
  = found ++ inner ++ ending ++ remove_all true scriptRegex 0 post.
Proof.
  intros Hfound Hinner Hending. unfold scriptRegex.
  unfold opening, closing in Hfound, Hending.
  destruct found as [| f0 [| f1 found]]; simpl in Hfound;
    try discriminate; try (now rewrite andb_false_r in Hfound).
  destruct ending as [| e0 [| e1 ending]]; simpl in Hending;
    try discriminate; try (now rewrite andb_false_r in Hending).
  apply andb_true_iff in Hfound as [Hf0 Hfound]. apply andb_true_iff in Hfound as [Hf1 Hfound].
  apply andb_true_iff in Hending as [He0 Hending].
  apply andb_true_iff in Hending as [He1 Hending].
  assert (Hhead : forall_chars not_lt (String f1 found) = true).
  { apply (same_nocase_not_lt "iframe"); [| reflexivity].
    simpl. now rewrite Hf1, Hfound. }
  assert (Htail : forall_chars not_lt (String e1 ending) = true).
  { apply (same_nocase_not_lt "/iframe>"); [| reflexivity].
    simpl. now rewrite He1, Hending. }
  change (String f0 (String f1 found) ++ inner ++ String e0 (String e1 ending) ++ post)
    with (String f0 (String f1 found ++ inner ++ String e0 (String e1 ending ++ post))).
  rewrite remove_all_other.
  2:{ unfold opening. simpl. rewrite (nocase_other "i" "s" f1 Hf1). simpl.
      apply andb_false_r. }
  rewrite (remove_all_run "script" _ _ Hhead), (remove_all_run "script" _ _ Hinner).
  rewrite remove_all_other.
  2:{ unfold opening. simpl. rewrite (nocase_other "/" "s" e1 He1). simpl.
      apply andb_false_r. }
  rewrite (remove_all_run "script" _ _ Htail). reflexivity.
Qed.

(** X28: sanitizeHtml removes a script or iframe element, its tags in any
    letter case, that has no < between its opening tag and its closing tag:
    text without < before the element is kept, and what follows the element
    is sanitized on its own. *)
Theorem sanitizeHtml_removes_a_plain_element
  (tag pre found inner ending post : string) :
  tag = "script" \/ tag = "iframe" ->
  forall_chars not_lt pre = true ->
  same_nocase (opening tag) found = true ->
  forall_chars not_lt inner = true ->
  same_nocase (closing tag) ending = true ->
  sanitizeHtml (pre ++ found ++ inner ++ ending ++ post) = pre ++ sanitizeHtml post.
Proof.
  intros [-> | ->] Hpre Hfound Hinner Hending; unfold sanitizeHtml, scriptRegex, iframeRegex.
  - rewrite (remove_all_run "script" _ _ Hpre).
    rewrite (remove_all_element "script" _ _ _ _ Hfound Hinner Hending).
    now rewrite (remove_all_run "iframe" _ _ Hpre).
  - rewrite (remove_all_run "script" _ _ Hpre).
    fold scriptRegex.
    rewrite (remove_script_keeps_iframe _ _ _ _ Hfound Hinner Hending).
    rewrite (remove_all_run "iframe" _ _ Hpre).
    now rewrite (remove_all_element "iframe" _ _ _ _ Hfound Hinner Hending).
Qed.

Lemma sanitizeHtml_removes_a_plain_element_witness :
  sanitizeHtml "Hello <SCRIPT src=x>alert(1)</Script>world" = "Hello world".
Proof.
  exact (sanitizeHtml_removes_a_plain_element "script" "Hello " "<SCRIPT" " src=x>alert(1)"
           "</Script>" "world" (or_introl eq_refl) eq_refl eq_refl eq_refl eq_refl).
Defined.

(** X29: sanitizeHtml makes one pass and does not sanitize its own result:
    for every payload without <, the input
    <scr<script></script>ipt>payload</script> comes out as
    <script>payload</script>. *)
Theorem sanitizeHtml_leaves_a_split_tag (payload : string) :
  forall_chars not_lt payload = true ->
  sanitizeHtml ("<scr<script></script>ipt>" ++ payload ++ "</script>")
  = "<script>" ++ payload ++ "</script>".
Proof.
  intros Hpayload. unfold sanitizeHtml, scriptRegex, iframeRegex.
  assert (Hscript :
    remove_all true (elementRegex "script") 0
      ("<scr<script></script>ipt>" ++ payload ++ "</script>")
    = "<script>" ++ payload ++ "</script>").
  { change ("<scr<script></script>ipt>" ++ payload ++ "</script>")
      with (String "<" ("scr" ++ "<script" ++ ">" ++ "</script>"
                          ++ "ipt>" ++ payload ++ String "<" ("/script>" ++ ""))).
    rewrite remove_all_other by reflexivity.
    rewrite (remove_all_run "script" "scr") by reflexivity.
    rewrite (remove_all_element "script" "<script" ">" "</script>") by reflexivity.
    rewrite (remove_all_run "script" "ipt>") by reflexivity.
    rewrite (remove_all_run "script" payload) by exact Hpayload.
    rewrite remove_all_other by reflexivity.
    rewrite (remove_all_run "script" "/script>") by reflexivity.
    reflexivity. }
  rewrite Hscript.
  change ("<script>" ++ payload ++ "</script>")
    with (String "<" ("script>" ++ payload ++ String "<" ("/script>" ++ ""))).
  rewrite remove_all_other by reflexivity.
  rewrite (remove_all_run "iframe" "script>") by reflexivity.
  rewrite (remove_all_run "iframe" payload) by exact Hpayload.
  rewrite remove_all_other by reflexivity.
  rewrite (remove_all_run "iframe" "/script>") by reflexivity.
  reflexivity.
Qed.

Lemma sanitizeHtml_leaves_a_split_tag_witness :
  sanitizeHtml "<scr<script></script>ipt>alert(1)</script>" = "<script>alert(1)</script>".
Proof. exact (sanitizeHtml_leaves_a_split_tag "alert(1)" eq_refl). Defined.

